(** * Epoch collections: a shallow embedding of [mne/epochs.py]

    The development follows the source file top-down: the array and
    dictionary primitives the code borrows from numpy and Python, the event
    table with its handling of repeated events, the rejection policy, the
    epoch collection with its mutating methods (as a state-and-exception
    monad over the collection record), the equalization of event counts and
    the size planning of [save].

    Floating-point values (samples, thresholds, times) are embedded as exact
    rationals [Q]; integer arrays as lists over [Z] or [nat]. *)

From Stdlib Require Import List ZArith QArith Qminmax Qabs Qround Bool Arith Lia.
From Stdlib Require Import Sorted Permutation.
From Stdlib Require Import String Ascii DecimalString.
Import ListNotations.

Local Open Scope string_scope.
Local Open Scope list_scope.
Local Open Scope Z_scope.

(* ================================================================== *)
(** * Python and numpy primitives used by the source *)
(* ================================================================== *)

(** The exceptions raised in [epochs.py]. Messages are kept as structured
    payloads where the source formats them from values. *)
Inductive ValueErrorMsg : Type :=
| NoDesiredEvents                         (* 'No desired events found.' *)
| EventsExceedInt32 (events_max : Z)      (* 'events array values must not exceed ...' *)
| NoMatchingEvents (key : string)         (* 'No matching events found for %s' *)
| DetrendInvalid                          (* 'detrend must be None, 0, or 1' *)
| TminAfterTmax                           (* 'tmin has to be less than or equal to tmax' *)
| RejectTminBeforeTmin                    (* 'reject_tmin needs to be None or >= tmin' *)
| RejectTmaxAfterTmax                     (* 'reject_tmax needs to be None or <= tmax' *)
| RejectIntervalEmpty                     (* 'reject_tmin needs to be < reject_tmax' *)
| DecimInvalid                            (* raised by _check_decim *)
| EpochsEventsMismatch                    (* 'The number of epochs and the number of events must match' *)
| SelectionShape                          (* 'selection must be shape ...' *)
| NoChannelFound (key : string)           (* 'No %s channel found. ...' *)
| InvalidThreshold (kind : string)        (* '%s value must be a number >= 0' *)
| NotAsStringent (kind key : string)      (* '... must be at least as stringent' *)
| ItemMustBeNone                          (* 'item must be None in epochs.get_data() ...' *)
| SplitTooSmall (min_size : Z)            (* 'The split size ... is too small' *)
| TooManyFiles (n_parts : Z)              (* 'Split size ... would result in writing ...' *)
| NoEventIds                              (* 'event_ids must have at least one element' *)
| NotInList (v : Z)                       (* list.index: value not in list *)
| EmptySequence.                          (* max() of an empty sequence *)

Inductive Exn : Type :=
| ValueError (msg : ValueErrorMsg)
| KeyError (kind : string)
| IndexError (index : Z)
| RuntimeError (msg : string)
| TypeError (msg : string)
| AssertionError
| AttributeError
| ZeroDivisionError.

(** Results of code that may raise. *)
Definition Exc (A : Type) : Type := (Exn + A)%type.

Definition exc_bind {A B} (m : Exc A) (k : A -> Exc B) : Exc B :=
  match m with
  | inl e => inl e
  | inr a => k a
  end.

Declare Scope exc_scope.
Delimit Scope exc_scope with exc.
Notation "x <- m ;; k" := (exc_bind m (fun x => k))
  (at level 100, m at next level, right associativity) : exc_scope.
Notation "' p <- m ;; k" := (exc_bind m (fun x => match x with p => k end))
  (at level 100, p pattern, m at next level, right associativity) : exc_scope.

(** ** Lists as one-dimensional arrays *)

(** [a[idx]] with a list of positions (numpy fancy indexing); positions are
    in range wherever the source uses it. *)
Definition take_idx {A} (a : list A) (idx : list nat) : list A :=
  flat_map (fun i => match nth_error a i with Some x => [x] | None => [] end) idx.

(** [a[select]] with an index array that is not known to be in range: the
    first position out of range raises. *)
Fixpoint fancy_index {A} (a : list A) (select : list nat) : Exc (list A) :=
  match select with
  | [] => inr []
  | i :: rest =>
      match nth_error a i with
      | None => inl (IndexError (Z.of_nat i))
      | Some x =>
          match fancy_index a rest with
          | inl e => inl e
          | inr xs => inr (x :: xs)
          end
      end
  end.

(** [np.delete(a, idxs, 0)]: drop the rows whose position is listed. *)
Fixpoint np_delete_from {A} (pos : nat) (a : list A) (idxs : list nat) : list A :=
  match a with
  | [] => []
  | x :: t =>
      if existsb (Nat.eqb pos) idxs then np_delete_from (S pos) t idxs
      else x :: np_delete_from (S pos) t idxs
  end.

Definition np_delete {A} (a : list A) (idxs : list nat) : list A :=
  np_delete_from 0%nat a idxs.

(** [mask.nonzero()[0]] / [np.where(mask)[0]]: positions where the test holds. *)
Fixpoint nonzero_from {A} (pos : nat) (f : A -> bool) (a : list A) : list nat :=
  match a with
  | [] => []
  | x :: t => if f x then pos :: nonzero_from (S pos) f t else nonzero_from (S pos) f t
  end.

Definition nonzero {A} (f : A -> bool) (a : list A) : list nat :=
  nonzero_from 0%nat f a.

(** Sorted insertion without duplicates, the core of [np.unique] and
    [np.setdiff1d]. *)
Fixpoint insert_unique_by {A} (ltb eqb : A -> A -> bool) (x : A) (l : list A)
  : list A :=
  match l with
  | [] => [x]
  | y :: t =>
      if ltb x y then x :: l
      else if eqb x y then l
      else y :: insert_unique_by ltb eqb x t
  end.

Definition insert_unique : Z -> list Z -> list Z := insert_unique_by Z.ltb Z.eqb.

(** [np.unique(a)]: the sorted distinct values. *)
Definition np_unique (a : list Z) : list Z := fold_right insert_unique [] a.

Definition count_Z (v : Z) (a : list Z) : nat :=
  List.length (filter (Z.eqb v) a).

(** Position of the first occurrence ([list.index], and the indices of
    [np.unique(..., return_index=True)]). *)
Fixpoint index_from (pos : nat) (v : Z) (a : list Z) : option nat :=
  match a with
  | [] => None
  | x :: t => if x =? v then Some pos else index_from (S pos) v t
  end.

Definition list_index (a : list Z) (v : Z) : option nat := index_from 0%nat v a.

(** [np.unique(a, return_index=True)[1]]. *)
Definition np_unique_index (a : list Z) : list nat :=
  flat_map (fun v => match list_index a v with Some i => [i] | None => [] end)
           (np_unique a).

Definition mem_nat (k : nat) (l : list nat) : bool := existsb (Nat.eqb k) l.
Definition mem_Z (k : Z) (l : list Z) : bool := existsb (Z.eqb k) l.

Definition insert_unique_nat : nat -> list nat -> list nat :=
  insert_unique_by Nat.ltb Nat.eqb.

Definition np_unique_nat (a : list nat) : list nat :=
  fold_right insert_unique_nat [] a.

(** [np.setdiff1d(a, b)]: the sorted distinct values of [a] not in [b]. *)
Definition setdiff1d (a b : list nat) : list nat :=
  np_unique_nat (filter (fun x => negb (mem_nat x b)) a).

(** [np.diff]. *)
Fixpoint np_diff (a : list Z) : list Z :=
  match a with
  | x :: ((y :: _) as t) => (y - x) :: np_diff t
  | _ => []
  end.

(** ** Strings *)

(** [s.split(sep)] for a one-character separator. *)
Fixpoint split_acc (sep : ascii) (s : string) (cur : string) : list string :=
  match s with
  | EmptyString => [cur]
  | String c rest =>
      if Ascii.eqb c sep then cur :: split_acc sep rest EmptyString
      else split_acc sep rest (cur ++ String c EmptyString)%string
  end.

Definition str_split (sep : ascii) (s : string) : list string :=
  split_acc sep s EmptyString.

Definition mem_str (k : string) (l : list string) : bool :=
  existsb (String.eqb k) l.

(** [c in s] for a character. *)
Definition str_contains (c : ascii) (s : string) : bool :=
  existsb (Ascii.eqb c) (list_ascii_of_string s).

(** [set(a) == set(b)] on lists of strings. *)
Definition set_eq_str (a b : list string) : bool :=
  forallb (fun x => mem_str x b) a && forallb (fun x => mem_str x a) b.

Fixpoint insert_str (x : string) (l : list string) : list string :=
  match l with
  | [] => [x]
  | y :: t => if String.leb x y then x :: l else y :: insert_str x t
  end.

(** [sorted(l)] on strings (code-point order). *)
Definition sorted_str (l : list string) : list string :=
  fold_right insert_str [] l.

(** ['%d' % n] for a non-negative index. *)
Definition str_of_nat (n : nat) : string :=
  NilEmpty.string_of_uint (Nat.to_uint n).

(** ** Dictionaries with insertion order *)

Definition dict (V : Type) : Type := list (string * V).

Fixpoint dict_get {V} (d : dict V) (k : string) : option V :=
  match d with
  | [] => None
  | (k', v) :: t => if String.eqb k k' then Some v else dict_get t k
  end.

(** [d[k] = v]: overwrite in place, or append a new entry. *)
Fixpoint dict_set {V} (d : dict V) (k : string) (v : V) : dict V :=
  match d with
  | [] => [(k, v)]
  | (k', v') :: t =>
      if String.eqb k k' then (k', v) :: t else (k', v') :: dict_set t k v
  end.

Definition dict_keys {V} (d : dict V) : list string := map fst d.
Definition dict_values {V} (d : dict V) : list V := map snd d.

(* ================================================================== *)
(** * Event table: repeated events ([_merge_events], [_handle_event_repeated]) *)
(* ================================================================== *)

(** One row [[sample, prior code, code]] of the events array. *)
Definition Event : Type := (Z * Z * Z)%type.

Definition ev_sample (e : Event) : Z := fst (fst e).
Definition ev_prior (e : Event) : Z := snd (fst e).
Definition ev_code (e : Event) : Z := snd e.

(** [events[:, 1:].flatten()]. *)
Definition prior_and_code (events : list Event) : list Z :=
  flat_map (fun e => [ev_prior e; ev_code e]) events.

(** One entry of the drop log: the reasons, empty when the epoch is kept. *)
Definition DropLog : Type := list (list string).

(** [a[i] = f(a[i])]; out of range is an [IndexError]. *)
Fixpoint update_nth {A} (a : list A) (i : nat) (f : A -> A) : option (list A) :=
  match a, i with
  | [], _ => None
  | x :: t, O => Some (f x :: t)
  | x :: t, S j => option_map (cons x) (update_nth t j f)
  end.

(** [for idx in idxs: drop_log[idx] = drop_log[idx] + reasons]. *)
Fixpoint extend_drop_log (drop_log : DropLog) (idxs : list nat)
         (reasons : list string) : Exc DropLog :=
  match idxs with
  | [] => inr drop_log
  | idx :: rest =>
      match update_nth drop_log idx (fun old => old ++ reasons) with
      | None => inl (IndexError (Z.of_nat idx))
      | Some drop_log' => extend_drop_log drop_log' rest reasons
      end
  end.

(** The free value chosen for a merged event: 1 if every value in use is
    above 1, else one past the first gap among the values in use, else one
    past the largest. [in_use] is the sorted array of distinct values. *)
Definition unused_event_val (in_use : list Z) : Z :=
  match in_use with
  | [] => 1                       (* unreachable: the duplicated rows are in use *)
  | first :: _ =>
      if first >? 1 then 1
      else
        match nonzero (fun d => d >? 1) (np_diff in_use) with
        | [] => last in_use 0 + 1
        | idx :: _ => nth idx in_use 0 + 1
        end
  end.

(** State of the loop of [_merge_events]. *)
Record MergeState : Type := mkMergeState {
  ms_event_id : dict Z;
  ms_new_events : list Event;
  ms_to_delete : list nat
}.

(** [new_events[i, 1] = prior; new_events[i, 2] = val]. *)
Definition set_prior_code (events : list Event) (i : nat) (prior val : Z)
  : list Event :=
  match update_nth events i (fun e => (ev_sample e, prior, val)) with
  | Some events' => events'
  | None => events
  end.

(** Body of the loop of [_merge_events] for one duplicated sample [ev]. *)
Definition merge_one (events : list Event) (ev : Z) (st : MergeState)
  : Exc MergeState :=
  let idxs := nonzero (fun e => ev_sample e =? ev) events in
  let unique_priors := np_unique (map ev_prior (take_idx events idxs)) in
  let new_prior :=
    match unique_priors with
    | [p] => p
    | _ => 0
    end in
  let ev_vals := np_unique (map ev_code (take_idx events idxs)) in
  let event_id := ms_event_id st in
  (x <-
     (if (List.length ev_vals <=? 1)%nat then
        inr (hd 0 ev_vals, event_id)
      else
        let event_id_keys := dict_keys event_id in
        let event_id_vals := dict_values event_id in
        new_key_comps <-
          fold_right
            (fun value acc =>
               comps <- acc ;;
               match list_index event_id_vals value with
               | Some i => inr (nth i event_id_keys "" :: comps)
               | None => inl (ValueError (NotInList value))
               end)
            (inr []) ev_vals ;;
        match find (fun kv => set_eq_str (str_split "/" (fst kv)) new_key_comps)
                   event_id with
        | Some (_, v) => inr (v, event_id)
        | None =>
            let in_use := np_unique (dict_values event_id ++ prior_and_code events) in
            let new_event_val := unused_event_val in_use in
            let new_event_id_key := String.concat "/" (sorted_str new_key_comps) in
            inr (new_event_val, dict_set event_id new_event_id_key new_event_val)
        end) ;;
   let '(new_event_val, event_id') := x in
   inr {| ms_event_id := event_id';
          ms_new_events :=
            set_prior_code (ms_new_events st) (hd 0%nat idxs) new_prior new_event_val;
          ms_to_delete := ms_to_delete st ++ tl idxs |})%exc.

(** [_merge_events(events, event_id, selection)]. *)
Definition _merge_events (events : list Event) (event_id : dict Z)
           (selection : list nat)
  : Exc (list Event * dict Z * list nat) :=
  let samples := map ev_sample events in
  let repeated :=
    filter (fun v => (1 <? count_Z v samples)%nat) (np_unique samples) in
  (st <- fold_left
           (fun acc ev => st <- acc ;; merge_one events ev st)
           repeated
           (inr {| ms_event_id := event_id;
                   ms_new_events := events;
                   ms_to_delete := [] |}) ;;
   inr (np_delete (ms_new_events st) (ms_to_delete st),
        ms_event_id st,
        np_delete selection (ms_to_delete st)))%exc.

(** The [event_repeated] option. *)
Inductive EventRepeated : Type := ER_error | ER_drop | ER_merge.

(** [_handle_event_repeated(events, event_id, event_repeated, selection,
    drop_log)]. *)
Definition _handle_event_repeated (events : list Event) (event_id : dict Z)
           (event_repeated : EventRepeated) (selection : list nat)
           (drop_log : DropLog)
  : Exc (list Event * dict Z * list nat * DropLog) :=
  if negb (List.length events =? List.length selection)%nat then inl AssertionError
  else
    let samples := map ev_sample events in
    let unique_events := np_unique samples in
    let u_ev_idxs := np_unique_index samples in
    if (List.length unique_events =? List.length events)%nat then
      inr (events, event_id, selection, drop_log)
    else
      (x <-
         match event_repeated with
         | ER_error =>
             inl (RuntimeError "Event time samples were not unique")
         | ER_drop =>
             let new_events := take_idx events u_ev_idxs in
             let new_selection := take_idx selection u_ev_idxs in
             let drop_ev_idxs := setdiff1d selection new_selection in
             drop_log' <- extend_drop_log drop_log drop_ev_idxs ["DROP DUPLICATE"] ;;
             inr (new_events, event_id, new_selection, drop_log')
         | ER_merge =>
             m <- _merge_events events event_id selection ;;
             let '(new_events, event_id', new_selection) := m in
             let drop_ev_idxs := setdiff1d selection new_selection in
             drop_log' <- extend_drop_log drop_log drop_ev_idxs ["MERGE DUPLICATE"] ;;
             inr (new_events, event_id', new_selection, drop_log')
         end ;;
       let '(new_events, event_id', selection', drop_log') := x in
       let keys := prior_and_code new_events in
       inr (new_events,
            filter (fun kv => mem_Z (snd kv) keys) event_id',
            selection', drop_log'))%exc.

(* ================================================================== *)
(** * Equalizing event counts ([_get_drop_indices], [_minimize_time_diff]) *)
(* ================================================================== *)

Definition Qltb (a b : Q) : bool := negb (Qle_bool b a).

Definition Qsum (l : list Q) : Q := fold_left Qplus l (0#1)%Q.

(** [scipy.interpolate.interp1d(arange(len(y)), y, fill_value=fill,
    bounds_error=False)] evaluated at the integer abscissa [x_new]: linear
    interpolation between the two neighbouring samples, [fill] to the right
    of the last sample. *)
Definition interp1d (y : list Q) (fill : Q) (x_new : nat) : Q :=
  if (x_new <? List.length y)%nat then
    let hi := Nat.max x_new 1 in
    let lo := (hi - 1)%nat in
    let y_lo := nth lo y (0#1)%Q in
    let y_hi := nth hi y (0#1)%Q in
    let slope := ((y_hi - y_lo) / inject_Z (Z.of_nat hi - Z.of_nat lo))%Q in
    (slope * inject_Z (Z.of_nat x_new - Z.of_nat lo) + y_lo)%Q
  else fill.

(** [t[mask]] for a boolean mask. *)
Definition masked {A} (t : list A) (mask : list bool) : list A :=
  map fst (filter snd (combine t mask)).

(** [mask[j] = False]. *)
Definition clear_at (mask : list bool) (j : nat) : list bool :=
  match update_nth mask j (fun _ => false) with
  | Some mask' => mask'
  | None => mask
  end.

(** The score of one candidate set of kept times:
    [abs(longer_interp(x1) - t_shorter).sum() + abs(shorter_interp(x2) - t_keep).sum()]. *)
Definition time_diff_score (t_shorter t_keep : list Q) : Q :=
  let x1 := seq 0 (List.length t_shorter) in
  let x2 := seq 0 (List.length t_keep) in
  let d1 := map (fun xt : nat * Q => (interp1d t_keep (last t_keep (0#1)%Q) (fst xt) - snd xt)%Q)
                (combine x1 t_shorter) in
  let d2 := map (fun xt : nat * Q => (interp1d t_shorter (last t_shorter (0#1)%Q) (fst xt) - snd xt)%Q)
                (combine x2 t_keep) in
  (Qsum (map Qabs d1) + Qsum (map Qabs d2))%Q.

(** [scores] after one pass: [inf] ([None]) for rows already removed. *)
Definition removal_scores (t_shorter t_longer : list Q) (keep : list bool)
  : list (option Q) :=
  map (fun jk : nat * bool =>
         if snd jk
         then Some (time_diff_score t_shorter (masked t_longer (clear_at keep (fst jk))))
         else None)
      (combine (seq 0 (List.length keep)) keep).

Definition score_ltb (a b : option Q) : bool :=
  match a, b with
  | Some x, Some y => Qltb x y
  | Some _, None => true
  | None, _ => false
  end.

(** [np.argmin]: the first position of the smallest score. *)
Fixpoint argmin_from (pos best_pos : nat) (best : option Q) (l : list (option Q)) : nat :=
  match l with
  | [] => best_pos
  | s :: t =>
      if score_ltb s best then argmin_from (S pos) pos s t
      else argmin_from (S pos) best_pos best t
  end.

Definition argmin (l : list (option Q)) : nat :=
  match l with
  | [] => 0%nat
  | s :: t => argmin_from 1 0 s t
  end.

(** The [for ii in range(len(t_longer) - len(t_shorter))] loop. *)
Fixpoint minimize_loop (n : nat) (t_shorter t_longer : list Q) (keep : list bool)
  : list bool :=
  match n with
  | O => keep
  | S n' =>
      let scores := removal_scores t_shorter t_longer keep in
      minimize_loop n' t_shorter t_longer (clear_at keep (argmin scores))
  end.

(** [_minimize_time_diff(t_shorter, t_longer)]: the mask of kept entries. *)
Definition _minimize_time_diff (t_shorter t_longer : list Q) : list bool :=
  match t_shorter with
  | [] => repeat false (List.length t_longer)
  | _ =>
      minimize_loop (List.length t_longer - List.length t_shorter)
                    t_shorter t_longer
                    (repeat true (List.length t_longer))
  end.

Inductive EqualizeMethod : Type := Mintime | Truncate.

(** [np.argmin] over the group sizes. *)
Fixpoint argmin_nat_from (pos best_pos best : nat) (l : list nat) : nat :=
  match l with
  | [] => best_pos
  | s :: t =>
      if (s <? best)%nat then argmin_nat_from (S pos) pos s t
      else argmin_nat_from (S pos) best_pos best t
  end.

(** [_get_drop_indices(event_times, method)]. *)
Definition _get_drop_indices (event_times : list (list Q)) (method : EqualizeMethod)
  : Exc (list (list nat)) :=
  match map (fun e : list Q => List.length e) event_times with
  | [] => inl (ValueError EmptySequence)
  | n0 :: sizes =>
      let small_idx := argmin_nat_from 1 0 n0 sizes in
      let small_e_times := nth small_idx event_times [] in
      inr (map (fun e =>
                  let mask :=
                    match method with
                    | Mintime => _minimize_time_diff small_e_times e
                    | Truncate =>
                        map (fun i => (i <? List.length small_e_times)%nat)
                            (seq 0 (List.length e))
                    end in
                  nonzero negb mask)
               event_times)
  end.

(* ================================================================== *)
(** * The epoch collection ([BaseEpochs]) *)
(* ================================================================== *)

(** One epoch: a [n_channels x n_times] array, as the list of its rows. *)
Definition Epoch : Type := list (list Q).

(** What the data source hands back for one epoch: samples, a reason string
    (e.g. an annotation that excludes the segment) or [None]. *)
Inductive RawEpoch : Type :=
| EpochData (e : Epoch)
| EpochReason (reason : string)
| EpochNone.

(** [slice(start, stop, step)] with non-negative bounds. *)
Record Slice : Type := mkSlice {
  sl_start : option nat;
  sl_stop : option nat;
  sl_step : option nat
}.

Definition slice_all : Slice := mkSlice None None None.

Definition apply_slice {A} (sl : Slice) (l : list A) : list A :=
  let n := List.length l in
  let start := match sl_start sl with Some i => i | None => 0%nat end in
  let stop := match sl_stop sl with Some i => Nat.min i n | None => n end in
  let step := match sl_step sl with Some k => k | None => 1%nat end in
  take_idx l
    (filter (fun i => (start <=? i)%nat && (i <? stop)%nat
                      && ((i - start) mod step =? 0)%nat)
            (seq 0 n)).

(** The part of the measurement info the collection reads. The channel
    groupings are computed by [mne.io.pick] from the channel records and are
    carried here as their results. *)
Record Info : Type := mkInfo {
  ch_names : list string;
  bads : list string;
  channel_indices_by_type : dict (list nat);   (* channel_indices_by_type(info) *)
  data_channels : list nat;                    (* _pick_data_channels(info, exclude=()) *)
  baseline_channels : list nat;                (* ... with_ref_meg=True, with_aux=True *)
  proj : bool                                  (* ProjMixin.proj: all projectors active *)
}.

Record Epochs : Type := mkEpochs {
  info : Info;
  events : list Event;
  event_id : dict Z;
  selection : list nat;
  drop_log : DropLog;
  metadata : option (list string);
  preload : bool;
  _data : option (list Epoch);
  times : list Q;
  _raw_times : list Q;
  reject : option (dict Q);
  flat : option (dict Q);
  reject_tmin : option Q;
  reject_tmax : option Q;
  _reject_time : option Slice;
  _channel_type_idx : dict (list nat);
  _bad_dropped : bool;
  detrend : option nat;
  baseline : option (Q * Q);
  _do_baseline : bool;
  _decim_slice : Slice;
  _offset : option Epoch;
  _do_delayed_proj : bool;
  _projector : option (list (list Q))
}.

(** Attribute assignments [self.x = v]. *)
Definition set_events (v : list Event) (s : Epochs) : Epochs :=
  let 'mkEpochs a1 _ a3 a4 a5 a6 a7 a8 a9 a10 a11 a12 a13 a14 a15 a16 a17 a18 a19 a20 a21 a22 a23 a24 := s in
  mkEpochs a1 v a3 a4 a5 a6 a7 a8 a9 a10 a11 a12 a13 a14 a15 a16 a17 a18 a19 a20 a21 a22 a23 a24.

Definition set_selection (v : list nat) (s : Epochs) : Epochs :=
  let 'mkEpochs a1 a2 a3 _ a5 a6 a7 a8 a9 a10 a11 a12 a13 a14 a15 a16 a17 a18 a19 a20 a21 a22 a23 a24 := s in
  mkEpochs a1 a2 a3 v a5 a6 a7 a8 a9 a10 a11 a12 a13 a14 a15 a16 a17 a18 a19 a20 a21 a22 a23 a24.

Definition set_drop_log (v : DropLog) (s : Epochs) : Epochs :=
  let 'mkEpochs a1 a2 a3 a4 _ a6 a7 a8 a9 a10 a11 a12 a13 a14 a15 a16 a17 a18 a19 a20 a21 a22 a23 a24 := s in
  mkEpochs a1 a2 a3 a4 v a6 a7 a8 a9 a10 a11 a12 a13 a14 a15 a16 a17 a18 a19 a20 a21 a22 a23 a24.

Definition set_metadata (v : option (list string)) (s : Epochs) : Epochs :=
  let 'mkEpochs a1 a2 a3 a4 a5 _ a7 a8 a9 a10 a11 a12 a13 a14 a15 a16 a17 a18 a19 a20 a21 a22 a23 a24 := s in
  mkEpochs a1 a2 a3 a4 a5 v a7 a8 a9 a10 a11 a12 a13 a14 a15 a16 a17 a18 a19 a20 a21 a22 a23 a24.

Definition set_preload (v : bool) (s : Epochs) : Epochs :=
  let 'mkEpochs a1 a2 a3 a4 a5 a6 _ a8 a9 a10 a11 a12 a13 a14 a15 a16 a17 a18 a19 a20 a21 a22 a23 a24 := s in
  mkEpochs a1 a2 a3 a4 a5 a6 v a8 a9 a10 a11 a12 a13 a14 a15 a16 a17 a18 a19 a20 a21 a22 a23 a24.

Definition set__data (v : option (list Epoch)) (s : Epochs) : Epochs :=
  let 'mkEpochs a1 a2 a3 a4 a5 a6 a7 _ a9 a10 a11 a12 a13 a14 a15 a16 a17 a18 a19 a20 a21 a22 a23 a24 := s in
  mkEpochs a1 a2 a3 a4 a5 a6 a7 v a9 a10 a11 a12 a13 a14 a15 a16 a17 a18 a19 a20 a21 a22 a23 a24.

Definition set__raw_times (v : list Q) (s : Epochs) : Epochs :=
  let 'mkEpochs a1 a2 a3 a4 a5 a6 a7 a8 a9 _ a11 a12 a13 a14 a15 a16 a17 a18 a19 a20 a21 a22 a23 a24 := s in
  mkEpochs a1 a2 a3 a4 a5 a6 a7 a8 a9 v a11 a12 a13 a14 a15 a16 a17 a18 a19 a20 a21 a22 a23 a24.

Definition set_reject (v : option (dict Q)) (s : Epochs) : Epochs :=
  let 'mkEpochs a1 a2 a3 a4 a5 a6 a7 a8 a9 a10 _ a12 a13 a14 a15 a16 a17 a18 a19 a20 a21 a22 a23 a24 := s in
  mkEpochs a1 a2 a3 a4 a5 a6 a7 a8 a9 a10 v a12 a13 a14 a15 a16 a17 a18 a19 a20 a21 a22 a23 a24.

Definition set_flat (v : option (dict Q)) (s : Epochs) : Epochs :=
  let 'mkEpochs a1 a2 a3 a4 a5 a6 a7 a8 a9 a10 a11 _ a13 a14 a15 a16 a17 a18 a19 a20 a21 a22 a23 a24 := s in
  mkEpochs a1 a2 a3 a4 a5 a6 a7 a8 a9 a10 a11 v a13 a14 a15 a16 a17 a18 a19 a20 a21 a22 a23 a24.

Definition set__reject_time (v : option Slice) (s : Epochs) : Epochs :=
  let 'mkEpochs a1 a2 a3 a4 a5 a6 a7 a8 a9 a10 a11 a12 a13 a14 _ a16 a17 a18 a19 a20 a21 a22 a23 a24 := s in
  mkEpochs a1 a2 a3 a4 a5 a6 a7 a8 a9 a10 a11 a12 a13 a14 v a16 a17 a18 a19 a20 a21 a22 a23 a24.

Definition set__channel_type_idx (v : dict (list nat)) (s : Epochs) : Epochs :=
  let 'mkEpochs a1 a2 a3 a4 a5 a6 a7 a8 a9 a10 a11 a12 a13 a14 a15 _ a17 a18 a19 a20 a21 a22 a23 a24 := s in
  mkEpochs a1 a2 a3 a4 a5 a6 a7 a8 a9 a10 a11 a12 a13 a14 a15 v a17 a18 a19 a20 a21 a22 a23 a24.

Definition set__bad_dropped (v : bool) (s : Epochs) : Epochs :=
  let 'mkEpochs a1 a2 a3 a4 a5 a6 a7 a8 a9 a10 a11 a12 a13 a14 a15 a16 _ a18 a19 a20 a21 a22 a23 a24 := s in
  mkEpochs a1 a2 a3 a4 a5 a6 a7 a8 a9 a10 a11 a12 a13 a14 a15 a16 v a18 a19 a20 a21 a22 a23 a24.

Definition set__do_baseline (v : bool) (s : Epochs) : Epochs :=
  let 'mkEpochs a1 a2 a3 a4 a5 a6 a7 a8 a9 a10 a11 a12 a13 a14 a15 a16 a17 a18 a19 _ a21 a22 a23 a24 := s in
  mkEpochs a1 a2 a3 a4 a5 a6 a7 a8 a9 a10 a11 a12 a13 a14 a15 a16 a17 a18 a19 v a21 a22 a23 a24.

Definition set__decim_slice (v : Slice) (s : Epochs) : Epochs :=
  let 'mkEpochs a1 a2 a3 a4 a5 a6 a7 a8 a9 a10 a11 a12 a13 a14 a15 a16 a17 a18 a19 a20 _ a22 a23 a24 := s in
  mkEpochs a1 a2 a3 a4 a5 a6 a7 a8 a9 a10 a11 a12 a13 a14 a15 a16 a17 a18 a19 a20 v a22 a23 a24.

(** Methods run in a state-and-exception monad over the collection: a call
    returns its result or the exception raised, and the object as the call
    left it. *)
Definition M (A : Type) : Type := Epochs -> Exc A * Epochs.

Definition ret {A} (a : A) : M A := fun self => (inr a, self).
Definition raise {A} (e : Exn) : M A := fun self => (inl e, self).
Definition bind {A B} (m : M A) (k : A -> M B) : M B :=
  fun self =>
    match m self with
    | (inl e, self') => (inl e, self')
    | (inr a, self') => k a self'
    end.
Definition get_self : M Epochs := fun self => (inr self, self).
Definition lift {A} (r : Exc A) : M A := fun self => (r, self).

Declare Scope method_scope.
Delimit Scope method_scope with method.
Notation "x <- m ;; k" := (bind m (fun x => k))
  (at level 100, m at next level, right associativity) : method_scope.
Notation "m ;;; k" := (bind m (fun _ => k))
  (at level 100, right associativity) : method_scope.

(** What the collection calls outside [epochs.py]: the subclass hook that
    fetches one epoch, the signal-processing routines of [mne.filter] and
    [mne.baseline], and the subtraction of doubles. *)
Class Collaborators : Type := {
  (** [self._get_epoch_from_raw(idx)], overridden by every subclass *)
  _get_epoch_from_raw : Epochs -> nat -> RawEpoch;
  (** [detrend(rows, order, axis=1)] *)
  filter_detrend : list (list Q) -> nat -> list (list Q);
  (** [rescale(epoch, times, baseline, picks=picks, copy=False)] *)
  rescale : Epoch -> list Q -> option (Q * Q) -> list nat -> Epoch;
  (** [self._keys_to_idx(keys)] of [GetEpochsMixin] *)
  _keys_to_idx : Epochs -> list string -> Exc (list nat);
  (** the hierarchical-tag block of [equalize_event_counts], which rewrites
      the requested names by reading [self[x]] through the mixin *)
  resolve_tags : Epochs -> list (list string) -> Exc (list (list string));
  (** [a - b] on doubles, as in [np.max(...) - np.min(...)]: the samples are
      doubles, carried as the rationals they denote, and their difference
      is rounded to a double *)
  float_sub : Q -> Q -> Q
}.

(* ------------------------------------------------------------------ *)
(** ** Rejection policy ([_is_good], [_is_good_epoch], [_reject_setup]) *)
(* ------------------------------------------------------------------ *)

(** [np.max(row)] and [np.min(row)] of a row that starts with [x]. *)
Definition Qmax_list (x : Q) (t : list Q) : Q := fold_left Qmax t x.

Definition Qmin_list (x : Q) (t : list Q) : Q := fold_left Qmin t x.

(** [np.max(row) - np.min(row)], the peak-to-peak amplitude of one channel;
    the reductions raise [ValueError] on a row without samples (an epoch
    cut down to an empty rejection window). *)
Definition peak_to_peak `{Collaborators} (row : list Q) : Exc Q :=
  match row with
  | [] => inl (ValueError EmptySequence)
  | x :: t => inr (float_sub (Qmax_list x t) (Qmin_list x t))
  end.

(** [np.max(e_idx, axis=1) - np.min(e_idx, axis=1)]. *)
Fixpoint peak_to_peak_rows `{Collaborators} (e_idx : list (list Q)) : Exc (list Q) :=
  match e_idx with
  | [] => inr []
  | row :: rest =>
      (d <- peak_to_peak row ;;
       ds <- peak_to_peak_rows rest ;;
       inr (d :: ds))%exc
  end.

(** One turn of [for key, thresh in refl.items()]: the names of the
    offending channels of type [key]. [channel_type_idx[key]] raises
    [KeyError] for a missing key, [e[idx]] and [checkable[idx]] raise
    [IndexError] for a channel that the epoch or [ch_names] does not have;
    [f] is [np.greater] for [reject] and [np.less] for [flat]. *)
Definition offending_of_key `{Collaborators} (e : Epoch) (names : list string)
           (channel_type_idx : dict (list nat)) (ignore_chs : list string)
           (f : Q -> Q -> bool) (key : string) (thresh : Q) : Exc (list string) :=
  match dict_get channel_type_idx key with
  | None => inl (KeyError key)
  | Some [] => inr []
  | Some idx =>
      (e_idx <- fancy_index e idx ;;
       deltas <- peak_to_peak_rows e_idx ;;
       idx_names <- fancy_index names idx ;;
       inr (map snd
                (filter (fun dn : Q * string =>
                           f (fst dn) thresh && negb (mem_str (snd dn) ignore_chs))
                        (combine deltas idx_names))))%exc
  end.

(** The offending channel names of one threshold dictionary, in the order
    of its keys. *)
Fixpoint offending_of_dict `{Collaborators} (e : Epoch) (names : list string)
         (channel_type_idx : dict (list nat)) (ignore_chs : list string)
         (f : Q -> Q -> bool) (d : dict Q) : Exc (list string) :=
  match d with
  | [] => inr []
  | (key, thresh) :: rest =>
      (bad <- offending_of_key e names channel_type_idx ignore_chs f key thresh ;;
       more <- offending_of_dict e names channel_type_idx ignore_chs f rest ;;
       inr (bad ++ more))%exc
  end.

Definition offending `{Collaborators} (e : Epoch) (names : list string)
           (channel_type_idx : dict (list nat)) (ignore_chs : list string)
           (f : Q -> Q -> bool) (refl : option (dict Q)) : Exc (list string) :=
  match refl with
  | None => inr []
  | Some d => offending_of_dict e names channel_type_idx ignore_chs f d
  end.

(** [_is_good(e, ch_names, channel_type_idx, reject, flat, full_report=True,
    ignore_chs)]: the verdict and, for a bad epoch, the offending names. *)
Definition _is_good `{Collaborators} (e : Epoch) (names : list string)
           (channel_type_idx : dict (list nat))
           (reject flat : option (dict Q)) (ignore_chs : list string)
  : Exc (bool * option (list string)) :=
  (bad_reject <- offending e names channel_type_idx ignore_chs
                           (fun d t => Qltb t d) reject ;;
   bad_flat <- offending e names channel_type_idx ignore_chs
                         (fun d t => Qltb d t) flat ;;
   match bad_reject ++ bad_flat with
   | [] => inr (true, None)
   | bad_tuple => inr (false, Some bad_tuple)
   end)%exc.

(** [data.shape[1]]. *)
Definition n_columns (e : Epoch) : nat :=
  match e with
  | [] => 0%nat
  | row :: _ => List.length row
  end.

(** [BaseEpochs._is_good_epoch(data)]. *)
Definition _is_good_epoch `{Collaborators} (self : Epochs) (data : RawEpoch)
  : Exc (bool * option (list string)) :=
  match data with
  | EpochReason reason => inr (false, Some [reason])
  | EpochNone => inr (false, Some ["NO_DATA"])
  | EpochData e =>
      if (n_columns e <? List.length (times self))%nat
      then inr (false, Some ["TOO_SHORT"])
      else
        match reject self, flat self with
        | None, None => inr (true, None)
        | _, _ =>
            let e' := match _reject_time self with
                      | Some sl => map (apply_slice sl) e
                      | None => e
                      end in
            _is_good e' (ch_names (info self)) (_channel_type_idx self)
                     (reject self) (flat self) (bads (info self))
        end
  end.

(** Threshold values with the defaults of [dict.get(key, np.inf)] and
    [dict.get(key, -np.inf)]: [None] stands for the infinite default. *)
Definition reject_gt (new old : option Q) : bool :=
  match new, old with
  | None, Some _ => true          (* inf > finite *)
  | Some n, Some o => Qltb o n
  | _, None => false              (* nothing exceeds inf *)
  end.

Definition flat_lt (new old : option Q) : bool :=
  match new, old with
  | None, Some _ => true          (* -inf < finite *)
  | Some n, Some o => Qltb n o
  | _, None => false              (* nothing is below -inf *)
  end.

(** [set(a.keys()).union(b.keys())], in a fixed order. *)
Definition union_keys (a b : dict Q) : list string :=
  dict_keys a ++ filter (fun k => negb (mem_str k (dict_keys a))) (dict_keys b).

Definition or_empty (d : option (dict Q)) : dict Q :=
  match d with
  | Some d => d
  | None => []
  end.

Definition none_if_empty (d : dict Q) : option (dict Q) :=
  match d with
  | [] => None
  | _ => Some d
  end.

(** The checks of [_reject_setup] that only read the request and the
    channel types: unknown keys, thresholds for absent channel types,
    negative values. *)
Definition check_thresholds (idx : dict (list nat)) (reject flat : dict Q)
  : option Exn :=
  if existsb (fun k => negb (mem_str k (dict_keys idx))) (dict_keys reject) then
    Some (KeyError "reject")
  else if existsb (fun k => negb (mem_str k (dict_keys idx))) (dict_keys flat) then
    Some (KeyError "flat")
  else
    match find (fun kv : string * list nat =>
                  (List.length (snd kv) =? 0)%nat
                  && (match dict_get reject (fst kv) with Some _ => true | None => false end
                      || match dict_get flat (fst kv) with
                         | Some v => Qle_bool (0#1) v
                         | None => false            (* the default -1 *)
                         end))
               idx with
    | Some (key, _) => Some (ValueError (NoChannelFound key))
    | None =>
        if existsb (fun kv : string * Q => Qltb (snd kv) (0#1)) reject then
          Some (ValueError (InvalidThreshold "Rejection"))
        else if existsb (fun kv : string * Q => Qltb (snd kv) (0#1)) flat then
          Some (ValueError (InvalidThreshold "Flat"))
        else None
    end.

(** The comparison with the thresholds already in place: the first key
    whose new value is less stringent than the old one. *)
Definition check_stringency (old_reject old_flat reject flat : dict Q)
  : option Exn :=
  match find (fun key => reject_gt (dict_get reject key) (dict_get old_reject key))
             (union_keys reject old_reject) with
  | Some key => Some (ValueError (NotAsStringent "reject" key))
  | None =>
      match find (fun key => flat_lt (dict_get flat key) (dict_get old_flat key))
                 (union_keys flat old_flat) with
      | Some key => Some (ValueError (NotAsStringent "flat" key))
      | None => None
      end
  end.

(** The sample window [slice(reject_imin, reject_imax)]; indexing the empty
    array of matching times is an [IndexError]. *)
Definition reject_window (times : list Q) (reject_tmin reject_tmax : option Q)
  : Exc (option Slice) :=
  match reject_tmin, reject_tmax with
  | None, None => inr None
  | _, _ =>
      (reject_imin <-
         match reject_tmin with
         | None => inr None
         | Some tmin =>
             match nonzero (fun t => Qle_bool tmin t) times with
             | [] => inl (IndexError 0)
             | i :: _ => inr (Some i)
             end
         end ;;
       reject_imax <-
         match reject_tmax with
         | None => inr None
         | Some tmax =>
             match rev (nonzero (fun t => Qle_bool t tmax) times) with
             | [] => inl (IndexError (-1))
             | i :: _ => inr (Some i)
             end
         end ;;
       inr (Some (mkSlice reject_imin reject_imax None)))%exc
  end.

(** [BaseEpochs._reject_setup(reject, flat)]. Nothing is assigned before
    the validation is over. *)
Definition _reject_setup (new_reject new_flat : option (dict Q)) : M unit :=
  fun self =>
    let idx := channel_indices_by_type (info self) in
    let new_reject := or_empty new_reject in
    let new_flat := or_empty new_flat in
    match check_thresholds idx new_reject new_flat with
    | Some e => (inl e, self)
    | None =>
        match check_stringency (or_empty (reject self)) (or_empty (flat self))
                               new_reject new_flat with
        | Some e => (inl e, self)
        | None =>
            let self1 :=
              set_flat (none_if_empty new_flat)
                (set_reject (none_if_empty new_reject)
                   (set__channel_type_idx idx
                      (set__bad_dropped false self))) in
            match reject_window (times self1) (reject_tmin self1) (reject_tmax self1) with
            | inl e => (inl e, self1)
            | inr w => (inr tt, set__reject_time w self1)
            end
        end
    end.

(* ------------------------------------------------------------------ *)
(** ** Per-epoch transforms ([_detrend_offset_decim], [_project_epoch]) *)
(* ------------------------------------------------------------------ *)

(** [epoch[picks] = rows]. *)
Fixpoint set_rows (epoch : Epoch) (picks : list nat) (rows : list (list Q)) : Epoch :=
  match picks, rows with
  | p :: picks', r :: rows' =>
      set_rows (match update_nth epoch p (fun _ => r) with
                | Some epoch' => epoch'
                | None => epoch
                end) picks' rows'
  | _, _ => epoch
  end.

(** [a + b] on arrays of one shape. *)
Definition epoch_add (a b : Epoch) : Epoch :=
  map (fun rows : list Q * list Q =>
         map (fun xy : Q * Q => (fst xy + snd xy)%Q) (combine (fst rows) (snd rows)))
      (combine a b).

(** [np.dot(projector, epoch)]. *)
Definition np_dot (projector : list (list Q)) (epoch : Epoch) : Epoch :=
  map (fun prow =>
         map (fun j =>
                Qsum (map (fun pe : Q * list Q => (fst pe * nth j (snd pe) (0#1))%Q)
                          (combine prow epoch)))
             (seq 0 (n_columns epoch)))
      projector.

(** [BaseEpochs._detrend_picks]. *)
Definition _detrend_picks (self : Epochs) : list nat :=
  if _do_baseline self then baseline_channels (info self) else [].

(** [BaseEpochs._detrend_offset_decim(epoch, picks)]. *)
Definition _detrend_offset_decim `{Collaborators} (self : Epochs)
           (epoch : RawEpoch) (picks : list nat) : RawEpoch :=
  match epoch with
  | EpochNone | EpochReason _ => epoch
  | EpochData e =>
      let e1 :=
        match detrend self with
        | Some order =>
            let use_picks := data_channels (info self) in
            set_rows e use_picks (filter_detrend (take_idx e use_picks) order)
        | None => e
        end in
      let e2 :=
        if _do_baseline self
        then rescale e1 (_raw_times self) (baseline self) picks
        else e1 in
      let e3 := map (apply_slice (_decim_slice self)) e2 in
      let e4 :=
        match _offset self with
        | Some offset => epoch_add e3 offset
        | None => e3
        end in
      EpochData e4
  end.

(** [BaseEpochs._project_epoch(epoch)]. *)
Definition _project_epoch (self : Epochs) (epoch : RawEpoch) : RawEpoch :=
  match epoch with
  | EpochNone | EpochReason _ => epoch
  | EpochData e =>
      let proj := _do_delayed_proj self || proj (info self) in
      match _projector self with
      | Some projector => if proj then EpochData (np_dot projector e) else epoch
      | None => epoch
      end
  end.

(* ------------------------------------------------------------------ *)
(** ** Selecting epochs ([_getitem]) *)
(* ------------------------------------------------------------------ *)

(** [for k in idxs: drop_log[k] = (reason,)]. *)
Fixpoint mark_dropped (drop_log : DropLog) (idxs : list nat) (reason : string)
  : Exc DropLog :=
  match idxs with
  | [] => inr drop_log
  | k :: rest =>
      match update_nth drop_log k (fun _ => [reason]) with
      | None => inl (IndexError (Z.of_nat k))
      | Some drop_log' => mark_dropped drop_log' rest reason
      end
  end.

(** Modelled from the spec: [GetEpochsMixin._getitem] lives in
    [mne/utils/mixin.py], outside the sources at hand. The calls made here
    are [_getitem(item, reason, copy=False, drop_event_id=False,
    select_data=...)] with an array of positions. Following the data model,
    the retained events and their [selection] entries are the rows at the
    requested positions, the metadata rows follow in lock-step, the data
    rows too when the data are held in memory and [select_data] is set, and
    every original index that leaves [selection] gets the reason as its
    drop-log entry when a reason is given. *)
Definition _getitem (item : list nat) (reason : option string)
           (select_data : bool) : M unit :=
  fun self =>
    let key_selection := take_idx (selection self) item in
    match
      match reason with
      | Some r => mark_dropped (drop_log self)
                               (setdiff1d (selection self) key_selection) r
      | None => inr (drop_log self)
      end
    with
    | inl e => (inl e, self)
    | inr drop_log' =>
        let self1 := set_selection key_selection (set_drop_log drop_log' self) in
        let self2 := set_events (take_idx (events self1) item) self1 in
        let self3 :=
          set_metadata (option_map (fun rows => take_idx rows item) (metadata self2))
                       self2 in
        let self4 :=
          if preload self3 && select_data
          then set__data (option_map (fun d => take_idx d item) (_data self3)) self3
          else self3 in
        (inr tt, self4)
    end.

(* ------------------------------------------------------------------ *)
(** ** Materialization ([_get_data]) *)
(* ------------------------------------------------------------------ *)

(** [data[:, picks]] when [picks] is given. *)
Definition apply_picks (picks : option (list nat)) (data : list Epoch) : list Epoch :=
  match picks with
  | None => data
  | Some p => map (fun e => take_idx e p) data
  end.

(** The first half of the body of the rejection loop: the epoch that is
    tested ([epoch]) and the epoch that is stored ([epoch_out]). *)
Definition rejection_candidates `{Collaborators} (self : Epochs) (idx : nat)
  : Exc (RawEpoch * RawEpoch) :=
  if preload self then
    match _data self with
    | None => inl (TypeError "'NoneType' object is not subscriptable")
    | Some d =>
        match nth_error d idx with
        | None => inl (IndexError (Z.of_nat idx))
        | Some row =>
            if _do_delayed_proj self then
              let epoch_noproj := EpochData row in
              let epoch := _project_epoch self epoch_noproj in
              inr (epoch, epoch_noproj)
            else
              let epoch := EpochData row in
              inr (epoch, epoch)
        end
    end
  else
    let epoch_noproj := _get_epoch_from_raw self idx in
    let epoch_noproj := _detrend_offset_decim self epoch_noproj (_detrend_picks self) in
    let epoch := _project_epoch self epoch_noproj in
    let epoch_out := if _do_delayed_proj self then epoch_noproj else epoch in
    inr (epoch, epoch_out).

(** Loop variables of the rejection pass. *)
Record PassState : Type := mkPassState {
  ps_good_idx : list nat;
  ps_drop_log : DropLog;
  ps_data : list Epoch
}.

(** One turn of [for idx, sel in enumerate(self.selection)]. *)
Definition rejection_step `{Collaborators} (self : Epochs) (out : bool)
           (st : PassState) (idx sel : nat) : Exc PassState :=
  ('(epoch, epoch_out) <- rejection_candidates self idx ;;
   verdict <- _is_good_epoch self epoch ;;
   match verdict with
   | (false, None) => inl AssertionError
   | (false, Some bad_tuple) =>
       match update_nth (ps_drop_log st) sel (fun old => old ++ bad_tuple) with
       | None => inl (IndexError (Z.of_nat sel))
       | Some drop_log' =>
           inr (mkPassState (ps_good_idx st) drop_log' (ps_data st))
       end
   | (true, _) =>
       if out || preload self then
         match epoch_out with
         | EpochData e =>
             inr (mkPassState (ps_good_idx st ++ [idx]) (ps_drop_log st)
                              (ps_data st ++ [e]))
         | _ => inl AttributeError
         end
       else
         inr (mkPassState (ps_good_idx st ++ [idx]) (ps_drop_log st) (ps_data st))
   end)%exc.

Fixpoint rejection_loop `{Collaborators} (self : Epochs) (out : bool)
         (st : PassState) (idx : nat) (sels : list nat) : Exc PassState :=
  match sels with
  | [] => inr st
  | sel :: rest =>
      match rejection_step self out st idx sel with
      | inl e => inl e
      | inr st' => rejection_loop self out st' (S idx) rest
      end
  end.

(** The loop of the branch that reloads a collection whose bad epochs are
    already dropped. *)
Fixpoint reload_loop `{Collaborators} (self : Epochs) (use_idx : list nat)
  : Exc (list Epoch) :=
  match use_idx with
  | [] => inr []
  | idx :: rest =>
      let epoch_noproj := _get_epoch_from_raw self idx in
      let epoch_noproj := _detrend_offset_decim self epoch_noproj (_detrend_picks self) in
      let epoch_out :=
        if _do_delayed_proj self then epoch_noproj
        else _project_epoch self epoch_noproj in
      match epoch_out with
      | EpochData e =>
          match reload_loop self rest with
          | inl err => inl err
          | inr data => inr (e :: data)
          end
      | _ => inl AttributeError
      end
  end.

(** [BaseEpochs._get_data(out, picks, item)]; [item] is [None] or an array
    of positions. *)
Definition _get_data `{Collaborators} (out : bool) (picks : option (list nat))
           (item : option (list nat)) : M (option (list Epoch)) :=
  fun self =>
    match item, _bad_dropped self with
    | Some _, false => (inl (ValueError ItemMustBeNone), self)
    | _, _ =>
        let all_idx := seq 0 (List.length (events self)) in
        let index {A} (a : list A) : Exc (list A) :=
          match item with
          | None => inr a
          | Some select => fancy_index a select
          end in
        match index all_idx with
        | inl e => (inl e, self)
        | inr use_idx =>
            let n_events := List.length use_idx in
            if _bad_dropped self then
              if negb out then (inr None, self)
              else if preload self then
                match _data self with
                | None => (inl (TypeError "'NoneType' object is not subscriptable"), self)
                | Some data =>
                    match index data with
                    | inl e => (inl e, self)
                    | inr data' => (inr (Some (apply_picks picks data')), self)
                    end
                end
              else
                match reload_loop self use_idx with
                | inl e => (inl e, self)
                | inr data => (inr (Some (apply_picks picks data)), self)
                end
            else
              if negb (n_events =? List.length (selection self))%nat then
                (inl AssertionError, self)
              else
                match rejection_loop self out (mkPassState [] (drop_log self) [])
                                     0 (selection self) with
                | inl e => (inl e, self)
                | inr st =>
                    let self1 := set__bad_dropped true (set_drop_log (ps_drop_log st) self) in
                    let self2 :=
                      if preload self1 then set__data (Some (ps_data st)) self1 else self1 in
                    match _getitem (ps_good_idx st) None false self2 with
                    | (inl e, self3) => (inl e, self3)
                    | (inr _, self3) =>
                        if out then (inr (Some (apply_picks picks (ps_data st))), self3)
                        else (inr None, self3)
                    end
                end
        end
    end.

(** [BaseEpochs.get_data(picks, item)]. *)
Definition get_data `{Collaborators} (picks : option (list nat))
           (item : option (list nat)) : M (option (list Epoch)) :=
  _get_data true picks item.

(** [BaseEpochs.load_data()]. *)
Definition load_data `{Collaborators} : M unit :=
  fun self =>
    if preload self then (inr tt, self)
    else
      match _get_data true None None self with
      | (inl e, self1) => (inl e, self1)
      | (inr data, self1) =>
          let self2 := set__data data self1 in
          let self3 := set_preload true self2 in
          let self4 := set__do_baseline false self3 in
          let self5 := set__decim_slice slice_all self4 in
          let self6 := set__raw_times (times self5) self5 in
          (inr tt, self6)
      end.

(** The [reject] and [flat] arguments of [drop_bad]: the string
    ['existing'], or a dictionary or [None]. *)
Inductive RejectArg : Type :=
| Existing
| Given (d : option (dict Q)).

(** [BaseEpochs.drop_bad(reject, flat)]. *)
Definition drop_bad `{Collaborators} (reject_arg flat_arg : RejectArg) : M unit :=
  fun self =>
    let early :=
      match reject_arg, flat_arg with
      | Existing, Existing => _bad_dropped self
      | _, _ => false
      end in
    if early then (inr tt, self)
    else
      let new_reject := match reject_arg with
                        | Existing => reject self
                        | Given d => d
                        end in
      let new_flat := match flat_arg with
                      | Existing => flat self
                      | Given d => d
                      end in
      (_reject_setup new_reject new_flat ;;;
       _ <- _get_data false None None ;;
       ret tt)%method self.

(** The [indices] argument of [drop]: integers or a boolean mask. *)
Inductive Indices : Type :=
| IntIndices (l : list Z)
| BoolMask (m : list bool).

(** The integer entries of [indices]; a boolean mask stands for
    [np.where(mask)[0]]. *)
Definition index_list (indices : Indices) : list Z :=
  match indices with
  | IntIndices l => l
  | BoolMask m => map Z.of_nat (nonzero (fun b : bool => b) m)
  end.

(** [BaseEpochs.drop(indices, reason)]. *)
Definition drop (indices : Indices) (reason : string) : M unit :=
  fun self =>
    let indices := index_list indices in
    let n := Z.of_nat (List.length (events self)) in
    let try_idx := map (fun i => if i <? 0 then i + n else i) indices in
    let out_of_bounds := fun i : Z =>
      let t := if i <? 0 then i + n else i in (t <? 0) || (n <=? t) in
    match filter out_of_bounds indices with
    | first :: _ => (inl (IndexError first), self)
    | [] =>
        let keep := setdiff1d (seq 0 (List.length (events self)))
                              (map Z.to_nat try_idx) in
        _getitem keep (Some reason) true self
    end.

(** [BaseEpochs.equalize_event_counts(event_ids, method)]; a name stands
    for the one-element list of names. *)
Definition equalize_event_counts `{Collaborators} (event_ids : list (list string))
           (method : EqualizeMethod) : M (list Z) :=
  match event_ids with
  | [] => raise (ValueError NoEventIds)
  | _ =>
      (self0 <- get_self ;;
       (if _bad_dropped self0 then ret tt else drop_bad Existing Existing) ;;;
       self <- get_self ;;
       event_ids' <-
         (if existsb (str_contains "/") (dict_keys (event_id self))
          then lift (resolve_tags self event_ids)
          else ret event_ids) ;;
       eq_inds <- lift (fold_right
                          (fun eq acc =>
                             (rest <- acc ;;
                              e <- _keys_to_idx self eq ;;
                              inr (e :: rest))%exc)
                          (inr []) event_ids') ;;
       let event_times :=
         map (fun e => map (fun ev => inject_Z (ev_sample ev)) (take_idx (events self) e))
             eq_inds in
       indices <- lift (_get_drop_indices event_times method) ;;
       let indices :=
         flat_map (fun ei : list nat * list nat =>
                     map Z.of_nat (take_idx (fst ei) (snd ei)))
                  (combine eq_inds indices) in
       drop (IntIndices indices) "EQUALIZED_COUNT" ;;;
       ret indices)%method
  end.

(* ------------------------------------------------------------------ *)
(** ** Construction ([BaseEpochs.__init__], [_check_consistency]) *)
(* ------------------------------------------------------------------ *)

(** [INT32_MAX] of [mne.io.write]. *)
Definition INT32_MAX : Z := 2147483647.

Definition is_empty_entry (dl : list string) : bool :=
  match dl with
  | [] => true
  | _ => false
  end.

(** [sum(len(dl) == 0 for dl in drop_log)]. *)
Definition count_empty (drop_log : DropLog) : nat :=
  List.length (filter is_empty_entry drop_log).

(** The arithmetic assertions of [BaseEpochs._check_consistency] (the
    remaining ones are about the Python types of the attributes). *)
Definition _check_consistency (self : Epochs) : bool :=
  (List.length (selection self) =? List.length (events self))%nat
  && (List.length (events self) <=? List.length (drop_log self))%nat
  && (List.length (selection self) =? count_empty (drop_log self))%nat.

Inductive OnMissing : Type := OM_raise | OM_warn | OM_ignore.

(** The event-table block of [__init__]: the events matching [event_id]
    are retained, [selection] and [drop_log] are set up from the arguments
    or generated, repeated events are handled, and an empty result is an
    error. Returns [(events, event_id, selection, drop_log, metadata)]. *)
Definition init_event_table (events : list Event) (event_id : dict Z)
           (on_missing : OnMissing) (selection : option (list nat))
           (drop_log : option DropLog) (metadata : option (list string))
           (event_repeated : EventRepeated)
  : Exc (list Event * dict Z * list nat * DropLog * option (list string)) :=
  let all_values := flat_map (fun e => [ev_sample e; ev_prior e; ev_code e]) events in
  match all_values with
  | [] => inl (ValueError EmptySequence)
  | v0 :: vs =>
      let events_max := fold_left Z.max vs v0 in
      if events_max >? INT32_MAX then inl (ValueError (EventsExceedInt32 events_max))
      else
        match
          match on_missing with
          | OM_raise =>
              find (fun kv : string * Z => negb (mem_Z (snd kv) (map ev_code events)))
                   event_id
          | _ => None
          end
        with
        | Some (key, _) => inl (ValueError (NoMatchingEvents key))
        | None =>
            let values := dict_values event_id in
            let selected := nonzero (fun e => mem_Z (ev_code e) values) events in
            let selection0 := match selection with
                              | None => selected
                              | Some sel => sel
                              end in
            if negb (List.length selection0 =? List.length selected)%nat then
              inl (ValueError SelectionShape)
            else
              (drop_log0 <-
                 match drop_log with
                 | Some dl => inr dl
                 | None =>
                     match selection0 with
                     | [] => inl (ValueError EmptySequence)
                     | s0 :: ss =>
                         let n := Nat.max (List.length events)
                                          (fold_left Nat.max ss s0 + 1) in
                         inr (map (fun k => if mem_nat k selection0
                                            then [] else ["IGNORED"])
                                  (seq 0 n))
                     end
                 end ;;
               let events1 := take_idx events selected in
               r <- _handle_event_repeated events1 event_id event_repeated
                                           selection0 drop_log0 ;;
               let '(events2, event_id2, selection2, drop_log2) := r in
               let sub := nonzero (fun s => mem_nat s selection2) selection0 in
               metadata2 <-
                 match metadata with
                 | None => inr None
                 | Some rows =>
                     match fancy_index rows sub with
                     | inl e => inl e
                     | inr rows' => inr (Some rows')
                     end
                 end ;;
               if (0 <? List.length events2)%nat then
                 inr (events2, event_id2, selection2, drop_log2, metadata2)
               else inl (ValueError NoDesiredEvents))%exc
        end
  end.

(** The [proj] argument. *)
Inductive ProjArg : Type := ProjTrue | ProjDelayed | ProjFalse.

(** Python's [round] on a rational: the nearest integer, ties to even. *)
Definition py_round (q : Q) : Z :=
  let f := Qfloor q in
  match Qcompare (q - inject_Z f) (1 # 2) with
  | Lt => f
  | Gt => f + 1
  | Eq => if Z.even f then f else f + 1
  end.

(** [np.isclose(a, b)] with the default tolerances. *)
Definition np_isclose (a b : Q) : bool :=
  Qle_bool (Qabs (a - b)) ((1 # 100000000) + (1 # 100000) * Qabs b).

(** [np.arange(start, stop) / sfreq]. *)
Definition time_axis (start stop : Z) (sfreq : Q) : list Q :=
  map (fun i => (inject_Z (start + Z.of_nat i) / sfreq)%Q)
      (seq 0 (Z.to_nat (stop - start))).

(** The checks of [reject_tmin] and [reject_tmax] against the epoch
    interval; [self_tmin] and [self_tmax] are the ends of the time axis. *)
Definition check_reject_interval (tmin tmax self_tmin self_tmax : Q)
           (reject_tmin reject_tmax : option Q) : Exc (option Q * option Q) :=
  (rt_min <-
     match reject_tmin with
     | None => inr None
     | Some r =>
         if np_isclose r tmin then inr (Some self_tmin)
         else if Qltb r tmin then inl (ValueError RejectTminBeforeTmin)
         else inr (Some r)
     end ;;
   rt_max <-
     match reject_tmax with
     | None => inr None
     | Some r =>
         if np_isclose r tmax then inr (Some self_tmax)
         else if Qltb tmax r then inl (ValueError RejectTmaxAfterTmax)
         else inr (Some r)
     end ;;
   match rt_min, rt_max with
   | Some lo, Some hi =>
       if Qle_bool hi lo then inl (ValueError RejectIntervalEmpty)
       else inr (rt_min, rt_max)
   | _, _ => inr (rt_min, rt_max)
   end)%exc.

(** The slice set by [decimate(decim)] when [__init__] calls it on the new
    object (offset 0, no earlier decimation); [decim] has passed
    [_check_decim]. *)
Definition initial_decim_slice (raw_times : list Q) (sfreq : Q) (decim : nat)
           (preload : bool) : Slice :=
  let start_idx := py_round (- hd (0 # 1) raw_times * (sfreq * (1 # 1)))%Q in
  let i_start := start_idx mod Z.of_nat decim in
  if preload then slice_all
  else mkSlice (Some (Z.to_nat i_start)) None (Some decim).

(** The arguments of [__init__]. The baseline interval, the channel
    selection and the projector are computed through [_check_baseline],
    [_picks_to_idx] / [pick_info] and [setup_proj], which validate their
    own inputs outside this file; they appear here as their results
    ([arg_info] is the picked info, [arg_projector] the projector of its
    projection items). [decim] is the factor as returned by [_check_decim]. *)
Record InitArgs : Type := mkInitArgs {
  arg_info : Info;
  arg_data : option (list Epoch);
  arg_events : list Event;
  arg_event_id : dict Z;
  arg_tmin : Q;
  arg_tmax : Q;
  arg_sfreq : Q;
  arg_decim : nat;
  arg_baseline : option (Q * Q);
  arg_reject : option (dict Q);
  arg_flat : option (dict Q);
  arg_reject_tmin : option Q;
  arg_reject_tmax : option Q;
  arg_detrend : option nat;
  arg_proj : ProjArg;
  arg_projector : option (list (list Q));
  arg_on_missing : OnMissing;
  arg_preload_at_end : bool;
  arg_selection : option (list nat);
  arg_drop_log : option DropLog;
  arg_metadata : option (list string);
  arg_event_repeated : EventRepeated
}.

(** The checks on a data array handed to [__init__]: no decimation, the
    right number of samples, one epoch per retained event. *)
Definition check_data (a : InitArgs) (n_events : nat) : option Exn :=
  match arg_data a with
  | None => None
  | Some d =>
      if negb (arg_decim a =? 1)%nat then Some AssertionError
      else
        let n_times := py_round ((arg_tmax a - arg_tmin a) * arg_sfreq a)%Q + 1 in
        if existsb (fun e => negb (Z.of_nat (n_columns e) =? n_times)) d then
          Some (RuntimeError "bad data shape")
        else if negb (List.length d =? n_events)%nat then
          Some (ValueError EpochsEventsMismatch)
        else None
  end.

(** [BaseEpochs.__init__]. *)
Definition __init__ `{Collaborators} (a : InitArgs) : Exc Epochs :=
  (t <- init_event_table (arg_events a) (arg_event_id a) (arg_on_missing a)
                         (arg_selection a) (arg_drop_log a) (arg_metadata a)
                         (arg_event_repeated a) ;;
   let '(events, event_id, selection, drop_log, metadata) := t in
   if match arg_detrend a with
      | None | Some 0%nat | Some 1%nat => false
      | _ => true
      end
   then inl (ValueError DetrendInvalid)
   else
     match check_data a (List.length events) with
     | Some e => inl e
     | None =>
         if Qltb (arg_tmax a) (arg_tmin a) then inl (ValueError TminAfterTmax)
         else
           let sfreq := arg_sfreq a in
           let start_idx := py_round (arg_tmin a * sfreq)%Q in
           let raw_times :=
             time_axis start_idx (py_round (arg_tmax a * sfreq)%Q + 1) sfreq in
           w <- check_reject_interval (arg_tmin a) (arg_tmax a)
                                      (hd (0 # 1)%Q raw_times)
                                      (last raw_times (0 # 1)%Q)
                                      (arg_reject_tmin a) (arg_reject_tmax a) ;;
           if (arg_decim a =? 0)%nat then inl (ValueError DecimInvalid)
           else
             let has_data := match arg_data a with Some _ => true | None => false end in
             let decim_slice :=
               initial_decim_slice raw_times sfreq (arg_decim a) has_data in
             let self0 :=
               {| info := arg_info a;
                  events := events;
                  event_id := event_id;
                  selection := selection;
                  drop_log := drop_log;
                  metadata := metadata;
                  preload := has_data;
                  _data := arg_data a;
                  times := apply_slice decim_slice raw_times;
                  _raw_times := raw_times;
                  reject := None;
                  flat := None;
                  reject_tmin := fst w;
                  reject_tmax := snd w;
                  _reject_time := None;
                  _channel_type_idx := [];
                  _bad_dropped := false;
                  detrend := arg_detrend a;
                  baseline := arg_baseline a;
                  _do_baseline := negb has_data;
                  _decim_slice := decim_slice;
                  _offset := None;
                  _do_delayed_proj :=
                    match arg_proj a with ProjDelayed => true | _ => false end;
                  _projector := arg_projector a |} in
             match _reject_setup (arg_reject a) (arg_flat a) self0 with
             | (inl e, _) => inl e
             | (inr _, self1) =>
                 self2 <-
                   (if arg_preload_at_end a then
                      match arg_data a with
                      | Some _ => inl AssertionError
                      | None =>
                          match load_data self1 with
                          | (inl e, _) => inl e
                          | (inr _, self2) => inr self2
                          end
                      end
                    else
                      match arg_proj a, _projector self1, _data self1 with
                      | ProjTrue, Some projector, Some data =>
                          inr (set__data (Some (map (np_dot projector) data)) self1)
                      | _, _, _ => inr self1
                      end) ;;
                 if _check_consistency self2 then inr self2 else inl AssertionError
             end
     end)%exc.

(** [BaseEpochs.reset_drop_log_selection()]. *)
Definition reset_drop_log_selection : M unit :=
  fun self =>
    let n := List.length (events self) in
    let self1 := set_drop_log (repeat [] n) (set_selection (seq 0 n) self) in
    if _check_consistency self1 then (inr tt, self1) else (inl AssertionError, self1).

(* ================================================================== *)
(** * Planning the output files of [save] *)
(* ================================================================== *)

Inductive Fmt : Type := Single | Double.

(** The sizes [save] reads off the collection once the bad epochs are
    dropped. *)
Record SaveSizes : Type := mkSaveSizes {
  n_epochs : nat;                 (* len(self) *)
  epoch_nbytes : Z;               (* self[0].get_data().nbytes *)
  info_size : Z;                  (* object_size(self.info) + 16 * len(self.info) *)
  event_id_len : Z;               (* len(_event_id_string(self.event_id)) *)
  metadata_len : option Z;        (* len(_prepare_write_metadata(self.metadata)) *)
  has_baseline : bool;            (* self.baseline is not None *)
  drop_log_json_len : Z;          (* len(json.dumps(self.drop_log)) *)
  reject_params_json_len : option Z   (* len(json.dumps(reject_params)), if any *)
}.

(** [total_size]: the bytes that are divided among the parts. *)
Definition total_size (fmt : Fmt) (sz : SaveSizes) : Z :=
  let n := Z.of_nat (n_epochs sz) in
  let t0 := if (n_epochs sz =? 0)%nat then 0 else epoch_nbytes sz * n in
  let t1 := match fmt with Single => t0 / 2 | Double => t0 end in
  let t2 := t1 + (n * 3) * 4 in                     (* self.events.size * 4 *)
  let t3 := match metadata_len sz with Some m => t2 + m | None => t2 end in
  t3 + n * 4.                                       (* self.selection.size * 4 *)

(** [over_size]: the bytes written to every part; [next_file_buffer] is
    [_NEXT_FILE_BUFFER] of [mne.io.write]. *)
Definition over_size (next_file_buffer : Z) (sz : SaveSizes) : Z :=
  let n := Z.of_nat (n_epochs sz) in
  let drop_size := drop_log_json_len sz + 16 + 8 * (n - 1) in
  32 + 132 + info_size sz
  + (event_id_len sz + 72)
  + 56
  + (40 * (if has_baseline sz then 1 else 0) + 40)
  + drop_size
  + match reject_params_json_len sz with Some r => r + 16 | None => 0 end
  + 16
  + next_file_buffer.

(** [np.array_split(a, n_parts)]: the first [len(a) % n_parts] groups get
    one element more than the others. *)
Fixpoint split_sizes {A} (a : list A) (sizes : list nat) : list (list A) :=
  match sizes with
  | [] => []
  | k :: rest => firstn k a :: split_sizes (skipn k a) rest
  end.

Definition array_split {A} (a : list A) (n_parts : nat) : list (list A) :=
  let each := (List.length a / n_parts)%nat in
  let extras := (List.length a mod n_parts)%nat in
  split_sizes a (repeat (S each) extras ++ repeat each (n_parts - extras)).

(** One output file: its name, the epochs it holds and the reference to the
    next part, if any. *)
Record Part : Type := mkPart {
  part_fname : string;
  part_epochs : list nat;
  part_next : option (string * nat)     (* (next_fname, next_idx) *)
}.

(** Position of the first ['.'] in [base] ([str.find], with every name
    accepted by [check_fname] containing one). *)
Fixpoint str_find_dot (s : string) : nat :=
  match s with
  | EmptyString => 0%nat
  | String c rest => if Ascii.eqb c "." then 0%nat else S (str_find_dot rest)
  end.

(** ['%s-%d.%s' % (base[:idx], part_idx, base[idx + 1:])]. *)
Definition numbered_name (base : string) (part_idx : nat) : string :=
  let idx := str_find_dot base in
  (substring 0 idx base ++ "-" ++ str_of_nat part_idx ++ "."
   ++ substring (S idx) (String.length base - S idx) base)%string.

(** [_save_split(epochs, fname, part_idx, n_parts, fmt)], with [base] the
    second component of [os.path.split(fname)] and [join] for
    [os.path.join(path, .)]: the name of the part and, as written by
    [_save_part], the reference to the next file. *)
Definition _save_split (join : string -> string) (fname base : string)
           (epoch_idx : list nat) (part_idx n_parts : nat) : Part :=
  let fname :=
    if (0 <? part_idx)%nat then join (numbered_name base part_idx) else fname in
  let next :=
    if (part_idx <? n_parts - 1)%nat
    then Some (join (numbered_name base (part_idx + 1)), (part_idx + 1)%nat)
    else None in
  mkPart fname epoch_idx
         (match next with
          | Some nf => if (1 <? n_parts)%nat then Some nf else None
          | None => None
          end).

(** The size checks and the partition of [BaseEpochs.save]. *)
Definition save_plan (next_file_buffer : Z) (join : string -> string)
           (fname base : string) (split_size_bytes : Z) (fmt : Fmt) (sz : SaveSizes)
  : Exc (list Part) :=
  let total := total_size fmt sz in
  let over := over_size next_file_buffer sz in
  let n := Z.of_nat (n_epochs sz) in
  let n_per := if (n_epochs sz =? 0)%nat then 0 else total / n in
  let min_size := n_per + over in
  if split_size_bytes <? min_size then inl (ValueError (SplitTooSmall min_size))
  else if split_size_bytes - over =? 0 then inl ZeroDivisionError
  else
    let n_parts := Z.max ((total - 1) / (split_size_bytes - over) + 1) 1 in
    if 100 <? n_parts then inl (ValueError (TooManyFiles n_parts))
    else
      let epoch_idxs := array_split (seq 0 (n_epochs sz)) (Z.to_nat n_parts) in
      inr (map (fun ie : nat * list nat =>
                  _save_split join fname base (snd ie) (fst ie) (Z.to_nat n_parts))
               (combine (seq 0 (List.length epoch_idxs)) epoch_idxs)).

(* ================================================================== *)
(** * Module-level functions and subclass constructors *)
(* ================================================================== *)

(** Exceptions of the functions below: those of the methods they call, and
    the [ValueError]s they raise themselves, kept with their message. *)
Inductive FunExn : Type :=
| MethodExn (e : Exn)
| ValueErrorText (msg : string).

Definition FunExc (A : Type) : Type := (FunExn + A)%type.

(* ------------------------------------------------------------------ *)
(** ** Drop-log statistics ([_drop_log_stats], [drop_log_stats]) *)
(* ------------------------------------------------------------------ *)

(** [any(r in ignore for r in d)]. *)
Definition has_ignored (ignore : list string) (d : list string) : bool :=
  existsb (fun r => mem_str r ignore) d.

(** [_drop_log_stats(drop_log, ignore)]: [100 * np.mean(...)] over the
    entries without an ignored reason, [None] standing for the [nan] that
    [np.mean] gives on an empty list. The check that the argument is a
    tuple of tuples of strings is carried by the type [DropLog]. *)
Definition _drop_log_stats (drop_log : DropLog) (ignore : list string) : option Q :=
  let considered := filter (fun d => negb (has_ignored ignore d)) drop_log in
  match considered with
  | [] => None
  | _ =>
      let n_dropped :=
        List.length (filter (fun d => negb (is_empty_entry d)) considered) in
      Some (100 * (inject_Z (Z.of_nat n_dropped)
                   / inject_Z (Z.of_nat (List.length considered))))%Q
  end.

(** [BaseEpochs.drop_log_stats(ignore)]. *)
Definition drop_log_stats (ignore : list string) (self : Epochs) : option Q :=
  _drop_log_stats (drop_log self) ignore.

(* ------------------------------------------------------------------ *)
(** ** Collapsing event ids ([combine_event_ids]) *)
(* ------------------------------------------------------------------ *)

Definition set_event_id (v : dict Z) (s : Epochs) : Epochs :=
  let 'mkEpochs a1 a2 _ a4 a5 a6 a7 a8 a9 a10 a11 a12 a13 a14 a15 a16 a17 a18 a19 a20 a21 a22 a23 a24 := s in
  mkEpochs a1 a2 v a4 a5 a6 a7 a8 a9 a10 a11 a12 a13 a14 a15 a16 a17 a18 a19 a20 a21 a22 a23 a24.

(** [str(n)] for an integer. *)
Definition str_of_Z (z : Z) : string := NilEmpty.string_of_int (Z.to_int z).

(** [d.pop(k)]; [None] stands for the [KeyError] of a missing key. *)
Fixpoint dict_pop {V} (d : dict V) (k : string) : option (dict V) :=
  match d with
  | [] => None
  | (k', v) :: t =>
      if String.eqb k k' then Some t
      else option_map (cons (k', v)) (dict_pop t k)
  end.

(** [for key in keys: d.pop(key)], stopping at the first missing key with
    the dictionary as the earlier turns left it. *)
Fixpoint dict_pop_all {V} (d : dict V) (keys : list string) : option string * dict V :=
  match keys with
  | [] => (None, d)
  | key :: rest =>
      match dict_pop d key with
      | None => (Some key, d)
      | Some d' => dict_pop_all d' rest
      end
  end.

(** [[d[key] for key in keys]]; the first missing key is a [KeyError]. *)
Fixpoint dict_get_all {V} (d : dict V) (keys : list string) : string + list V :=
  match keys with
  | [] => inr []
  | key :: rest =>
      match dict_get d key with
      | None => inl key
      | Some v =>
          match dict_get_all d rest with
          | inl k => inl k
          | inr vs => inr (v :: vs)
          end
      end
  end.

(** The [new_event_id] argument: an integer or a dictionary. *)
Inductive NewEventId : Type :=
| NewInt (v : Z)
| NewDict (d : dict Z).

(** [combine_event_ids(epochs, old_event_ids, new_event_id, copy)] with a
    list of names for [old_event_ids], as a step on the object it works on:
    the argument itself for [copy=False], a deep copy of it for
    [copy=True] (the argument then stays as it was). *)
Definition combine_event_ids (old_event_ids : list string)
           (new_event_id : NewEventId) : Epochs -> FunExc unit * Epochs :=
  fun epochs =>
    match
      match new_event_id with
      | NewInt v => inr [(str_of_Z v, v)]
      | NewDict d =>
          if (List.length d =? 1)%nat then inr d
          else inl (ValueErrorText "new_event_id dict must have one entry")
      end
    with
    | inl e => (inl e, epochs)
    | inr [] => (inl (MethodExn (IndexError 0)), epochs)
    | inr ((new_key, new_event_num) :: _) =>
        if mem_Z new_event_num (dict_values (event_id epochs)) then
          (inl (ValueErrorText "new_event_id value must not already exist"), epochs)
        else
          match dict_get_all (event_id epochs) old_event_ids with
          | inl key => (inl (MethodExn (KeyError key)), epochs)
          | inr old_event_nums =>
              let events' :=
                map (fun e => if mem_Z (ev_code e) old_event_nums
                              then (ev_sample e, ev_prior e, new_event_num)
                              else e)
                    (events epochs) in
              let epochs1 := set_events events' epochs in
              match dict_pop_all (event_id epochs1) old_event_ids with
              | (Some key, d) =>
                  (inl (MethodExn (KeyError key)), set_event_id d epochs1)
              | (None, d) =>
                  (inr tt, set_event_id (dict_set d new_key new_event_num) epochs1)
              end
          end
    end.

(* ------------------------------------------------------------------ *)
(** ** Equalizing several collections ([equalize_epoch_counts]) *)
(* ------------------------------------------------------------------ *)

(** [for e in epochs_list: m(e)]: the calls run in order on the objects of
    the list and stop at the first exception; the list is returned with
    every object as the calls left it. *)
Fixpoint for_each (m : Epochs -> M unit) (epochs_list : list Epochs)
  : Exc unit * list Epochs :=
  match epochs_list with
  | [] => (inr tt, [])
  | e :: rest =>
      match m e e with
      | (inl err, e') => (inl err, e' :: rest)
      | (inr _, e') =>
          let '(r, rest') := for_each m rest in (r, e' :: rest')
      end
  end.

(** [for e, inds in zip(epochs_list, indices): e.drop(inds, reason)]. *)
Fixpoint drop_each (reason : string) (epochs_list : list Epochs)
         (indices : list (list nat)) : Exc unit * list Epochs :=
  match epochs_list, indices with
  | e :: rest, inds :: indices' =>
      match drop (IntIndices (map Z.of_nat inds)) reason e with
      | (inl err, e') => (inl err, e' :: rest)
      | (inr _, e') =>
          let '(r, rest') := drop_each reason rest indices' in (r, e' :: rest')
      end
  | _, _ => (inr tt, epochs_list)
  end.

(** [equalize_epoch_counts(epochs_list, method)] for a list of distinct
    objects. *)
Definition equalize_epoch_counts `{Collaborators} (epochs_list : list Epochs)
           (method : EqualizeMethod) : Exc unit * list Epochs :=
  match for_each (fun e => if _bad_dropped e then ret tt
                           else drop_bad Existing Existing)
                 epochs_list with
  | (inl err, l1) => (inl err, l1)
  | (inr _, l1) =>
      let event_times :=
        map (fun e => map (fun ev => inject_Z (ev_sample ev)) (events e)) l1 in
      match _get_drop_indices event_times method with
      | inl err => (inl err, l1)
      | inr indices => drop_each "EQUALIZED_COUNT" l1 indices
      end
  end.

(* ------------------------------------------------------------------ *)
(** ** Bootstrapping ([bootstrap]) *)
(* ------------------------------------------------------------------ *)


(* ------------------------------------------------------------------ *)
(** ** Concatenation ([_update_offset], [_concatenate_epochs], [_finish_concat]) *)
(* ------------------------------------------------------------------ *)

(** A sum of [np.int64] values: the result wraps around. *)
Definition wrap_int64 (z : Z) : Z := (z + 2 ^ 63) mod 2 ^ 64 - 2 ^ 63.

(** [int(x)]: truncation toward zero. *)
Definition py_int (q : Q) : Z := Z.quot (Qnum q) (Z.pos (Qden q)).

(** [_update_offset(offset, events, shift)]; a result above [INT32_MAX]
    is replaced by 0 (with a warning). *)
Definition _update_offset (offset : option Z) (events : list Event) (shift : Z)
  : Exc Z :=
  match offset with
  | Some 0 => inr 0
  | _ =>
      let offset := match offset with None => 0 | Some o => o end in
      match map ev_sample events with
      | [] => inl (ValueError EmptySequence)
      | s0 :: ss =>
          let offset := wrap_int64 (offset + fold_left Z.max ss s0 + shift) in
          if offset >? INT32_MAX then inr 0 else inr offset
      end
  end.

(** The body of the loop of [_concatenate_epochs] as far as the events are
    concerned: the rows of the next collection are appended, shifted by the
    running offset when [add_offset] is set, and the offset is updated from
    the rows as they were. The sample numbers are 64-bit integers. *)
Fixpoint concat_events_loop (rest : list (list Event)) (events_offset shift : Z)
         (add_offset : bool) (acc : list Event) : Exc (list Event * Z) :=
  match rest with
  | [] => inr (acc, events_offset)
  | evs :: rest' =>
      let shifted :=
        if add_offset
        then map (fun e => (wrap_int64 (ev_sample e + events_offset),
                            ev_prior e, ev_code e)) evs
        else evs in
      match _update_offset (Some events_offset) evs shift with
      | inl e => inl e
      | inr events_offset' =>
          concat_events_loop rest' events_offset' shift add_offset (acc ++ shifted)
      end
  end.

(** The [events] array that [_concatenate_epochs(epochs_list, with_data,
    add_offset)] returns when none of its checks on the other attributes
    raises: [pieces] are the events of the collections in order, [tmax] and
    [sfreq] those of the first one. When the running offset has been reset
    to 0, the sample numbers are replaced by 1, 2, ... *)
Definition _concatenate_epochs_events (pieces : list (list Event)) (tmax sfreq : Q)
           (add_offset : bool) : Exc (list Event) :=
  match pieces with
  | [] => inl (IndexError 0)
  | out_events :: rest =>
      let shift := py_int ((inject_Z 10 + tmax) * sfreq)%Q in
      (events_offset <- _update_offset None out_events shift ;;
       r <- concat_events_loop rest events_offset shift add_offset out_events ;;
       let '(events, events_offset) := r in
       if events_offset =? 0 then
         inr (map (fun ie : nat * Event =>
                     (Z.of_nat (fst ie) + 1, ev_prior (snd ie), ev_code (snd ie)))
                  (combine (seq 0 (List.length events)) events))
       else inr events)%exc
  end.

(** [_finish_concat(info, data, events, event_id, tmin, tmax, metadata,
    baseline, selection, drop_log, verbose)]. As for [__init__], [sfreq]
    is [info['sfreq']], [projector] the projector that [setup_proj] builds
    from [info], and [baseline] the interval as returned by
    [_check_baseline]. *)
Definition _finish_concat `{Collaborators} (info : Info) (sfreq : Q)
           (projector : option (list (list Q))) (data : option (list Epoch))
           (events : list Event) (event_id : dict Z) (tmin tmax : Q)
           (metadata : option (list string)) (baseline : option (Q * Q))
           (selection : list nat) (drop_log : DropLog) : Exc Epochs :=
  let selection := nonzero is_empty_entry drop_log in
  match
    __init__ {| arg_info := info;
                arg_data := data;
                arg_events := events;
                arg_event_id := event_id;
                arg_tmin := tmin;
                arg_tmax := tmax;
                arg_sfreq := sfreq;
                arg_decim := 1%nat;
                arg_baseline := baseline;
                arg_reject := None;
                arg_flat := None;
                arg_reject_tmin := None;
                arg_reject_tmax := None;
                arg_detrend := None;
                arg_proj := ProjFalse;
                arg_projector := projector;
                arg_on_missing := OM_ignore;
                arg_preload_at_end := false;
                arg_selection := Some selection;
                arg_drop_log := Some drop_log;
                arg_metadata := metadata;
                arg_event_repeated := ER_error |}
  with
  | inl e => inl e
  | inr out =>
      match drop_bad Existing Existing out with
      | (inl e, _) => inl e
      | (inr _, out') => inr out'
      end
  end.

(* ------------------------------------------------------------------ *)
(** ** Reading split files: the drop log ([EpochsFIF.__init__]) *)
(* ------------------------------------------------------------------ *)

Definition list_str_eqb (a b : list string) : bool :=
  (List.length a =? List.length b)%nat
  && forallb (fun xy : string * string => String.eqb (fst xy) (snd xy)) (combine a b).

(** [if a == ('IGNORED',) and b != ('IGNORED',): drop_log[k] = b]. *)
Definition merge_entry (a b : list string) : list string :=
  if list_str_eqb a ["IGNORED"] && negb (list_str_eqb b ["IGNORED"]) then b else a.

(** [for k, (a, b) in enumerate(zip(drop_log, other_log)): ...]. *)
Fixpoint merge_other_log (drop_log other_log : DropLog) : DropLog :=
  match drop_log, other_log with
  | a :: drop_log', b :: other_log' =>
      merge_entry a b :: merge_other_log drop_log' other_log'
  | _, _ => drop_log
  end.

(** [drop_log[i1:i2]]. *)
Definition list_slice {A} (l : list A) (i1 i2 : nat) : list A :=
  firstn (i2 - i1) (skipn i1 l).

(** The block of [EpochsFIF.__init__] that corrects the drop log:
    [drop_log] is the concatenation of the drop logs of the [n_fnames]
    files read, each file of a split save carrying the whole log with
    ['IGNORED'] for the epochs kept in the other files. (A step of 0 is not
    reached: a file holds at least one event, hence a drop-log entry.) *)
Definition correct_drop_log (drop_log : DropLog) (n_fnames : nat) : Exc DropLog :=
  if (n_fnames =? 0)%nat then inl ZeroDivisionError
  else if negb (List.length drop_log mod n_fnames =? 0)%nat then inl AssertionError
  else
    let step := (List.length drop_log / n_fnames)%nat in
    if (step =? 0)%nat then inl ZeroDivisionError
    else
      let starts := map (fun k => (k * step)%nat) (seq 1 (n_fnames - 1)) in
      let merged :=
        fold_left (fun log i1 => merge_other_log log (list_slice log i1 (i1 + step)))
                  starts drop_log in
      inr (firstn step merged).

(* ------------------------------------------------------------------ *)
(** ** Collections from arrays ([EpochsArray.__init__]) *)
(* ------------------------------------------------------------------ *)

(** [for e in self._data: self._detrend_offset_decim(e, detrend_picks)]:
    the rows are processed in place (there is no decimation, so what the
    call returns is what it leaves in the array). *)
Definition detrend_in_place `{Collaborators} (self : Epochs) : Epochs :=
  let picks := _detrend_picks self in
  set__data
    (option_map
       (map (fun e => match _detrend_offset_decim self (EpochData e) picks with
                      | EpochData e' => e'
                      | _ => e
                      end))
       (_data self))
    self.

(** [EpochsArray.__init__(data, info, events, tmin, event_id, reject, flat,
    reject_tmin, reject_tmax, baseline, proj, on_missing, metadata,
    selection)] for a three-dimensional [data] and an explicit [events]
    array. [n_channels] and [n_samples] are [data.shape[1]] and
    [data.shape[2]]; as for [BaseEpochs.__init__], [sfreq], [projector] and
    [baseline] stand for [info['sfreq']], the projector of [info] and the
    interval returned by [_check_baseline]. *)
Definition EpochsArray__init__ `{Collaborators} (data : list Epoch)
           (n_channels n_samples : nat) (info : Info) (sfreq : Q)
           (projector : option (list (list Q))) (events_arg : list Event)
           (tmin : Q) (event_id_arg : dict Z) (reject_arg flat_arg : option (dict Q))
           (reject_tmin_arg reject_tmax_arg : option Q)
           (baseline_arg : option (Q * Q)) (proj_arg : ProjArg)
           (on_missing : OnMissing) (metadata_arg : option (list string))
           (selection_arg : option (list nat))
  : FunExc Epochs :=
  if negb (List.length (ch_names info) =? n_channels)%nat then
    inl (ValueErrorText "Info and data must have same number of channels.")
  else if Qeq_bool sfreq (0 # 1) then inl (MethodExn ZeroDivisionError)
  else
    let tmax := (inject_Z (Z.of_nat n_samples - 1) / sfreq + tmin)%Q in
    match
      __init__ {| arg_info := info;
                  arg_data := Some data;
                  arg_events := events_arg;
                  arg_event_id := event_id_arg;
                  arg_tmin := tmin;
                  arg_tmax := tmax;
                  arg_sfreq := sfreq;
                  arg_decim := 1%nat;
                  arg_baseline := baseline_arg;
                  arg_reject := reject_arg;
                  arg_flat := flat_arg;
                  arg_reject_tmin := reject_tmin_arg;
                  arg_reject_tmax := reject_tmax_arg;
                  arg_detrend := None;
                  arg_proj := proj_arg;
                  arg_projector := projector;
                  arg_on_missing := on_missing;
                  arg_preload_at_end := false;
                  arg_selection := selection_arg;
                  arg_drop_log := None;
                  arg_metadata := metadata_arg;
                  arg_event_repeated := ER_error |}
    with
    | inl e => inl (MethodExn e)
    | inr self0 =>
        let self1 :=
          match baseline self0 with
          | Some _ => set__do_baseline true self0
          | None => self0
          end in
        let n_known :=
          List.length (filter (fun e => mem_Z (ev_code e) (dict_values (event_id self1)))
                              (events self1)) in
        if negb (List.length events_arg =? n_known)%nat then
          inl (ValueErrorText
                 "The events must only contain event numbers from event_id")
        else
          let self2 := detrend_in_place self1 in
          match drop_bad Existing Existing self2 with
          | (inl e, _) => inl (MethodExn e)
          | (inr _, self3) => inr self3
          end
    end.

(* ================================================================== *)
(** * Specification predicates *)
(* ================================================================== *)

(** The data model of the bookkeeping tables: [selection] lists distinct
    original indices, and an original index is in [selection] exactly when
    its drop-log entry is empty. *)
Definition TablesOK (self : Epochs) : Prop :=
  NoDup (selection self) /\
  forall k, In k (selection self) <-> nth_error (drop_log self) k = Some [].

(** A consistent collection: one [selection] entry per retained event, over
    well-formed tables. *)
Definition Consistent (self : Epochs) : Prop :=
  List.length (selection self) = List.length (events self) /\ TablesOK self.

(** A call keeps a property of the collection, whether it returns or
    raises. *)
Definition preserves {A} (P : Epochs -> Prop) (m : M A) : Prop :=
  forall self, P self -> P (snd (m self)).

(** The [selection] that [__init__] starts from. *)
Definition initial_selection (a : InitArgs) : list nat :=
  match arg_selection a with
  | Some sel => sel
  | None =>
      nonzero (fun e => mem_Z (ev_code e) (dict_values (arg_event_id a)))
              (arg_events a)
  end.

(** What the callers that hand tables to [__init__] (the reader of saved
    files, concatenation, [EpochsArray]) provide: a [selection] of distinct
    original indices and a drop log that marks exactly these as kept. *)
Definition caller_tables_ok (a : InitArgs) : Prop :=
  NoDup (initial_selection a) /\
  match arg_drop_log a with
  | None => True
  | Some dl => forall k, In k (initial_selection a) <-> nth_error dl k = Some []
  end.

(** The observable states of a collection: the object returned by
    [__init__], and the object left behind by every later call, whether the
    call returned or raised. *)
Inductive reachable `{Collaborators} : Epochs -> Prop :=
| reach_init (a : InitArgs) (self : Epochs) :
    __init__ a = inr self -> caller_tables_ok a -> reachable self
| reach_drop (self : Epochs) (indices : Indices) (reason : string) :
    reachable self -> reachable (snd (drop indices reason self))
| reach_drop_bad (self : Epochs) (reject_arg flat_arg : RejectArg) :
    reachable self -> reachable (snd (drop_bad reject_arg flat_arg self))
| reach_get_data (self : Epochs) (out : bool) (picks item : option (list nat)) :
    reachable self -> reachable (snd (_get_data out picks item self))
| reach_load_data (self : Epochs) :
    reachable self -> reachable (snd (load_data self))
| reach_reset (self : Epochs) :
    reachable self -> reachable (snd (reset_drop_log_selection self))
| reach_equalize (self : Epochs) (event_ids : list (list string))
                 (method : EqualizeMethod) :
    reachable self -> reachable (snd (equalize_event_counts event_ids method self)).

(** The verdict of the rejection pass on the epoch at position [idx]. *)
Definition pass_verdict `{Collaborators} (self : Epochs) (idx : nat)
  : option (bool * option (list string)) :=
  match rejection_candidates self idx with
  | inr (epoch, _) =>
      match _is_good_epoch self epoch with
      | inr verdict => Some verdict
      | inl _ => None
      end
  | inl _ => None
  end.

(** [ceil(a / b)] for a positive divisor. *)
Definition ceil_div (a b : Z) : Z := (a + b - 1) / b.

(** Index normalisation of [drop]: negative entries count from the end. *)
Definition from_end (n : Z) (i : Z) : Z := if i <? 0 then i + n else i.

(** The entries of [xs] at the positions where a sample number of
    [samples] occurs for the first time ([seen] holds the earlier ones). *)
Fixpoint at_first_occurrences {A} (seen samples : list Z) (xs : list A) : list A :=
  match samples, xs with
  | s :: samples', x :: xs' =>
      if mem_Z s seen then at_first_occurrences seen samples' xs'
      else x :: at_first_occurrences (s :: seen) samples' xs'
  | _, _ => []
  end.

(** Number of entries a mask keeps. *)
Definition n_kept (mask : list bool) : nat :=
  List.length (filter (fun b : bool => b) mask).

(** The object [__init__] has assembled when it reaches [_reject_setup]. *)
Definition initial_object (a : InitArgs) (events : list Event) (event_id : dict Z)
           (selection : list nat) (drop_log : DropLog)
           (metadata : option (list string)) (w : option Q * option Q) : Epochs :=
  let sfreq := arg_sfreq a in
  let raw_times :=
    time_axis (py_round (arg_tmin a * sfreq)%Q)
              (py_round (arg_tmax a * sfreq)%Q + 1) sfreq in
  let has_data := match arg_data a with Some _ => true | None => false end in
  let decim_slice := initial_decim_slice raw_times sfreq (arg_decim a) has_data in
  {| info := arg_info a;
     events := events;
     event_id := event_id;
     selection := selection;
     drop_log := drop_log;
     metadata := metadata;
     preload := has_data;
     _data := arg_data a;
     times := apply_slice decim_slice raw_times;
     _raw_times := raw_times;
     reject := None;
     flat := None;
     reject_tmin := fst w;
     reject_tmax := snd w;
     _reject_time := None;
     _channel_type_idx := [];
     _bad_dropped := false;
     detrend := arg_detrend a;
     baseline := arg_baseline a;
     _do_baseline := negb has_data;
     _decim_slice := decim_slice;
     _offset := None;
     _do_delayed_proj := match arg_proj a with ProjDelayed => true | _ => false end;
     _projector := arg_projector a |}.

(** What holds of the rows accumulated by [_concatenate_epochs] while the
    running offset has not been reset: they are distinct, non-negative and
    below the offset. *)
Definition below_offset (acc : list Event) (off : Z) : Prop :=
  off <> 0 ->
  NoDup (map ev_sample acc) /\
  forall e, In e acc -> 0 <= ev_sample e < off.

(** A call leaves the event ids and the time axis alone and adds no
    event, whether it returns or raises. *)
Definition keeps_frame {A} (m : M A) : Prop :=
  forall self,
    event_id (snd (m self)) = event_id self /\
    times (snd (m self)) = times self /\
    incl (events (snd (m self))) (events self).

(* ================================================================== *)
(** * Worked examples *)
(* ================================================================== *)

(** A data source that serves epochs from a table, with the signal
    routines as identities; names resolve to the positions of the events
    carrying their codes. The subtraction is exact: the samples of the
    examples are small integers, whose differences are doubles. *)
Definition table_source (tbl : list RawEpoch) : Collaborators :=
  {| _get_epoch_from_raw := fun _ idx => nth idx tbl EpochNone;
     filter_detrend := fun rows _ => rows;
     rescale := fun e _ _ _ => e;
     _keys_to_idx := fun self keys =>
       inr (nonzero
              (fun e =>
                 existsb (fun k => match dict_get (event_id self) k with
                                   | Some v => ev_code e =? v
                                   | None => false
                                   end) keys)
              (events self));
     resolve_tags := fun _ ids => inr ids;
     float_sub := Qminus |}.

Definition eeg_info : Info :=
  mkInfo ["EEG 001"] [] [("eeg", [0%nat])] [0%nat] [0%nat] false.

(** Arguments for an array of one-channel, two-sample epochs (times 0 and
    1 at 1 Hz) with a reject threshold of 5 on the EEG peak-to-peak
    amplitude. *)
Definition example_args (data : list Epoch) (events : list Event)
           (event_id : dict Z) (proj_arg : ProjArg)
           (projector : option (list (list Q))) : InitArgs :=
  {| arg_info := eeg_info;
     arg_data := Some data;
     arg_events := events;
     arg_event_id := event_id;
     arg_tmin := (0#1)%Q;
     arg_tmax := (1#1)%Q;
     arg_sfreq := (1#1)%Q;
     arg_decim := 1%nat;
     arg_baseline := None;
     arg_reject := Some [("eeg", (5#1)%Q)];
     arg_flat := None;
     arg_reject_tmin := None;
     arg_reject_tmax := None;
     arg_detrend := None;
     arg_proj := proj_arg;
     arg_projector := projector;
     arg_on_missing := OM_raise;
     arg_preload_at_end := false;
     arg_selection := None;
     arg_drop_log := None;
     arg_metadata := None;
     arg_event_repeated := ER_error |}.

Definition blank : Epochs :=
  mkEpochs eeg_info [] [] [] [] None false None [] [] None None None None None []
           false None None false slice_all None false None.

(** The object returned by [__init__] ([blank] if it raises). *)
Definition built `{Collaborators} (a : InitArgs) : Epochs :=
  match __init__ a with
  | inr self => self
  | inl _ => blank
  end.

(** Three epochs with peak-to-peak amplitudes 1, 10 and 2 among four
    events, the third of which has a code outside [event_id]. *)
Definition three_args : InitArgs :=
  example_args [[[0#1; 1#1]]; [[0#1; 10#1]]; [[0#1; 2#1]]]%Q
               [(10, 0, 1); (20, 0, 2); (25, 0, 7); (30, 0, 1)]
               [("a", 1); ("b", 2)] ProjFalse None.

Definition three_epochs : Epochs := built (H := table_source []) three_args.

(** Two EEG channels, and the projector of their average reference. *)
Definition eeg_pair_info : Info :=
  mkInfo ["EEG 001"; "EEG 002"] [] [("eeg", [0%nat; 1%nat])]
         [0%nat; 1%nat] [0%nat; 1%nat] false.

Definition average_reference : list (list Q) :=
  [[1#2; -1#2]; [-1#2; 1#2]]%Q.

(** One epoch under delayed projection whose two channels carry the same
    signal, of amplitude 10: the average reference removes it. *)
Definition delayed_args : InitArgs :=
  {| arg_info := eeg_pair_info;
     arg_data := Some [[[0#1; 10#1]; [0#1; 10#1]]]%Q;
     arg_events := [(10, 0, 1)];
     arg_event_id := [("a", 1)];
     arg_tmin := (0#1)%Q;
     arg_tmax := (1#1)%Q;
     arg_sfreq := (1#1)%Q;
     arg_decim := 1%nat;
     arg_baseline := None;
     arg_reject := Some [("eeg", (5#1)%Q)];
     arg_flat := None;
     arg_reject_tmin := None;
     arg_reject_tmax := None;
     arg_detrend := None;
     arg_proj := ProjDelayed;
     arg_projector := Some average_reference;
     arg_on_missing := OM_raise;
     arg_preload_at_end := false;
     arg_selection := None;
     arg_drop_log := None;
     arg_metadata := None;
     arg_event_repeated := ER_error |}.

Definition delayed_epochs : Epochs := built (H := table_source []) delayed_args.

(** Two epochs, both above the threshold. *)
Definition all_bad_args : InitArgs :=
  example_args [[[0#1; 10#1]]; [[0#1; 20#1]]]%Q [(10, 0, 1); (20, 0, 2)]
               [("a", 1); ("b", 2)] ProjFalse None.

Definition all_bad_epochs : Epochs := built (H := table_source []) all_bad_args.

(** Four epochs within the threshold and a collection of two, both after
    [drop_bad]. *)
Definition four_args : InitArgs :=
  example_args [[[0#1; 1#1]]; [[0#1; 1#1]]; [[0#1; 2#1]]; [[0#1; 1#1]]]%Q
               [(10, 0, 1); (20, 0, 1); (30, 0, 2); (300, 0, 1)]
               [("a", 1); ("b", 2)] ProjFalse None.

Definition cleaned_epochs : Epochs :=
  snd (drop_bad (H := table_source []) Existing Existing
                (built (H := table_source []) four_args)).

Definition pair_args : InitArgs :=
  example_args [[[0#1; 1#1]]; [[0#1; 1#1]]]%Q [(25, 0, 1); (295, 0, 1)]
               [("a", 1)] ProjFalse None.

Definition cleaned_pair : Epochs :=
  snd (drop_bad (H := table_source []) Existing Existing
                (built (H := table_source []) pair_args)).

(** [three_epochs] with the conditions "a" and "b" combined into "ab". *)
Definition combined_epochs : Epochs :=
  snd (combine_event_ids ["a"; "b"] (NewDict [("ab", 12)]) three_epochs).

(** The event-time groups of the equalization example. *)
Definition times_A : list Q := [1#1; 2#1; 3#1; 4#1; 120#1; 121#1]%Q.
Definition times_B : list Q := [7#2; 9#2; 241#2; 243#2]%Q.

(** Sizes of a collection of 200 one-channel, 100-sample epochs in double
    precision, and of one with 3 such epochs. *)
Definition sizes_of (n : nat) : SaveSizes :=
  mkSaveSizes n 800 2000 7 None false 1000 (Some 20).

Definition NEXT_FILE_BUFFER : Z := 1048576.

Definition plain_join (name : string) : string := ("out/" ++ name)%string.

(* ================================================================== *)
(** * Facts about the array primitives *)
(* ================================================================== *)

Section ArrayFacts.

Local Open Scope nat_scope.

Lemma update_nth_length {A} (a a' : list A) i f :
  update_nth a i f = Some a' -> List.length a' = List.length a.
Proof.
  revert i a'. induction a as [|x t IH]; intros [|j] a' Hu; simpl in Hu;
    try discriminate.
  - inversion Hu; reflexivity.
  - destruct (update_nth t j f) eqn:E; simpl in Hu; inversion Hu; subst.
    simpl. f_equal. eapply IH; eauto.
Qed.

Lemma update_nth_same {A} (a a' : list A) i f :
  update_nth a i f = Some a' ->
  exists x, nth_error a i = Some x /\ nth_error a' i = Some (f x).
Proof.
  revert i a'. induction a as [|x t IH]; intros [|j] a' Hu; simpl in Hu;
    try discriminate.
  - inversion Hu; subst. exists x; split; reflexivity.
  - destruct (update_nth t j f) eqn:E; simpl in Hu; inversion Hu; subst.
    simpl. eapply IH; eauto.
Qed.

Lemma update_nth_other {A} (a a' : list A) i f k :
  update_nth a i f = Some a' -> k <> i -> nth_error a' k = nth_error a k.
Proof.
  revert i a' k. induction a as [|x t IH]; intros [|j] a' k Hu Hk; simpl in Hu;
    try discriminate.
  - inversion Hu; subst. destruct k; [congruence | reflexivity].
  - destruct (update_nth t j f) eqn:E; simpl in Hu; inversion Hu; subst.
    destruct k; simpl; [reflexivity|]. eapply IH; eauto.
Qed.

Lemma update_nth_in_range {A} (a : list A) i f :
  i < List.length a -> exists a', update_nth a i f = Some a'.
Proof.
  revert i. induction a as [|x t IH]; intros [|j] Hi; simpl in *; try lia.
  - eexists; reflexivity.
  - destruct (IH j ltac:(lia)) as [t' Ht]. rewrite Ht. eexists; reflexivity.
Qed.

Lemma In_take_idx {A} (a : list A) idx x :
  In x (take_idx a idx) <-> exists i, In i idx /\ nth_error a i = Some x.
Proof.
  unfold take_idx. rewrite in_flat_map. split.
  - intros [i [Hi Hx]]. exists i. split; [assumption|].
    destruct (nth_error a i); simpl in Hx; [|contradiction].
    destruct Hx as [->|[]]. reflexivity.
  - intros [i [Hi Hx]]. exists i. split; [assumption|]. rewrite Hx. now left.
Qed.

Lemma take_idx_cons {A} (a : list A) i idx :
  take_idx a (i :: idx) =
  match nth_error a i with Some x => [x] | None => [] end ++ take_idx a idx.
Proof. reflexivity. Qed.

Lemma NoDup_take_idx {A} (a : list A) idx :
  NoDup a -> NoDup idx -> NoDup (take_idx a idx).
Proof.
  intros Ha. induction idx as [|i idx IH]; intros Hidx.
  - constructor.
  - inversion Hidx as [|? ? Hni Hnd]; subst. rewrite take_idx_cons.
    destruct (nth_error a i) as [x|] eqn:E; simpl; [|auto].
    constructor; [|auto].
    rewrite In_take_idx. intros [j [Hj Hx]].
    assert (i = j).
    { apply (proj1 (NoDup_nth_error a) Ha).
      - apply nth_error_Some. congruence.
      - congruence. }
    subst. contradiction.
Qed.

Lemma length_take_idx {A B} (a : list A) (b : list B) idx :
  List.length a = List.length b ->
  List.length (take_idx a idx) = List.length (take_idx b idx).
Proof.
  intros Hlen. induction idx as [|i idx IH]; [reflexivity|].
  rewrite !take_idx_cons, !length_app, IH. f_equal.
  destruct (nth_error a i) eqn:Ea, (nth_error b i) eqn:Eb; try reflexivity.
  - apply nth_error_None in Eb.
    assert (i < List.length a) by (apply nth_error_Some; congruence). lia.
  - apply nth_error_None in Ea.
    assert (i < List.length b) by (apply nth_error_Some; congruence). lia.
Qed.

Lemma In_nonzero_from {A} (f : A -> bool) a pos k :
  In k (nonzero_from pos f a) <->
  pos <= k /\ exists x, nth_error a (k - pos) = Some x /\ f x = true.
Proof.
  revert pos. induction a as [|x t IH]; intros pos; simpl.
  - split; [contradiction|]. intros [_ [y [Hy _]]].
    destruct (k - pos); discriminate.
  - assert (Hstep : In k (nonzero_from (S pos) f t) <->
                    pos < k /\ exists y, nth_error t (k - S pos) = Some y /\ f y = true).
    { rewrite IH. split; intros [H1 H2]; (split; [lia | exact H2]). }
    destruct (f x) eqn:Efx; simpl; rewrite ?Hstep.
    + split.
      * intros [<-|[Hk [y [Hy Hfy]]]].
        -- split; [lia|]. exists x. rewrite Nat.sub_diag. auto.
        -- split; [lia|]. exists y. replace (k - pos) with (S (k - S pos)) by lia. auto.
      * intros [Hk [y [Hy Hfy]]].
        destruct (Nat.eq_dec pos k) as [->|Hne]; [now left|right].
        split; [lia|]. exists y. replace (k - pos) with (S (k - S pos)) in Hy by lia. auto.
    + split.
      * intros [Hk [y [Hy Hfy]]].
        split; [lia|]. exists y. replace (k - pos) with (S (k - S pos)) by lia. auto.
      * intros [Hk [y [Hy Hfy]]].
        destruct (Nat.eq_dec pos k) as [->|Hne].
        -- rewrite Nat.sub_diag in Hy. simpl in Hy. congruence.
        -- split; [lia|]. exists y. replace (k - pos) with (S (k - S pos)) in Hy by lia. auto.
Qed.

Lemma NoDup_nonzero_from {A} (f : A -> bool) a pos :
  NoDup (nonzero_from pos f a).
Proof.
  revert pos. induction a as [|x t IH]; intros pos; simpl; [constructor|].
  destruct (f x); [|apply IH].
  constructor; [|apply IH].
  rewrite In_nonzero_from. lia.
Qed.

Lemma In_nonzero {A} (f : A -> bool) a k :
  In k (nonzero f a) <-> exists x, nth_error a k = Some x /\ f x = true.
Proof.
  unfold nonzero. rewrite In_nonzero_from, Nat.sub_0_r.
  split; [intros [_ H]; exact H | intros H; split; [lia | exact H]].
Qed.

Lemma length_nonzero_from {A} (f : A -> bool) a pos :
  List.length (nonzero_from pos f a) = List.length (filter f a).
Proof.
  revert pos. induction a as [|x t IH]; intros pos; simpl; [reflexivity|].
  destruct (f x); simpl; rewrite IH; reflexivity.
Qed.

Lemma mem_nat_In k l : mem_nat k l = true <-> In k l.
Proof.
  unfold mem_nat. rewrite existsb_exists. split.
  - intros [x [Hx Hk]]. apply Nat.eqb_eq in Hk. now subst.
  - intros H. exists k. split; [assumption | apply Nat.eqb_refl].
Qed.


Lemma In_np_delete_from {A} (a : list A) idxs pos x :
  In x (np_delete_from pos a idxs) -> In x a.
Proof.
  revert pos. induction a as [|y t IH]; intros pos; simpl; [auto|].
  destruct (existsb (Nat.eqb pos) idxs); simpl; intros H.
  - right. eapply IH; eauto.
  - destruct H; [now left | right; eapply IH; eauto].
Qed.

Lemma NoDup_np_delete {A} (a : list A) idxs :
  NoDup a -> NoDup (np_delete a idxs).
Proof.
  unfold np_delete. generalize 0. induction a as [|y t IH]; intros pos Hnd; simpl.
  - constructor.
  - inversion Hnd; subst.
    destruct (existsb (Nat.eqb pos) idxs); [auto|].
    constructor; [|auto]. intros Hin. apply In_np_delete_from in Hin. contradiction.
Qed.

End ArrayFacts.

(** ** Sorted insertion: [np.unique] and [np.setdiff1d] have no duplicates *)

Section SortedInsertion.

Context {A : Type} (ltb eqb : A -> A -> bool).
Hypothesis eqb_eq : forall x y, eqb x y = true <-> x = y.
Hypothesis ltb_irrefl : forall x, ltb x x = false.
Hypothesis ltb_trans :
  forall x y z, ltb x y = true -> ltb y z = true -> ltb x z = true.
Hypothesis ltb_total :
  forall x y, ltb x y = false -> eqb x y = false -> ltb y x = true.

Let R (x y : A) : Prop := ltb x y = true.

Lemma In_insert_unique_by x l y :
  In y (insert_unique_by ltb eqb x l) <-> y = x \/ In y l.
Proof.
  induction l as [|z t IH]; simpl.
  - intuition.
  - destruct (ltb x z) eqn:Elt; simpl; [intuition|].
    destruct (eqb x z) eqn:Eeq; simpl.
    + apply eqb_eq in Eeq. subst. intuition.
    + rewrite IH. intuition.
Qed.

Lemma sorted_insert_unique_by x l :
  StronglySorted R l -> StronglySorted R (insert_unique_by ltb eqb x l).
Proof.
  induction 1 as [|z t Hs IH Hall]; simpl.
  - constructor; constructor.
  - destruct (ltb x z) eqn:Elt.
    + constructor; [constructor; assumption|].
      constructor; [exact Elt|].
      eapply Forall_impl; [|exact Hall]. intros w Hw. unfold R in *. eauto.
    + destruct (eqb x z) eqn:Eeq; [constructor; assumption|].
      constructor; [assumption|].
      apply Forall_forall. intros w Hw. apply In_insert_unique_by in Hw.
      destruct Hw as [->|Hw].
      * unfold R. auto.
      * rewrite Forall_forall in Hall. auto.
Qed.

Lemma sorted_fold_insert l :
  StronglySorted R (fold_right (insert_unique_by ltb eqb) [] l).
Proof.
  induction l; simpl; [constructor | apply sorted_insert_unique_by; assumption].
Qed.

Lemma sorted_NoDup l : StronglySorted R l -> NoDup l.
Proof.
  induction 1 as [|z t Hs IH Hall]; constructor; [|assumption].
  intros Hin. rewrite Forall_forall in Hall. specialize (Hall z Hin).
  unfold R in Hall. rewrite ltb_irrefl in Hall. discriminate.
Qed.

Lemma In_fold_insert l y :
  In y (fold_right (insert_unique_by ltb eqb) [] l) <-> In y l.
Proof.
  induction l as [|x t IH]; simpl; [tauto|].
  rewrite In_insert_unique_by, IH. intuition.
Qed.

End SortedInsertion.

Lemma NoDup_np_unique a : NoDup (np_unique a).
Proof.
  unfold np_unique, insert_unique.
  apply (sorted_NoDup Z.ltb); [apply Z.ltb_irrefl|].
  apply sorted_fold_insert.
  - apply Z.eqb_eq.
  - intros x y z H1 H2. apply Z.ltb_lt in H1, H2. apply Z.ltb_lt. lia.
  - intros x y H1 H2. apply Z.ltb_ge in H1. apply Z.eqb_neq in H2.
    apply Z.ltb_lt. lia.
Qed.

Lemma NoDup_np_unique_nat a : NoDup (np_unique_nat a).
Proof.
  unfold np_unique_nat, insert_unique_nat.
  apply (sorted_NoDup Nat.ltb); [apply Nat.ltb_irrefl|].
  apply sorted_fold_insert.
  - apply Nat.eqb_eq.
  - intros x y z H1 H2. apply Nat.ltb_lt in H1, H2. apply Nat.ltb_lt. lia.
  - intros x y H1 H2. apply Nat.ltb_ge in H1. apply Nat.eqb_neq in H2.
    apply Nat.ltb_lt. lia.
Qed.

Lemma In_np_unique_nat a y : In y (np_unique_nat a) <-> In y a.
Proof. apply In_fold_insert, Nat.eqb_eq. Qed.

Lemma NoDup_setdiff1d a b : NoDup (setdiff1d a b).
Proof. apply NoDup_np_unique_nat. Qed.

Lemma In_setdiff1d a b k : In k (setdiff1d a b) <-> In k a /\ ~ In k b.
Proof.
  unfold setdiff1d. rewrite In_np_unique_nat, filter_In, negb_true_iff. split.
  - intros [Ha Hm]. split; [assumption|]. intros Hin.
    apply mem_nat_In in Hin. congruence.
  - intros [Ha Hn]. split; [assumption|].
    destruct (mem_nat k b) eqn:E; [|reflexivity].
    apply mem_nat_In in E. contradiction.
Qed.

Lemma index_from_spec a pos v i :
  index_from pos v a = Some i ->
  (pos <= i)%nat /\ nth_error a (i - pos) = Some v.
Proof.
  revert pos. induction a as [|x t IH]; intros pos; simpl; [discriminate|].
  destruct (x =? v) eqn:E.
  - intros H. inversion H; subst. apply Z.eqb_eq in E. subst.
    rewrite Nat.sub_diag. auto.
  - intros H. apply IH in H. destruct H as [Hle Hn]. split; [lia|].
    replace (i - pos)%nat with (S (i - S pos)) by lia. exact Hn.
Qed.

Lemma list_index_spec a v i : list_index a v = Some i -> nth_error a i = Some v.
Proof.
  unfold list_index. intros H. apply index_from_spec in H.
  rewrite Nat.sub_0_r in H. tauto.
Qed.

Lemma NoDup_np_unique_index a : NoDup (np_unique_index a).
Proof.
  unfold np_unique_index.
  pose proof (NoDup_np_unique a) as Hnd.
  induction (np_unique a) as [|v vs IH]; simpl; [constructor|].
  inversion Hnd as [|? ? Hni Hnd']; subst.
  destruct (list_index a v) as [i|] eqn:E; simpl; [|auto].
  constructor; [|auto].
  rewrite in_flat_map. intros [w [Hw Hi]].
  destruct (list_index a w) as [j|] eqn:Ew; simpl in Hi; [|contradiction].
  destruct Hi as [->|[]].
  apply list_index_spec in E, Ew. congruence.
Qed.

(* ================================================================== *)
(** * The bookkeeping tables *)
(* ================================================================== *)

Section DropLogFacts.

Local Open Scope nat_scope.

Lemma update_nth_empty_iff (log log' : DropLog) i f k :
  update_nth log i f = Some log' ->
  (forall x, f x <> []) ->
  (nth_error log' k = Some [] <-> nth_error log k = Some [] /\ k <> i).
Proof.
  intros Hu Hf. destruct (Nat.eq_dec k i) as [->|Hne].
  - destruct (update_nth_same _ _ _ _ Hu) as [x [Hx Hx']]. rewrite Hx'. split.
    + intros H. inversion H. exfalso. eapply Hf; eauto.
    + intros [_ H]. congruence.
  - rewrite (update_nth_other _ _ _ _ _ Hu Hne). tauto.
Qed.

Lemma extend_drop_log_spec log idxs reasons log' :
  reasons <> [] ->
  extend_drop_log log idxs reasons = inr log' ->
  forall k, nth_error log' k = Some [] <-> nth_error log k = Some [] /\ ~ In k idxs.
Proof.
  intros Hr. revert log. induction idxs as [|i rest IH]; intros log He k; simpl in *.
  - inversion He; subst. tauto.
  - destruct (update_nth log i (fun old => old ++ reasons)) as [log1|] eqn:Hu;
      [|discriminate].
    rewrite (IH _ He k).
    rewrite (update_nth_empty_iff _ _ _ _ k Hu).
    + intuition.
    + intros x Hx. apply app_eq_nil in Hx. tauto.
Qed.

Lemma mark_dropped_spec log idxs reason log' :
  mark_dropped log idxs reason = inr log' ->
  forall k, nth_error log' k = Some [] <-> nth_error log k = Some [] /\ ~ In k idxs.
Proof.
  revert log. induction idxs as [|i rest IH]; intros log He k; simpl in *.
  - inversion He; subst. tauto.
  - destruct (update_nth log i (fun _ => [reason])) as [log1|] eqn:Hu;
      [|discriminate].
    rewrite (IH _ He k).
    rewrite (update_nth_empty_iff _ _ _ _ k Hu).
    + intuition.
    + intros x Hx. discriminate.
Qed.

Lemma is_empty_entry_iff (dl : list string) : is_empty_entry dl = true <-> dl = [].
Proof. destruct dl; simpl; split; intros; congruence. Qed.

(** Under the data model the empty entries are counted by [selection]. *)
Lemma count_empty_selection (sel : list nat) (log : DropLog) :
  NoDup sel ->
  (forall k, In k sel <-> nth_error log k = Some []) ->
  count_empty log = List.length sel.
Proof.
  intros Hnd Hiff. unfold count_empty.
  rewrite <- (length_nonzero_from is_empty_entry log 0).
  apply Permutation_length, NoDup_Permutation.
  - apply NoDup_nonzero_from.
  - assumption.
  - intros k. fold (nonzero is_empty_entry log). rewrite In_nonzero, Hiff. split.
    + intros [x [Hx He]]. apply is_empty_entry_iff in He. congruence.
    + intros H. exists []. auto.
Qed.


Lemma take_idx_incl {A} (a : list A) idx x : In x (take_idx a idx) -> In x a.
Proof.
  rewrite In_take_idx. intros [i [_ H]]. eapply nth_error_In; eauto.
Qed.

(** The well-formedness of the tables survives the removal of entries from
    [selection], as long as exactly the removed indices lose their empty
    drop-log entry. *)
Lemma tables_after_removal (sel sel' : list nat) (log log' : DropLog) :
  (forall k, In k sel <-> nth_error log k = Some []) ->
  (forall k, In k sel' -> In k sel) ->
  (forall k, nth_error log' k = Some [] <->
             nth_error log k = Some [] /\ ~ (In k sel /\ ~ In k sel')) ->
  forall k, In k sel' <-> nth_error log' k = Some [].
Proof.
  intros Hiff Hincl Hlog k. rewrite Hlog, <- Hiff. split.
  - intros H. split; [auto | tauto].
  - intros [Hk Hn]. destruct (in_dec Nat.eq_dec k sel'); tauto.
Qed.

End DropLogFacts.


(** ** [_getitem] *)

Lemma _getitem_None (item : list nat) (select_data : bool) (self : Epochs) :
  exists self',
    _getitem item None select_data self = (inr tt, self') /\
    selection self' = take_idx (selection self) item /\
    events self' = take_idx (events self) item /\
    drop_log self' = drop_log self /\
    _bad_dropped self' = _bad_dropped self /\
    preload self' = preload self /\
    _data self' = (if preload self && select_data
                   then option_map (fun d => take_idx d item) (_data self)
                   else _data self).
Proof.
  unfold _getitem. destruct self; simpl.
  match goal with |- context [if ?b then _ else _] => destruct b end;
    simpl; eexists; repeat split; reflexivity.
Qed.

Lemma _getitem_Some (item : list nat) (reason : string) (select_data : bool)
      (self self' : Epochs) :
  _getitem item (Some reason) select_data self = (inr tt, self') ->
  selection self' = take_idx (selection self) item /\
  events self' = take_idx (events self) item /\
  mark_dropped (drop_log self)
               (setdiff1d (selection self) (take_idx (selection self) item))
               reason = inr (drop_log self') /\
  _bad_dropped self' = _bad_dropped self.
Proof.
  unfold _getitem.
  destruct (mark_dropped (drop_log self) _ reason) as [e|log'] eqn:Hm;
    [intros H; inversion H|].
  destruct self; simpl in *.
  match goal with |- context [if ?b then _ else _] => destruct b end;
    simpl; intros H; inversion H; subst; simpl; repeat split; reflexivity.
Qed.

Lemma _getitem_raises (item : list nat) (reason : option string)
      (select_data : bool) (self self' : Epochs) (e : Exn) :
  _getitem item reason select_data self = (inl e, self') -> self' = self.
Proof.
  unfold _getitem.
  destruct reason as [r|].
  - destruct (mark_dropped _ _ r); intros H; inversion H; reflexivity.
  - intros H; inversion H.
Qed.

Lemma _getitem_Some_consistent (item : list nat) (reason : string)
      (select_data : bool) (self : Epochs) :
  NoDup item -> Consistent self ->
  Consistent (snd (_getitem item (Some reason) select_data self)).
Proof.
  intros Hitem Hc.
  destruct (_getitem item (Some reason) select_data self) as [[e|[]] self'] eqn:Hg.
  - apply _getitem_raises in Hg. subst. exact Hc.
  - apply _getitem_Some in Hg. destruct Hg as [Hs [He [Hm _]]].
    destruct Hc as [Hlen [Hnd Hiff]]. simpl. split; [|split].
    + rewrite Hs, He. apply length_take_idx. exact Hlen.
    + rewrite Hs. apply NoDup_take_idx; assumption.
    + rewrite Hs. apply (tables_after_removal (selection self) _ (drop_log self)).
      * exact Hiff.
      * intros k. apply take_idx_incl.
      * intros k. rewrite (mark_dropped_spec _ _ _ _ Hm k), In_setdiff1d. tauto.
Qed.

(* ================================================================== *)
(** * The rejection pass of [_get_data] *)
(* ================================================================== *)

Lemma _is_good_reasons `{Collaborators} e names idx reject flat ign t :
  _is_good e names idx reject flat ign = inr (false, t) ->
  exists reasons, t = Some reasons /\ reasons <> [].
Proof.
  unfold _is_good, exc_bind.
  destruct (offending _ _ _ _ _ reject) as [err|bad1]; [discriminate|].
  destruct (offending _ _ _ _ _ flat) as [err|bad2]; [discriminate|].
  destruct (bad1 ++ bad2) eqn:E; intros Hg; inversion Hg; subst.
  eexists; split; [reflexivity | discriminate].
Qed.

(** A bad verdict always carries at least one reason. *)
Lemma _is_good_epoch_reasons `{Collaborators} (self : Epochs) (data : RawEpoch) t :
  _is_good_epoch self data = inr (false, t) ->
  exists reasons, t = Some reasons /\ reasons <> [].
Proof.
  unfold _is_good_epoch. destruct data as [e|r|].
  - destruct (n_columns e <? List.length (times self))%nat.
    + intros Hg; inversion Hg. eexists; split; [reflexivity | discriminate].
    + destruct (reject self), (flat self);
        try (intros Hg; discriminate Hg); apply _is_good_reasons.
  - intros Hg; inversion Hg. eexists; split; [reflexivity | discriminate].
  - intros Hg; inversion Hg. eexists; split; [reflexivity | discriminate].
Qed.

(** Only an array of samples can be good. *)
Lemma _is_good_epoch_data `{Collaborators} (self : Epochs) (data : RawEpoch) t :
  _is_good_epoch self data = inr (true, t) -> exists e, data = EpochData e.
Proof.
  destruct data as [e|r|]; simpl; intros Hg; [eauto | discriminate | discriminate].
Qed.

Lemma _project_epoch_data (self : Epochs) (epoch : RawEpoch) e :
  _project_epoch self epoch = EpochData e -> exists e', epoch = EpochData e'.
Proof.
  destruct epoch; simpl; intros H; [eauto | discriminate | discriminate].
Qed.

Section RejectionPass.

Context `{Collaborators}.
Local Open Scope nat_scope.

(** The stored epoch of a good candidate is an array. *)
Lemma good_candidate_stored (self : Epochs) idx epoch epoch_out t :
  rejection_candidates self idx = inr (epoch, epoch_out) ->
  _is_good_epoch self epoch = inr (true, t) ->
  exists e, epoch_out = EpochData e.
Proof.
  unfold rejection_candidates. intros Hc Hg.
  destruct (preload self).
  - destruct (_data self) as [d|]; [|discriminate].
    destruct (nth_error d idx) as [row|]; [|discriminate].
    destruct (_do_delayed_proj self); inversion Hc; subst; eauto.
  - inversion Hc; subst. destruct (_do_delayed_proj self).
    + apply _is_good_epoch_data in Hg. destruct Hg as [e He].
      apply _project_epoch_data in He. exact He.
    + eapply _is_good_epoch_data; eauto.
Qed.

(** What one turn of the loop does, by the verdict. *)
Lemma rejection_step_spec (self : Epochs) out st idx sel st' :
  rejection_step self out st idx sel = inr st' ->
  (exists t, pass_verdict self idx = Some (true, t) /\
             ps_good_idx st' = ps_good_idx st ++ [idx] /\
             ps_drop_log st' = ps_drop_log st)
  \/
  (exists reasons, pass_verdict self idx = Some (false, Some reasons) /\
                   reasons <> [] /\
                   ps_good_idx st' = ps_good_idx st /\
                   ps_data st' = ps_data st /\
                   update_nth (ps_drop_log st) sel (fun old => old ++ reasons)
                   = Some (ps_drop_log st')).
Proof.
  unfold rejection_step, pass_verdict.
  destruct (rejection_candidates self idx) as [e|[epoch epoch_out]] eqn:Hc;
    simpl; [discriminate|].
  destruct (_is_good_epoch self epoch) as [e|[[|] t]] eqn:Hg; simpl;
    [discriminate| |].
  - intros Hs. left. exists t. split; [reflexivity|].
    destruct (out || preload self).
    + destruct epoch_out; inversion Hs; subst; simpl; auto.
    + inversion Hs; subst; simpl; auto.
  - destruct (_is_good_epoch_reasons _ _ _ Hg) as [reasons [-> Hne]].
    intros Hs. right. exists reasons.
    destruct (update_nth (ps_drop_log st) sel _) as [log'|] eqn:Hu; [|discriminate].
    inversion Hs; subst; simpl. auto.
Qed.

(** The loop over [selection]: the positions found good, and the drop log
    entry of every original index, touched exactly when its epoch is bad. *)
Lemma rejection_loop_spec (self : Epochs) out sels :
  forall idx st st',
    NoDup sels ->
    rejection_loop self out st idx sels = inr st' ->
    exists g,
      ps_good_idx st' = ps_good_idx st ++ g /\
      NoDup g /\
      (forall j, In j g -> idx <= j < idx + List.length sels) /\
      (forall k, ~ In k sels ->
                 nth_error (ps_drop_log st') k = nth_error (ps_drop_log st) k) /\
      (forall i k, nth_error sels i = Some k ->
         (In (idx + i) g /\
          (exists t, pass_verdict self (idx + i) = Some (true, t)) /\
          nth_error (ps_drop_log st') k = nth_error (ps_drop_log st) k)
         \/
         (~ In (idx + i) g /\
          exists old reasons,
            nth_error (ps_drop_log st) k = Some old /\
            pass_verdict self (idx + i) = Some (false, Some reasons) /\
            reasons <> [] /\
            nth_error (ps_drop_log st') k = Some (old ++ reasons))).
Proof.
  induction sels as [|sel rest IH]; intros idx st st' Hnd Hloop; simpl in Hloop.
  - inversion Hloop; subst. exists []. rewrite app_nil_r.
    split; [reflexivity|]. split; [constructor|]. split; [intros j []|].
    split; [intros k _; reflexivity|].
    intros i k Hk. destruct i; discriminate.
  - destruct (rejection_step self out st idx sel) as [e|st1] eqn:Hstep; [discriminate|].
    inversion Hnd as [|? ? Hni Hnd']; subst.
    destruct (IH _ _ _ Hnd' Hloop) as [g [Hg [Hgnd [Hrange [Hout Hin]]]]].
    assert (Hidx : ~ In idx g) by (intros Hc; apply Hrange in Hc; lia).
    apply rejection_step_spec in Hstep.
    destruct Hstep as [[t [Hv [Hgood Hlog]]] | [reasons [Hv [Hne [Hgood [_ Hu]]]]]].
    + (* the epoch at [idx] is good *)
      exists (idx :: g). rewrite Hg, Hgood, <- app_assoc. simpl.
      split; [reflexivity|]. split; [constructor; assumption|].
      split; [intros j [<-|Hj]; [simpl; lia | apply Hrange in Hj; simpl; lia]|].
      split.
      * intros k Hk. rewrite Hout by (intros Hc; apply Hk; now right). rewrite Hlog. reflexivity.
      * intros [|i] k Hk; simpl in Hk.
        -- inversion Hk; subst k. left. rewrite Nat.add_0_r.
           split; [now left|]. split; [eauto|].
           rewrite Hout by assumption. rewrite Hlog. reflexivity.
        -- replace (idx + S i) with (S idx + i) by lia.
           destruct (Hin i k Hk) as [[H1 [H2 H3]] | [H1 [old [rs [H2 [H3 [H4 H5]]]]]]].
           ++ left. split; [now right|]. split; [assumption|]. rewrite H3, Hlog. reflexivity.
           ++ right. split.
              ** intros [Heq|Hc]; [lia | contradiction].
              ** exists old, rs. rewrite <- Hlog. auto.
    + (* the epoch at [idx] is bad *)
      exists g. rewrite Hg, Hgood.
      split; [reflexivity|]. split; [assumption|].
      split; [intros j Hj; apply Hrange in Hj; simpl; lia|].
      split.
      * intros k Hk. rewrite Hout by (intros Hc; apply Hk; now right).
        apply (update_nth_other _ _ _ _ _ Hu). intros ->. apply Hk. now left.
      * intros [|i] k Hk; simpl in Hk.
        -- inversion Hk; subst k. right. rewrite Nat.add_0_r.
           split; [assumption|].
           destruct (update_nth_same _ _ _ _ Hu) as [old [Hold Hnew]].
           exists old, reasons. rewrite Hout by assumption. auto.
        -- replace (idx + S i) with (S idx + i) by lia.
           assert (Hk' : k <> sel).
           { intros ->. apply Hni. eapply nth_error_In; eauto. }
           pose proof (update_nth_other _ _ _ _ _ Hu Hk') as Hsame.
           destruct (Hin i k Hk) as [[H1 [H2 H3]] | [H1 [old [rs [H2 [H3 [H4 H5]]]]]]].
           ++ left. split; [assumption|]. split; [assumption|]. congruence.
           ++ right. split; [assumption|]. exists old, rs. rewrite <- Hsame. auto.
Qed.

(** The loop runs to its end when the verdict of every epoch can be
    computed and every [selection] entry indexes the drop log. *)
Lemma rejection_loop_total (self : Epochs) out sels :
  forall idx st,
    (forall k, In k sels -> k < List.length (ps_drop_log st)) ->
    (forall i, i < List.length sels ->
               exists v, pass_verdict self (idx + i) = Some v) ->
    exists st', rejection_loop self out st idx sels = inr st'.
Proof.
  induction sels as [|sel rest IH]; intros idx st Hrange Hfetch; simpl.
  - eauto.
  - assert (Hstep : exists st1, rejection_step self out st idx sel = inr st1 /\
                                List.length (ps_drop_log st1) = List.length (ps_drop_log st)).
    { unfold rejection_step.
      destruct (Hfetch 0 ltac:(simpl; lia)) as [v Hv].
      rewrite Nat.add_0_r in Hv. unfold pass_verdict in Hv.
      destruct (rejection_candidates self idx) as [e|[epoch epoch_out]] eqn:Hc;
        [discriminate|]. simpl.
      destruct (_is_good_epoch self epoch) as [e|[[|] t]] eqn:Hg;
        [discriminate| |]; simpl.
      - destruct (good_candidate_stored _ _ _ _ _ Hc Hg) as [e ->].
        destruct (out || preload self); eexists; split; reflexivity.
      - destruct (_is_good_epoch_reasons _ _ _ Hg) as [reasons [-> _]].
        destruct (update_nth_in_range (ps_drop_log st) sel (fun old => old ++ reasons))
          as [log' Hu]; [apply Hrange; now left|].
        rewrite Hu. eexists; split; [reflexivity|]. simpl.
        eapply update_nth_length; eauto. }
    destruct Hstep as [st1 [Hs Hlen]]. rewrite Hs.
    apply IH.
    + intros k Hk. rewrite Hlen. apply Hrange. now right.
    + intros i Hi. replace (S idx + i) with (idx + S i) by lia.
      apply Hfetch. simpl. lia.
Qed.

(** The loop stops with an exception when the verdict of some epoch cannot
    be computed. *)
Lemma rejection_loop_raises (self : Epochs) out sels :
  forall idx st i,
    i < List.length sels ->
    pass_verdict self (idx + i) = None ->
    exists e, rejection_loop self out st idx sels = inl e.
Proof.
  induction sels as [|sel rest IH]; intros idx st i Hi Hv; simpl in *; [lia|].
  destruct (rejection_step self out st idx sel) as [e|st1] eqn:Hs; [eauto|].
  destruct i as [|i].
  - exfalso. rewrite Nat.add_0_r in Hv. apply rejection_step_spec in Hs.
    destruct Hs as [[t [Ht _]] | [reasons [Ht _]]]; congruence.
  - apply (IH (S idx) st1 i); [lia|].
    replace (S idx + i) with (idx + S i) by lia. exact Hv.
Qed.

(** What the loop collects: the positions with a good verdict, in order,
    and, when the data are kept, the stored epoch of each of them. *)
Lemma rejection_loop_data (self : Epochs) out sels :
  forall idx st st',
    rejection_loop self out st idx sels = inr st' ->
    exists g data,
      ps_good_idx st' = ps_good_idx st ++ g /\
      (forall j, In j g -> idx <= j < idx + List.length sels) /\
      (forall i, i < List.length sels ->
         exists epoch epoch_out v,
           rejection_candidates self (idx + i) = inr (epoch, epoch_out) /\
           _is_good_epoch self epoch = inr v /\
           (In (idx + i) g <-> fst v = true)) /\
      ps_data st' = ps_data st ++ data /\
      (out || preload self = true ->
       Forall2 (fun j e => exists epoch,
                  rejection_candidates self j = inr (epoch, EpochData e))
               g data) /\
      (out || preload self = false -> data = []).
Proof.
  induction sels as [|sel rest IH]; intros idx st st' Hloop; simpl in Hloop.
  - inversion Hloop; subst. exists [], []. rewrite !app_nil_r.
    split; [reflexivity|]. split; [intros j []|].
    split; [intros i Hi; simpl in Hi; lia|].
    split; [reflexivity|]. split; [constructor | reflexivity].
  - destruct (rejection_step self out st idx sel) as [e|st1] eqn:Hstep; [discriminate|].
    destruct (IH _ _ _ Hloop) as [g [data [Hg [Hrange [Hall [Hdata [Hkept Hnone]]]]]]].
    assert (Hidx : ~ In idx g) by (intros Hc; apply Hrange in Hc; lia).
    revert Hstep. unfold rejection_step.
    destruct (rejection_candidates self idx) as [e|[epoch epoch_out]] eqn:Hc;
      simpl; [discriminate|].
    destruct (_is_good_epoch self epoch) as [e|[[|] t]] eqn:Hv; simpl;
      [discriminate| |].
    + (* good *)
      destruct (out || preload self) eqn:Hkeep.
      * destruct epoch_out as [e| |]; intros Hs; inversion Hs; subst st1; clear Hs;
          simpl in Hg, Hdata.
        exists (idx :: g), (e :: data). rewrite Hg, Hdata, <- !app_assoc. simpl.
        split; [reflexivity|].
        split; [intros j [<-|Hj]; [lia | apply Hrange in Hj; lia]|].
        split.
        { intros [|i] Hi.
          - rewrite Nat.add_0_r. exists epoch, (EpochData e), (true, t).
            split; [exact Hc|]. split; [exact Hv|]. simpl. split; auto.
          - replace (idx + S i) with (S idx + i) by lia.
            destruct (Hall i ltac:(lia)) as [ep [eo [v [H1 [H2 H3]]]]].
            exists ep, eo, v. split; [exact H1|]. split; [exact H2|].
            rewrite <- H3. simpl. split; [intros [Heq|Hin]; [lia | exact Hin] | auto]. }
        split; [reflexivity|].
        split; [|discriminate].
        intros _. constructor; [eauto | apply Hkept; reflexivity].
      * intros Hs; inversion Hs; subst st1; clear Hs; simpl in Hg, Hdata.
        exists (idx :: g), data. rewrite Hg, Hdata, <- !app_assoc. simpl.
        split; [reflexivity|].
        split; [intros j [<-|Hj]; [lia | apply Hrange in Hj; lia]|].
        split.
        { intros [|i] Hi.
          - rewrite Nat.add_0_r. exists epoch, epoch_out, (true, t).
            split; [exact Hc|]. split; [exact Hv|]. simpl. split; auto.
          - replace (idx + S i) with (S idx + i) by lia.
            destruct (Hall i ltac:(lia)) as [ep [eo [v [H1 [H2 H3]]]]].
            exists ep, eo, v. split; [exact H1|]. split; [exact H2|].
            rewrite <- H3. simpl. split; [intros [Heq|Hin]; [lia | exact Hin] | auto]. }
        split; [reflexivity|].
        split; [discriminate | exact Hnone].
    + (* bad *)
      destruct t as [bad|]; [|discriminate].
      destruct (update_nth (ps_drop_log st) sel _) as [log'|]; [|discriminate].
      intros Hs; inversion Hs; subst st1; clear Hs; simpl in Hg, Hdata.
      exists g, data. split; [exact Hg|].
      split; [intros j Hj; apply Hrange in Hj; lia|].
      split.
      { intros [|i] Hi.
        - rewrite Nat.add_0_r. exists epoch, epoch_out, (false, Some bad).
          split; [exact Hc|]. split; [exact Hv|]. simpl.
          split; [intros Hin; contradiction | discriminate].
        - replace (idx + S i) with (S idx + i) by lia.
          destruct (Hall i ltac:(lia)) as [ep [eo [v [H1 [H2 H3]]]]].
          exists ep, eo, v. auto. }
      split; [exact Hdata|]. split; [exact Hkept | exact Hnone].
Qed.

End RejectionPass.


Section Materialization.

Context `{Collaborators}.
Local Open Scope nat_scope.

(** The outcome of a full pass ([item] is [None], bad epochs not dropped
    yet): an exception before any assignment, or the tables recomputed from
    the result of the loop. *)
Lemma _get_data_pass_result (self self' : Epochs) out picks r :
  _bad_dropped self = false ->
  _get_data out picks None self = (r, self') ->
  (exists e, r = inl e /\ self' = self) \/
  (exists st,
      rejection_loop self out (mkPassState [] (drop_log self) []) 0 (selection self)
      = inr st /\
      List.length (events self) = List.length (selection self) /\
      selection self' = take_idx (selection self) (ps_good_idx st) /\
      events self' = take_idx (events self) (ps_good_idx st) /\
      drop_log self' = ps_drop_log st /\
      _bad_dropped self' = true /\
      r = inr (if out then Some (apply_picks picks (ps_data st)) else None) /\
      (preload self = true -> _data self' = Some (ps_data st))).
Proof.
  intros Hbd. unfold _get_data. rewrite Hbd. cbv zeta. rewrite length_seq.
  destruct (List.length (events self) =? List.length (selection self)) eqn:Hlen; simpl.
  2: { intros Hr; inversion Hr; subst. left; eauto. }
  apply Nat.eqb_eq in Hlen.
  destruct (rejection_loop self out _ 0 (selection self)) as [e|st] eqn:Hloop.
  { intros Hr; inversion Hr; subst. left; eauto. }
  intros Hr. right. exists st. split; [reflexivity|]. split; [exact Hlen|].
  clear Hloop Hlen.
  destruct self; simpl in *.
  repeat match goal with b : bool |- _ => destruct b end;
    simpl in *; inversion Hr; subst; simpl; repeat split; auto; discriminate.
Qed.

(** Once the bad epochs are dropped, [_get_data] only reads. *)
Lemma _get_data_dropped (self : Epochs) out picks item :
  _bad_dropped self = true ->
  snd (_get_data out picks item self) = self.
Proof.
  intros Hbd. unfold _get_data. rewrite Hbd. cbv zeta.
  destruct item as [select|].
  - destruct (fancy_index (seq 0 (List.length (events self))) select); [reflexivity|].
    destruct (negb out); [reflexivity|].
    destruct (preload self).
    + destruct (_data self) as [d|]; [|reflexivity].
      destruct (fancy_index d select); reflexivity.
    + destruct (reload_loop self l); reflexivity.
  - destruct (negb out); [reflexivity|].
    destruct (preload self).
    + destruct (_data self) as [d|]; reflexivity.
    + destruct (reload_loop self _); reflexivity.
Qed.

Lemma _get_data_item_not_dropped (self : Epochs) out picks select :
  _bad_dropped self = false ->
  _get_data out picks (Some select) self = (inl (ValueError ItemMustBeNone), self).
Proof. intros Hbd. unfold _get_data. rewrite Hbd. reflexivity. Qed.

(** The tables stay well-formed across [_get_data]. *)
Lemma _get_data_tables (self : Epochs) out picks item :
  TablesOK self -> TablesOK (snd (_get_data out picks item self)).
Proof.
  intros Hok. destruct (_bad_dropped self) eqn:Hbd.
  { rewrite _get_data_dropped by assumption. exact Hok. }
  destruct item as [select|].
  { rewrite _get_data_item_not_dropped by assumption. exact Hok. }
  destruct (_get_data out picks None self) as [r self'] eqn:Hg. simpl.
  apply _get_data_pass_result in Hg; [|assumption].
  destruct Hg as [[e [_ ->]] | [st [Hloop [_ [Hsel [_ [Hlog _]]]]]]]; [exact Hok|].
  destruct Hok as [Hnd Hiff].
  destruct (rejection_loop_spec _ _ _ _ _ _ Hnd Hloop) as [g [Hg [Hgnd [_ [Hout Hin]]]]].
  simpl in Hg, Hout, Hin. split.
  - rewrite Hsel. apply NoDup_take_idx; [assumption | rewrite Hg; assumption].
  - intros k. rewrite Hsel, Hlog, Hg, In_take_idx. split.
    + intros [i [Hi Hk]].
      destruct (Hin i k Hk) as [[_ [_ Heq]] | [Hni _]]; [|contradiction].
      rewrite Heq. apply Hiff. eapply nth_error_In; eauto.
    + intros Hk.
      destruct (in_dec Nat.eq_dec k (selection self)) as [Hks|Hks].
      * destruct (In_nth_error _ _ Hks) as [i Hi].
        destruct (Hin i k Hi) as [[Hig _] | [_ [old [rs [_ [_ [Hne Hnew]]]]]]].
        -- exists i. auto.
        -- rewrite Hnew in Hk. inversion Hk as [Hnil].
           apply app_eq_nil in Hnil. tauto.
      * rewrite Hout in Hk by assumption. apply Hiff in Hk. contradiction.
Qed.

Lemma _get_data_lengths (self : Epochs) out picks item :
  List.length (selection self) = List.length (events self) ->
  List.length (selection (snd (_get_data out picks item self)))
  = List.length (events (snd (_get_data out picks item self))).
Proof.
  intros Hlen. destruct (_bad_dropped self) eqn:Hbd.
  { rewrite _get_data_dropped by assumption. exact Hlen. }
  destruct item as [select|].
  { rewrite _get_data_item_not_dropped by assumption. exact Hlen. }
  destruct (_get_data out picks None self) as [r self'] eqn:Hg. simpl.
  apply _get_data_pass_result in Hg; [|assumption].
  destruct Hg as [[e [_ ->]] | [st [_ [_ [Hsel [Hev _]]]]]]; [exact Hlen|].
  rewrite Hsel, Hev. apply length_take_idx. exact Hlen.
Qed.

Lemma _get_data_consistent (self : Epochs) out picks item :
  Consistent self -> Consistent (snd (_get_data out picks item self)).
Proof.
  intros [Hlen Hok]. split; [apply _get_data_lengths | apply _get_data_tables];
    assumption.
Qed.

(** A pass that returns has dropped the bad epochs. *)
Lemma _get_data_sets_flag (self self' : Epochs) out picks x :
  _get_data out picks None self = (inr x, self') -> _bad_dropped self' = true.
Proof.
  intros Hg. destruct (_bad_dropped self) eqn:Hbd.
  - pose proof (_get_data_dropped self out picks None Hbd) as Hs.
    rewrite Hg in Hs. simpl in Hs. subst. exact Hbd.
  - apply _get_data_pass_result in Hg; [|assumption].
    destruct Hg as [[e [He _]] | [st [_ [_ [_ [_ [_ [Hflag _]]]]]]]];
      [discriminate | exact Hflag].
Qed.

End Materialization.

(* ================================================================== *)
(** * The methods keep the collection consistent *)
(* ================================================================== *)

Lemma preserves_ret {A} (P : Epochs -> Prop) (a : A) : preserves P (ret a).
Proof. intros self HP. exact HP. Qed.

Lemma preserves_raise {A} (P : Epochs -> Prop) (e : Exn) :
  preserves P (@raise A e).
Proof. intros self HP. exact HP. Qed.

Lemma preserves_lift {A} (P : Epochs -> Prop) (r : Exc A) : preserves P (lift r).
Proof. intros self HP. exact HP. Qed.

Lemma preserves_get_self (P : Epochs -> Prop) : preserves P get_self.
Proof. intros self HP. exact HP. Qed.

Lemma preserves_bind {A B} (P : Epochs -> Prop) (m : M A) (k : A -> M B) :
  preserves P m -> (forall a, preserves P (k a)) -> preserves P (bind m k).
Proof.
  intros Hm Hk self HP. unfold bind.
  specialize (Hm self HP).
  destruct (m self) as [[e|a] self1]; simpl in *; [exact Hm|].
  apply Hk. exact Hm.
Qed.

Lemma consistent_same_tables (self self' : Epochs) :
  events self' = events self ->
  selection self' = selection self ->
  drop_log self' = drop_log self ->
  Consistent self -> Consistent self'.
Proof.
  unfold Consistent, TablesOK. intros -> -> ->. tauto.
Qed.

Lemma tables_ok_same (self self' : Epochs) :
  selection self' = selection self ->
  drop_log self' = drop_log self ->
  TablesOK self -> TablesOK self'.
Proof. unfold TablesOK. intros -> ->. tauto. Qed.

(** [_reject_setup] never touches the tables. *)
Lemma _reject_setup_tables (new_reject new_flat : option (dict Q)) (self : Epochs) :
  let self' := snd (_reject_setup new_reject new_flat self) in
  events self' = events self /\
  selection self' = selection self /\
  drop_log self' = drop_log self.
Proof.
  unfold _reject_setup.
  destruct (check_thresholds _ _ _); [simpl; auto|].
  destruct (check_stringency _ _ _ _); [simpl; auto|].
  destruct (reject_window _ _ _); destruct self; simpl; auto.
Qed.

Lemma _reject_setup_consistent (new_reject new_flat : option (dict Q)) :
  preserves Consistent (_reject_setup new_reject new_flat).
Proof.
  intros self Hc.
  destruct (_reject_setup_tables new_reject new_flat self) as [He [Hs Hl]].
  eapply consistent_same_tables; eauto.
Qed.

Lemma drop_consistent (indices : Indices) (reason : string) :
  preserves Consistent (drop indices reason).
Proof.
  intros self Hc. unfold drop.
  destruct (filter _ _); [|exact Hc].
  apply _getitem_Some_consistent; [apply NoDup_setdiff1d | exact Hc].
Qed.

Lemma reset_drop_log_selection_consistent :
  preserves Consistent reset_drop_log_selection.
Proof.
  intros self _. unfold reset_drop_log_selection.
  match goal with
  | |- Consistent (snd (if _ then (_, ?s1) else (_, ?s1))) =>
      assert (Hc : Consistent s1); [|destruct (_check_consistency s1); exact Hc]
  end.
  destruct self; unfold Consistent, TablesOK; simpl.
  split; [apply length_seq|]. split; [apply seq_NoDup|].
  intros k. rewrite in_seq. split.
  - intros [_ Hk]. apply nth_error_repeat. lia.
  - intros Hk. split; [lia|].
    match type of Hk with
    | nth_error ?l k = _ =>
        assert (Hlt : (k < List.length l)%nat) by (apply nth_error_Some; congruence)
    end.
    rewrite repeat_length in Hlt. lia.
Qed.

Section MethodsConsistent.

Context `{Collaborators}.

Lemma _get_data_preserves out picks item :
  preserves Consistent (_get_data out picks item).
Proof. intros self Hc. apply _get_data_consistent. exact Hc. Qed.

Lemma drop_bad_consistent (reject_arg flat_arg : RejectArg) :
  preserves Consistent (drop_bad reject_arg flat_arg).
Proof.
  intros self Hc. unfold drop_bad.
  match goal with |- context [if ?b then _ else _] => destruct b end;
    [exact Hc|].
  cbv zeta.
  refine (preserves_bind Consistent _ _ _ _ self Hc);
    [apply _reject_setup_consistent|].
  intros _. apply preserves_bind; [apply _get_data_preserves|].
  intros _. apply preserves_ret.
Qed.

Lemma load_data_consistent : preserves Consistent load_data.
Proof.
  intros self Hc. unfold load_data.
  destruct (preload self); [exact Hc|].
  pose proof (_get_data_consistent self true None None Hc) as Hc1.
  destruct (_get_data true None None self) as [[e|data] self1]; simpl in *;
    [exact Hc1|].
  eapply consistent_same_tables; [| | |exact Hc1]; destruct self1; reflexivity.
Qed.

Lemma equalize_event_counts_consistent event_ids method :
  preserves Consistent (equalize_event_counts event_ids method).
Proof.
  unfold equalize_event_counts. destruct event_ids as [|ids rest].
  - apply preserves_raise.
  - apply preserves_bind; [apply preserves_get_self|]. intros self0.
    apply preserves_bind.
    { destruct (_bad_dropped self0); [apply preserves_ret | apply drop_bad_consistent]. }
    intros _. apply preserves_bind; [apply preserves_get_self|]. intros self.
    apply preserves_bind.
    { destruct (existsb _ _); [apply preserves_lift | apply preserves_ret]. }
    intros event_ids'. apply preserves_bind; [apply preserves_lift|]. intros eq_inds.
    apply preserves_bind; [apply preserves_lift|]. intros indices.
    apply preserves_bind; [apply drop_consistent|]. intros _.
    apply preserves_ret.
Qed.

End MethodsConsistent.

(* ================================================================== *)
(** * Construction establishes the data model *)
(* ================================================================== *)

Lemma _merge_events_selection events event_id selection new_events event_id' sel' :
  _merge_events events event_id selection = inr (new_events, event_id', sel') ->
  exists to_delete, sel' = np_delete selection to_delete.
Proof.
  unfold _merge_events, exc_bind.
  destruct (fold_left _ _ _) as [e|st]; [discriminate|].
  intros Hm; inversion Hm; subst. eauto.
Qed.

(** Handling repeated events keeps the tables well-formed. *)
Lemma _handle_event_repeated_tables events event_id policy sel log
      events' event_id' sel' log' :
  _handle_event_repeated events event_id policy sel log
  = inr (events', event_id', sel', log') ->
  NoDup sel ->
  (forall k, In k sel <-> nth_error log k = Some []) ->
  NoDup sel' /\ (forall k, In k sel' <-> nth_error log' k = Some []).
Proof.
  unfold _handle_event_repeated, exc_bind. intros Hh Hnd Hiff.
  destruct (negb _); [discriminate|].
  destruct (_ =? _)%nat.
  { inversion Hh; subst. auto. }
  destruct policy.
  - discriminate.
  - (* drop *)
    destruct (extend_drop_log log _ _) as [e|log1] eqn:He; [discriminate|].
    inversion Hh; subst. split.
    + apply NoDup_take_idx; [assumption | apply NoDup_np_unique_index].
    + apply (tables_after_removal sel _ log); [assumption | |].
      * intros k. apply take_idx_incl.
      * assert (Hne : ["DROP DUPLICATE"] <> @nil string) by discriminate.
        intros k. rewrite (extend_drop_log_spec _ _ _ _ Hne He k).
        rewrite In_setdiff1d. tauto.
  - (* merge *)
    destruct (_merge_events events event_id sel) as [e|[[ne eid2] sel2]] eqn:Hm;
      [discriminate|].
    destruct (extend_drop_log log _ _) as [e|log1] eqn:He; [discriminate|].
    inversion Hh; subst.
    destruct (_merge_events_selection _ _ _ _ _ _ Hm) as [to_delete ->]. split.
    + apply NoDup_np_delete. assumption.
    + apply (tables_after_removal sel _ log); [assumption | |].
      * intros k. apply In_np_delete_from.
      * assert (Hne : ["MERGE DUPLICATE"] <> @nil string) by discriminate.
        intros k. rewrite (extend_drop_log_spec _ _ _ _ Hne He k).
        rewrite In_setdiff1d. tauto.
Qed.

Lemma fold_left_max_ge (l : list nat) (x0 : nat) :
  (x0 <= fold_left Nat.max l x0)%nat /\
  forall y, In y l -> (y <= fold_left Nat.max l x0)%nat.
Proof.
  revert x0. induction l as [|x t IH]; intros x0; simpl.
  - split; [lia | contradiction].
  - destruct (IH (Nat.max x0 x)) as [H1 H2]. split; [lia|].
    intros y [<-|Hy]; [lia | auto].
Qed.

(** The drop log that [__init__] generates marks exactly [selection]. *)
Lemma generated_drop_log (sel : list nat) (n : nat) :
  (forall k, In k sel -> k < n)%nat ->
  forall k, In k sel <->
            nth_error (map (fun k => if mem_nat k sel then [] else ["IGNORED"])
                           (seq 0 n)) k = Some [].
Proof.
  intros Hrange k. split.
  - intros Hk. rewrite nth_error_map, nth_error_seq.
    apply Hrange in Hk as Hlt. apply Nat.ltb_lt in Hlt. rewrite Hlt. simpl.
    apply mem_nat_In in Hk. rewrite Hk. reflexivity.
  - rewrite nth_error_map, nth_error_seq.
    destruct (k <? n)%nat; simpl; [|discriminate].
    destruct (mem_nat k sel) eqn:E; [|discriminate].
    intros _. apply mem_nat_In. exact E.
Qed.

Lemma init_event_table_tables (a : InitArgs) events event_id sel log md :
  init_event_table (arg_events a) (arg_event_id a) (arg_on_missing a)
                   (arg_selection a) (arg_drop_log a) (arg_metadata a)
                   (arg_event_repeated a)
  = inr (events, event_id, sel, log, md) ->
  caller_tables_ok a ->
  NoDup sel /\ (forall k, In k sel <-> nth_error log k = Some []).
Proof.
  unfold init_event_table, caller_tables_ok, initial_selection, exc_bind.
  intros Hi [Hnd Hlog].
  destruct (flat_map _ (arg_events a)); [discriminate|].
  destruct (_ >? INT32_MAX); [discriminate|].
  match type of Hi with
  | match ?m with Some _ => _ | None => _ end = _ => destruct m as [[? ?]|]
  end; [discriminate|].
  set (sel0 := match arg_selection a with
               | Some s => s
               | None => nonzero _ (arg_events a)
               end) in *.
  destruct (negb _); [discriminate|].
  match type of Hi with
  | match ?m with inl _ => _ | inr _ => _ end = _ => destruct m as [e|log0] eqn:Hlog0
  end; [discriminate|].
  destruct (_handle_event_repeated _ _ _ sel0 log0)
    as [e|[[[ev2 eid2] sel2] log2]] eqn:Hh; [discriminate|].
  match type of Hi with
  | match ?m with inl _ => _ | inr _ => _ end = _ => destruct m as [e|md2]
  end; [discriminate|].
  destruct (0 <? _)%nat; [|discriminate].
  inversion Hi; subst.
  apply (_handle_event_repeated_tables _ _ _ _ _ _ _ _ _ Hh Hnd).
  destruct (arg_drop_log a) as [dl|].
  - inversion Hlog0; subst. exact Hlog.
  - destruct sel0 as [|s0 ss] eqn:Esel; [discriminate|].
    inversion Hlog0; subst. apply generated_drop_log.
    intros k Hk. destruct (fold_left_max_ge ss s0) as [H0 Hs].
    destruct Hk as [<-|Hk]; [lia | apply Hs in Hk; lia].
Qed.

Section Construction.

Context `{Collaborators}.

Lemma load_data_tables (self : Epochs) :
  TablesOK self -> TablesOK (snd (load_data self)).
Proof.
  intros Hok. unfold load_data.
  destruct (preload self); [exact Hok|].
  pose proof (_get_data_tables self true None None Hok) as Hok1.
  destruct (_get_data true None None self) as [[e|data] self1]; simpl in *;
    [exact Hok1|].
  eapply tables_ok_same; [| |exact Hok1]; destruct self1; reflexivity.
Qed.

(** Every object that [__init__] returns is consistent. *)
Lemma __init___consistent (a : InitArgs) (self : Epochs) :
  __init__ a = inr self -> caller_tables_ok a -> Consistent self.
Proof.
  unfold __init__, exc_bind. intros Hi Hcaller.
  destruct (init_event_table _ _ _ _ _ _ _)
    as [e|[[[[ev eid] sel] log] md]] eqn:Ht; [discriminate|].
  pose proof (init_event_table_tables a _ _ _ _ _ Ht Hcaller) as Htab.
  match type of Hi with (if ?b then _ else _) = _ => destruct b end;
    [discriminate|].
  destruct (check_data a (List.length ev)); [discriminate|].
  destruct (Qltb (arg_tmax a) (arg_tmin a)); [discriminate|].
  destruct (check_reject_interval _ _ _ _ _ _) as [e|w]; [discriminate|].
  destruct (arg_decim a =? 0)%nat; [discriminate|].
  match type of Hi with
  | match _reject_setup ?r ?f ?s0 with _ => _ end = _ =>
      pose proof (_reject_setup_tables r f s0) as Hrs;
      destruct (_reject_setup r f s0) as [[e|[]] self1]; [discriminate|];
      assert (Hok1 : TablesOK self1)
  end.
  { simpl in Hrs. destruct Hrs as [_ [Hs Hl]].
    unfold TablesOK. rewrite Hs, Hl. simpl. exact Htab. }
  clear Hrs.
  assert (Hfinal : forall self2,
             _check_consistency self2 = true -> TablesOK self2 -> Consistent self2).
  { intros self2 Hchk Hok2. split; [|exact Hok2].
    unfold _check_consistency in Hchk.
    rewrite !andb_true_iff, Nat.eqb_eq in Hchk. tauto. }
  destruct (arg_preload_at_end a).
  - destruct (arg_data a); [discriminate|].
    pose proof (load_data_tables self1 Hok1) as Hok2.
    destruct (load_data self1) as [[e|[]] self2]; [discriminate|]. simpl in Hok2.
    destruct (_check_consistency self2) eqn:Hchk; inversion Hi; subst. auto.
  - match type of Hi with
    | match ?m with inl _ => _ | inr _ => _ end = _ =>
        assert (Hm : exists self2, m = inr self2 /\ TablesOK self2)
    end.
    { destruct (arg_proj a), (_projector self1), (_data self1);
        eexists; (split; [reflexivity|]); try exact Hok1.
      eapply tables_ok_same; [| |exact Hok1]; destruct self1; reflexivity. }
    destruct Hm as [self2 [Hm Hok2]]. rewrite Hm in Hi.
    destruct (_check_consistency self2) eqn:Hchk; inversion Hi; subst. auto.
Qed.

(** Consistency is an invariant of the observable states. *)
Lemma reachable_consistent (self : Epochs) : reachable self -> Consistent self.
Proof.
  induction 1 as [a self Hi Hc | self indices reason _ IH | self r f _ IH
                  | self out picks item _ IH | self _ IH | self _ IH
                  | self ids m _ IH].
  - eapply __init___consistent; eauto.
  - apply drop_consistent; exact IH.
  - apply drop_bad_consistent; exact IH.
  - apply _get_data_consistent; exact IH.
  - apply load_data_consistent; exact IH.
  - apply reset_drop_log_selection_consistent; exact IH.
  - apply equalize_event_counts_consistent; exact IH.
Qed.

End Construction.

(* ================================================================== *)
(** * The invariant of the collection *)
(* ================================================================== *)




(* ================================================================== *)
(** * Dropping bad epochs twice *)
(* ================================================================== *)

Lemma drop_bad_existing_noop `{Collaborators} (self : Epochs) :
  _bad_dropped self = true ->
  drop_bad Existing Existing self = (inr tt, self).
Proof. intros Hbd. unfold drop_bad. rewrite Hbd. reflexivity. Qed.

Lemma drop_bad_sets_flag `{Collaborators} (self self1 : Epochs) reject_arg flat_arg :
  drop_bad reject_arg flat_arg self = (inr tt, self1) ->
  _bad_dropped self1 = true.
Proof.
  unfold drop_bad.
  match goal with |- context [if ?b then _ else _] => destruct b eqn:Hearly end.
  - intros Hd; inversion Hd; subst.
    destruct reject_arg, flat_arg; try discriminate. exact Hearly.
  - cbv zeta. unfold bind.
    match goal with
    | |- context [_reject_setup ?r ?f self] =>
        destruct (_reject_setup r f self) as [[e|[]] s1]
    end; [discriminate|].
    destruct (_get_data false None None s1) as [[e|x] s2] eqn:Hg; [discriminate|].
    unfold ret. intros Hd; inversion Hd; subst.
    eapply _get_data_sets_flag; eauto.
Qed.

(** C2. Once a call of [drop_bad] has completed, a second call with the
    thresholds left as they are ([reject='existing'], [flat='existing'])
    returns with the collection exactly as the first call left it: events,
    selection, drop log, data and every other attribute. *)
Theorem drop_bad_idempotent `{Collaborators} (self self1 : Epochs)
        (reject_arg flat_arg : RejectArg) :
  drop_bad reject_arg flat_arg self = (inr tt, self1) ->
  _bad_dropped self1 = true /\
  drop_bad Existing Existing self1 = (inr tt, self1).
Proof.
  intros Hd. apply drop_bad_sets_flag in Hd.
  split; [exact Hd | apply drop_bad_existing_noop; exact Hd].
Qed.

Lemma drop_bad_idempotent_witness :
  let once := snd (drop_bad (H := table_source []) Existing Existing three_epochs) in
  drop_bad (H := table_source []) Existing Existing three_epochs = (inr tt, once) /\
  _bad_dropped once = true /\
  drop_bad (H := table_source []) Existing Existing once = (inr tt, once).
Proof.
  intros once.
  assert (Hfirst : drop_bad (H := table_source []) Existing Existing three_epochs
                   = (inr tt, once)) by (vm_compute; reflexivity).
  split; [exact Hfirst|].
  exact (drop_bad_idempotent (H := table_source []) three_epochs once
                             Existing Existing Hfirst).
Defined.

(* ================================================================== *)
(** * Thresholds may only be tightened *)
(* ================================================================== *)

Lemma Qltb_lt (a b : Q) : Qltb a b = true <-> (a < b)%Q.
Proof.
  unfold Qltb. rewrite negb_true_iff, <- not_true_iff_false, Qle_bool_iff.
  split; [apply Qnot_le_lt | apply Qlt_not_le].
Qed.

Lemma Qltb_ge (a b : Q) : Qltb a b = false <-> (b <= a)%Q.
Proof.
  unfold Qltb. rewrite negb_false_iff. apply Qle_bool_iff.
Qed.









(* ================================================================== *)
(** * [drop] checks its indices before it changes anything *)
(* ================================================================== *)

Lemma filter_none {A} (f : A -> bool) (l : list A) :
  (forall x, In x l -> f x = false) -> filter f l = [].
Proof.
  induction l as [|x t IH]; simpl; [reflexivity|]. intros Hall.
  rewrite (Hall x (or_introl eq_refl)). apply IH. intros y Hy. apply Hall. now right.
Qed.

Lemma out_of_bounds_iff (n i : Z) :
  (from_end n i <? 0) || (n <=? from_end n i) = false <-> 0 <= from_end n i < n.
Proof.
  rewrite orb_false_iff, Z.ltb_ge, Z.leb_gt. tauto.
Qed.

(** C10. With [n = len(events)] and negative entries of [indices] shifted
    by [n]: if some shifted entry lies outside [0, n), [drop] raises
    [IndexError] (reporting the first such entry) and the collection is
    left exactly as it was; if all lie inside, [drop] hands the complement
    of the shifted positions to [_getitem], so that a negative entry [i]
    removes the epoch at position [n + i], and the call is the same as the
    one with the shifted, non-negative entries. *)
Theorem drop_bounds_checked (self : Epochs) (indices : Indices) (reason : string) :
  let n := Z.of_nat (List.length (events self)) in
  let l := index_list indices in
  ((exists i, In i l /\ ~ (0 <= from_end n i < n)) ->
   exists first,
     drop indices reason self = (inl (IndexError first), self) /\
     In first l /\ ~ (0 <= from_end n first < n))
  /\
  ((forall i, In i l -> 0 <= from_end n i < n) ->
   drop indices reason self
   = _getitem (setdiff1d (seq 0 (List.length (events self)))
                         (map (fun i => Z.to_nat (from_end n i)) l))
              (Some reason) true self
   /\
   drop indices reason self
   = drop (IntIndices (map (from_end n) l)) reason self).
Proof.
  intros n l.
  set (oob := fun i : Z => (from_end n i <? 0) || (n <=? from_end n i)).
  assert (Hdrop : forall ind : Indices,
             drop ind reason self
             = match filter oob (index_list ind) with
               | first :: _ => (inl (IndexError first), self)
               | [] => _getitem (setdiff1d (seq 0 (List.length (events self)))
                                           (map (fun i => Z.to_nat (from_end n i))
                                                (index_list ind)))
                                (Some reason) true self
               end).
  { intros ind. unfold drop. fold n. rewrite map_map. reflexivity. }
  assert (Hfilter : forall l' : list Z,
             (forall i, In i l' -> 0 <= from_end n i < n) -> filter oob l' = []).
  { intros l' Hall. apply filter_none. intros i Hi.
    apply (out_of_bounds_iff n i). auto. }
  split.
  - intros [i [Hi Hout]]. rewrite Hdrop. fold l.
    destruct (filter oob l) as [|first rest] eqn:Ef.
    + exfalso. apply Hout. apply out_of_bounds_iff.
      destruct (oob i) eqn:E; [|exact E].
      assert (Hin : In i (filter oob l)) by (apply filter_In; auto).
      rewrite Ef in Hin. contradiction.
    + exists first. split; [reflexivity|].
      assert (Hin : In first (filter oob l)) by (rewrite Ef; now left).
      apply filter_In in Hin. destruct Hin as [Hl Hb].
      split; [exact Hl|]. intros Hc. apply out_of_bounds_iff in Hc.
      unfold oob in Hb. congruence.
  - intros Hall.
    assert (Hidem : forall i, In i l -> from_end n (from_end n i) = from_end n i).
    { intros i Hi. specialize (Hall i Hi). unfold from_end at 1.
      destruct (from_end n i <? 0) eqn:E; [apply Z.ltb_lt in E; lia | reflexivity]. }
    rewrite !Hdrop. fold l. simpl index_list. rewrite (Hfilter l Hall).
    split; [reflexivity|].
    rewrite Hfilter.
    + rewrite map_map. f_equal. f_equal. apply map_ext_in.
      intros i Hi. rewrite Hidem by assumption. reflexivity.
    + intros j Hj. apply in_map_iff in Hj. destruct Hj as [i [<- Hi]].
      rewrite Hidem by assumption. auto.
Qed.

(** On the three-epoch collection: index [-4] is out of bounds and leaves
    the collection untouched; index [-1] removes the last epoch. *)
Lemma drop_bounds_checked_witness :
  (exists first,
      drop (IntIndices [-4]) "USER" three_epochs
      = (inl (IndexError first), three_epochs) /\
      In first [-4] /\ ~ (0 <= from_end 3 first < 3))
  /\
  drop (IntIndices [-1]) "USER" three_epochs
  = drop (IntIndices [2]) "USER" three_epochs
  /\
  events (snd (drop (IntIndices [-1]) "USER" three_epochs)) = [(10, 0, 1); (20, 0, 2)].
Proof.
  split; [|split].
  - apply (proj1 (drop_bounds_checked three_epochs (IntIndices [-4]) "USER")).
    exists (-4). split; [now left|]. vm_compute. intros [Hc _]. apply Hc. reflexivity.
  - apply (proj2 (drop_bounds_checked three_epochs (IntIndices [-1]) "USER")).
    intros i [<-|[]]. vm_compute. split; [discriminate | reflexivity].
  - vm_compute. reflexivity.
Defined.

(* ================================================================== *)
(** * Delayed projection *)
(* ================================================================== *)

(** C7, as the code has it. In delayed-projection mode the full rejection
    pass judges every epoch on its projected values and keeps the
    un-projected ones. For each position of the collection, the epoch
    handed to the rejection policy is [_project_epoch] of the un-projected
    epoch ([np.dot(projector, epoch)] whenever a projector exists), the
    un-projected epoch being the row held in memory or the detrended and
    decimated epoch fetched from the source; the position is retained
    exactly when that verdict is good. The epochs that the pass stores in
    the collection and returns to the caller are the un-projected epochs of
    the retained positions, in order. *)
Theorem delayed_projection_rejects_projected `{Collaborators}
        (self self' : Epochs) (out : bool) (picks : option (list nat))
        (r : option (list Epoch)) :
  _do_delayed_proj self = true ->
  _bad_dropped self = false ->
  _get_data out picks None self = (inr r, self') ->
  exists (good : list nat) (kept : list Epoch),
    (forall i, (i < List.length (selection self))%nat ->
       exists epoch_noproj verdict,
         rejection_candidates self i
         = inr (_project_epoch self epoch_noproj, epoch_noproj) /\
         (preload self = true ->
          exists d row, _data self = Some d /\ nth_error d i = Some row /\
                        epoch_noproj = EpochData row) /\
         (preload self = false ->
          epoch_noproj = _detrend_offset_decim self (_get_epoch_from_raw self i)
                                               (_detrend_picks self)) /\
         (forall projector e,
             _projector self = Some projector -> epoch_noproj = EpochData e ->
             _project_epoch self epoch_noproj = EpochData (np_dot projector e)) /\
         _is_good_epoch self (_project_epoch self epoch_noproj) = inr verdict /\
         (In i good <-> fst verdict = true)) /\
    selection self' = take_idx (selection self) good /\
    events self' = take_idx (events self) good /\
    (out || preload self = true ->
     Forall2 (fun i e =>
                rejection_candidates self i
                = inr (_project_epoch self (EpochData e), EpochData e))
             good kept) /\
    (out = true -> r = Some (apply_picks picks kept)) /\
    (preload self = true -> _data self' = Some kept).
Proof.
  intros Hdelayed Hbd Hg.
  assert (Hcand : forall i epoch epoch_out,
             rejection_candidates self i = inr (epoch, epoch_out) ->
             epoch = _project_epoch self epoch_out /\
             (preload self = true ->
              exists d row, _data self = Some d /\ nth_error d i = Some row /\
                            epoch_out = EpochData row) /\
             (preload self = false ->
              epoch_out = _detrend_offset_decim self (_get_epoch_from_raw self i)
                                                (_detrend_picks self))).
  { intros i epoch epoch_out Hc.
    unfold rejection_candidates in Hc. rewrite Hdelayed in Hc.
    destruct (preload self).
    - destruct (_data self) as [d|]; [|discriminate].
      destruct (nth_error d i) as [row|] eqn:Hrow; [|discriminate].
      inversion Hc; subst. split; [reflexivity|]. split; [|discriminate].
      intros _. exists d, row. auto.
    - inversion Hc; subst. split; [reflexivity|]. split; [discriminate|].
      intros _. reflexivity. }
  apply _get_data_pass_result in Hg; [|exact Hbd].
  destruct Hg as [[e [He _]] | [st [Hloop [_ [Hsel [Hev [_ [_ [Hr Hstored]]]]]]]]];
    [discriminate|].
  destruct (rejection_loop_data _ _ _ _ _ _ Hloop)
    as [g [data [Hgood [_ [Hall [Hdata [Hkept Hnone]]]]]]].
  simpl in Hgood, Hdata. rewrite Hgood in Hsel, Hev. rewrite Hdata in Hr, Hstored.
  exists g, data. split; [|split; [exact Hsel|split; [exact Hev|split; [|split]]]].
  - intros i Hi. destruct (Hall i Hi) as [epoch [epoch_out [v [Hc [Hv Hin]]]]].
    simpl in Hc, Hin. destruct (Hcand i epoch epoch_out Hc) as [Hp [Hmem Hraw]].
    subst epoch. exists epoch_out, v.
    split; [exact Hc|]. split; [exact Hmem|]. split; [exact Hraw|].
    split; [|split; [exact Hv | exact Hin]].
    intros projector e Hproj ->. simpl. rewrite Hproj, Hdelayed. reflexivity.
  - intros Hkeep. specialize (Hkept Hkeep).
    eapply Forall2_impl; [|exact Hkept].
    intros i e [epoch Hc]. destruct (Hcand i epoch _ Hc) as [-> _]. exact Hc.
  - intros ->. inversion Hr. reflexivity.
  - exact Hstored.
Qed.

Lemma delayed_projection_rejects_projected_witness :
  let unprojected := [[0#1; 10#1]; [0#1; 10#1]]%Q in
  let after := snd (_get_data (H := table_source []) true None None delayed_epochs) in
  _do_delayed_proj delayed_epochs = true /\
  _bad_dropped delayed_epochs = false /\
  _get_data (H := table_source []) true None None delayed_epochs
  = (inr (Some [unprojected]), after) /\
  exists (good : list nat) (kept : list Epoch),
    selection after = take_idx (selection delayed_epochs) good /\
    Some [unprojected] = Some (apply_picks None kept) /\
    _data after = Some kept.
Proof.
  intros unprojected after.
  assert (Hd : _do_delayed_proj delayed_epochs = true) by (vm_compute; reflexivity).
  assert (Hbd : _bad_dropped delayed_epochs = false) by (vm_compute; reflexivity).
  assert (Hg : _get_data (H := table_source []) true None None delayed_epochs
               = (inr (Some [unprojected]), after)) by (vm_compute; reflexivity).
  split; [exact Hd|]. split; [exact Hbd|]. split; [exact Hg|].
  destruct (delayed_projection_rejects_projected (H := table_source [])
              delayed_epochs after true None (Some [unprojected]) Hd Hbd Hg)
    as [good [kept [_ [Hsel [_ [_ [Hr Hstored]]]]]]].
  exists good, kept. split; [exact Hsel|].
  split; [apply Hr; reflexivity | apply Hstored; vm_compute; reflexivity].
Defined.

(** C7 as stated fails: under delayed projection with an average reference
    over two channels, an epoch whose un-projected amplitude (10 on both
    channels) is above the reject threshold (5) is judged on its projected
    values, which are all zero, and kept; the data held afterwards are the
    un-projected ones. *)
Lemma delayed_projection_counterexample :
  let unprojected := [[0#1; 10#1]; [0#1; 10#1]]%Q in
  __init__ (H := table_source []) delayed_args = inr delayed_epochs /\
  _do_delayed_proj delayed_epochs = true /\
  _projector delayed_epochs = Some average_reference /\
  _data delayed_epochs = Some [unprojected] /\
  rejection_candidates (H := table_source []) delayed_epochs 0
  = inr (EpochData (np_dot average_reference unprojected), EpochData unprojected) /\
  Forall (Forall (fun x => (x == 0)%Q)) (np_dot average_reference unprojected) /\
  _is_good_epoch (H := table_source []) delayed_epochs (EpochData unprojected)
  = inr (false, Some ["EEG 001"; "EEG 002"]) /\
  pass_verdict (H := table_source []) delayed_epochs 0 = Some (true, None) /\
  (let after := snd (drop_bad (H := table_source []) Existing Existing delayed_epochs) in
   drop_bad (H := table_source []) Existing Existing delayed_epochs = (inr tt, after) /\
   selection after = [0%nat] /\ drop_log after = [[]] /\
   _data after = Some [unprojected]).
Proof.
  vm_compute. repeat split; try reflexivity.
  repeat constructor; reflexivity.
Qed.

(* ================================================================== *)
(** * Rejection is not an error *)
(* ================================================================== *)

Section RejectionCompletes.

Context `{Collaborators}.
Local Open Scope nat_scope.

Lemma _get_data_pass_returns (self : Epochs) out picks st :
  _bad_dropped self = false ->
  List.length (events self) = List.length (selection self) ->
  rejection_loop self out (mkPassState [] (drop_log self) []) 0 (selection self)
  = inr st ->
  exists self',
    _get_data out picks None self
    = (inr (if out then Some (apply_picks picks (ps_data st)) else None), self').
Proof.
  intros Hbd Hlen Hloop. unfold _get_data. rewrite Hbd. cbv zeta.
  rewrite length_seq, Hlen, Nat.eqb_refl. simpl negb. cbv iota.
  rewrite Hloop.
  match goal with
  | |- context [_getitem ?g None false ?s2] =>
      destruct (_getitem_None g false s2) as [s3 [Hg _]]; rewrite Hg
  end.
  destruct out; eauto.
Qed.

(** C9, as the code has it. On a consistent collection the full rejection
    pass returns normally as soon as the verdict of every epoch can be
    computed, i.e. the epoch can be fetched and the rejection policy itself
    does not raise (it raises [ValueError] on an empty rejection window,
    [KeyError] or [IndexError] on channel tables that do not fit the data):
    every epoch with a good verdict stays selected with an empty drop-log
    entry, every epoch with a bad verdict leaves the selection with its
    reasons recorded in the drop log, the other entries of the drop log are
    untouched, and the collection stays consistent. This holds whatever the
    number of good epochs: when every verdict is bad the pass still returns
    and leaves an empty collection. When the verdict of some epoch cannot be
    computed, the pass raises and leaves the collection as it was. *)
Theorem rejection_pass_completes (self : Epochs) :
  Consistent self ->
  _bad_dropped self = false ->
  ((forall i, i < List.length (selection self) ->
              exists verdict, pass_verdict self i = Some verdict) ->
   exists self',
     _get_data false None None self = (inr None, self') /\
     _bad_dropped self' = true /\
     Consistent self' /\
     (forall i k, nth_error (selection self) i = Some k ->
        (exists t, pass_verdict self i = Some (true, t) /\
                   In k (selection self') /\
                   nth_error (drop_log self') k = Some [])
        \/
        (exists reasons, pass_verdict self i = Some (false, Some reasons) /\
                         reasons <> [] /\
                         ~ In k (selection self') /\
                         nth_error (drop_log self') k = Some reasons)) /\
     (forall k, ~ In k (selection self) ->
                nth_error (drop_log self') k = nth_error (drop_log self) k) /\
     ((forall i, i < List.length (selection self) ->
                 exists reasons, pass_verdict self i = Some (false, Some reasons)) ->
      events self' = [] /\ selection self' = []))
  /\
  (forall i, i < List.length (selection self) -> pass_verdict self i = None ->
             exists e, _get_data false None None self = (inl e, self)).
Proof.
  intros Hc Hbd. pose proof Hc as [Hlen [Hnd Hiff]]. split.
  2:{ intros i Hi Hv.
      destruct (rejection_loop_raises self false (selection self) 0
                  (mkPassState [] (drop_log self) []) i Hi Hv) as [e He].
      destruct (_get_data false None None self) as [r self'] eqn:Hg.
      apply _get_data_pass_result in Hg; [|exact Hbd].
      destruct Hg as [[e' [-> ->]] | [st [Hloop _]]]; [eauto | congruence]. }
  intros Hverdicts.
  destruct (rejection_loop_total self false (selection self) 0
                                 (mkPassState [] (drop_log self) []))
    as [st Hloop].
  { intros k Hk. simpl. apply Hiff in Hk. apply nth_error_Some. congruence. }
  { intros i Hi. simpl. apply Hverdicts. exact Hi. }
  destruct (_get_data_pass_returns self false None st Hbd (eq_sym Hlen) Hloop)
    as [self' Hg].
  exists self'. split; [exact Hg|].
  pose proof (_get_data_consistent self false None None Hc) as Hc'.
  rewrite Hg in Hc'. simpl in Hc'.
  pose proof Hg as Hres. apply _get_data_pass_result in Hres; [|assumption].
  destruct Hres as [[e [He _]] | [st' [Hloop' [_ [Hsel [Hev [Hlog [Hflag _]]]]]]]];
    [discriminate|].
  rewrite Hloop in Hloop'. inversion Hloop'; subst st'. clear Hloop'.
  destruct (rejection_loop_spec _ _ _ _ _ _ Hnd Hloop)
    as [g [Hgood [Hgnd [Hrange [Hout Hin]]]]].
  simpl in Hgood, Hout, Hin, Hrange. rewrite Hgood in Hsel, Hev.
  split; [exact Hflag|]. split; [exact Hc'|]. split; [|split].
  - intros i k Hk.
    assert (Hold : nth_error (drop_log self) k = Some [])
      by (apply Hiff; eapply nth_error_In; eauto).
    destruct (Hin i k Hk) as [[Hig [[t Hv] Hsame]] | [Hnig [old [rs [Ho [Hv [Hne Hnew]]]]]]].
    + left. exists t. split; [exact Hv|]. split.
      * rewrite Hsel. apply In_take_idx. eauto.
      * rewrite Hlog, Hsame. exact Hold.
    + right. exists rs. split; [exact Hv|]. split; [exact Hne|]. split.
      * rewrite Hsel, In_take_idx. intros [j [Hj Hjk]].
        assert (i = j).
        { apply (proj1 (NoDup_nth_error (selection self)) Hnd).
          - apply nth_error_Some. congruence.
          - congruence. }
        subst. contradiction.
      * rewrite Hlog, Hnew. rewrite Ho in Hold. inversion Hold; subst. reflexivity.
  - intros k Hk. rewrite Hlog. apply Hout. exact Hk.
  - intros Hall.
    assert (Hg0 : g = []).
    { destruct g as [|j g']; [reflexivity|]. exfalso.
      assert (Hj : In j (j :: g')) by now left.
      pose proof (Hrange j Hj) as Hjr.
      destruct (nth_error (selection self) j) as [k|] eqn:Hk.
      - destruct (Hall j ltac:(lia)) as [rs Hrs].
        destruct (Hin j k Hk) as [[_ [[t Hv] _]] | [Hnj _]].
        + rewrite Hrs in Hv. discriminate.
        + contradiction.
      - apply nth_error_None in Hk. lia. }
    rewrite Hev, Hsel, Hg0. split; reflexivity.
Qed.

End RejectionCompletes.

(** The pass over the collection whose two epochs are both above the
    threshold. *)
Lemma rejection_pass_completes_witness :
  Consistent all_bad_epochs /\
  _bad_dropped all_bad_epochs = false /\
  pass_verdict (H := table_source []) all_bad_epochs 0 = Some (false, Some ["EEG 001"]) /\
  pass_verdict (H := table_source []) all_bad_epochs 1 = Some (false, Some ["EEG 001"]) /\
  exists self',
    _get_data (H := table_source []) false None None all_bad_epochs = (inr None, self') /\
    _bad_dropped self' = true /\
    Consistent self'.
Proof.
  assert (Hc : Consistent all_bad_epochs).
  { apply (__init___consistent (H := table_source []) all_bad_args).
    - vm_compute. reflexivity.
    - split; [|exact I]. vm_compute. repeat constructor; simpl; intuition discriminate. }
  assert (Hbd : _bad_dropped all_bad_epochs = false) by (vm_compute; reflexivity).
  assert (H0 : pass_verdict (H := table_source []) all_bad_epochs 0
               = Some (false, Some ["EEG 001"])) by (vm_compute; reflexivity).
  assert (H1 : pass_verdict (H := table_source []) all_bad_epochs 1
               = Some (false, Some ["EEG 001"])) by (vm_compute; reflexivity).
  split; [exact Hc|]. split; [exact Hbd|]. split; [exact H0|]. split; [exact H1|].
  destruct (proj1 (rejection_pass_completes (H := table_source []) all_bad_epochs Hc Hbd))
    as [self' [Hg [Hflag [Hc' _]]]].
  { intros [|[|i]] Hi; [eauto | eauto | exfalso].
    vm_compute in Hi. lia. }
  exists self'. auto.
Defined.

(** C9 as stated fails in its last part: a pass that rejects every epoch
    returns normally and leaves an empty collection, both through
    [_get_data] and through [drop_bad]; saving an empty collection is
    planned as one file. *)
Lemma zero_good_epochs_counterexample :
  __init__ (H := table_source []) all_bad_args = inr all_bad_epochs /\
  selection all_bad_epochs = [0; 1]%nat /\
  _bad_dropped all_bad_epochs = false /\
  (let after := snd (_get_data (H := table_source []) false None None all_bad_epochs) in
   _get_data (H := table_source []) false None None all_bad_epochs = (inr None, after) /\
   events after = [] /\ selection after = [] /\
   drop_log after = [["EEG 001"]; ["EEG 001"]]) /\
  (let after := snd (drop_bad (H := table_source []) Existing Existing all_bad_epochs) in
   drop_bad (H := table_source []) Existing Existing all_bad_epochs = (inr tt, after) /\
   events after = []) /\
  save_plan NEXT_FILE_BUFFER plain_join "out/x-epo.fif" "x-epo.fif" 2000000 Single
            (sizes_of 0)
  = inr [mkPart "out/x-epo.fif" [] None].
Proof. vm_compute. repeat split; reflexivity. Qed.

(* ================================================================== *)
(** * Splitting a saved collection into parts *)
(* ================================================================== *)

Section ArraySplit.

Local Open Scope nat_scope.

Lemma length_split_sizes {A} (a : list A) (sizes : list nat) :
  List.length (split_sizes a sizes) = List.length sizes.
Proof.
  revert a. induction sizes as [|k rest IH]; intros a; simpl; [reflexivity|].
  rewrite IH. reflexivity.
Qed.

Lemma concat_split_sizes {A} (a : list A) (sizes : list nat) :
  List.concat (split_sizes a sizes) = firstn (list_sum sizes) a.
Proof.
  revert a. induction sizes as [|k rest IH]; intros a; simpl; [reflexivity|].
  rewrite IH. rewrite <- (firstn_skipn k a) at 3.
  rewrite firstn_app, firstn_firstn.
  replace (Nat.min (k + list_sum rest) k) with k by lia. f_equal.
  destruct (Nat.le_gt_cases k (List.length a)) as [Hle|Hgt].
  - rewrite length_firstn, Nat.min_l by lia.
    replace (k + list_sum rest - k) with (list_sum rest) by lia. reflexivity.
  - rewrite (skipn_all2 a) by lia. rewrite !firstn_nil. reflexivity.
Qed.

Lemma lengths_split_sizes {A} (a : list A) (sizes : list nat) :
  list_sum sizes <= List.length a ->
  map (@List.length A) (split_sizes a sizes) = sizes.
Proof.
  revert a. induction sizes as [|k rest IH]; intros a Hsum; simpl in *;
    [reflexivity|].
  rewrite length_firstn, Nat.min_l by lia. f_equal.
  apply IH. rewrite length_skipn. lia.
Qed.

Lemma list_sum_repeat (x k : nat) : list_sum (repeat x k) = k * x.
Proof. induction k; simpl; [reflexivity | rewrite IHk; lia]. Qed.

(** The group sizes of [np.array_split] add up to the length. *)
Lemma array_split_sizes_sum (n k : nat) :
  0 < k ->
  list_sum (repeat (S (n / k)) (n mod k) ++ repeat (n / k) (k - n mod k)) = n.
Proof.
  intros Hk. rewrite list_sum_app, !list_sum_repeat.
  pose proof (Nat.div_mod_eq n k) as Hdm.
  pose proof (Nat.mod_upper_bound n k ltac:(lia)) as Hm.
  nia.
Qed.

Lemma length_array_split {A} (a : list A) (k : nat) :
  0 < k -> List.length (array_split a k) = k.
Proof.
  intros Hk. unfold array_split.
  rewrite length_split_sizes, length_app, !repeat_length.
  pose proof (Nat.mod_upper_bound (List.length a) k ltac:(lia)). lia.
Qed.

Lemma concat_array_split {A} (a : list A) (k : nat) :
  0 < k -> List.concat (array_split a k) = a.
Proof.
  intros Hk. unfold array_split.
  rewrite concat_split_sizes, array_split_sizes_sum by assumption.
  apply firstn_all.
Qed.

Lemma array_split_group_sizes {A} (a : list A) (k : nat) (g : list A) :
  0 < k -> In g (array_split a k) ->
  List.length g = List.length a / k \/ List.length g = S (List.length a / k).
Proof.
  intros Hk Hg. unfold array_split in Hg.
  apply (in_map (@List.length A)) in Hg.
  rewrite lengths_split_sizes in Hg
    by (rewrite array_split_sizes_sum by assumption; lia).
  apply in_app_or in Hg. destruct Hg as [Hg|Hg]; apply repeat_spec in Hg; auto.
Qed.

End ArraySplit.

Lemma ceil_div_bounds (a b : Z) :
  0 < b -> a <= ceil_div a b * b /\ (ceil_div a b - 1) * b < a.
Proof.
  intros Hb. unfold ceil_div.
  pose proof (Z.div_mod (a + b - 1) b ltac:(lia)) as Hdm.
  pose proof (Z.mod_pos_bound (a + b - 1) b Hb) as Hm.
  nia.
Qed.

Lemma ceil_div_floor (a b : Z) : 0 < b -> (a - 1) / b + 1 = ceil_div a b.
Proof.
  intros Hb. unfold ceil_div.
  replace (a + b - 1) with (a - 1 + 1 * b) by lia.
  rewrite Z.div_add by lia. reflexivity.
Qed.

Lemma map_snd_combine_seq {A} (l : list A) (k : nat) :
  map snd (combine (seq k (List.length l)) l) = l.
Proof.
  revert k. induction l as [|y t IH]; intros k; simpl; [reflexivity|].
  rewrite IH. reflexivity.
Qed.

Lemma nth_error_combine_seq {A} (l : list A) (s k i : nat) (x : A) :
  nth_error (combine (seq s (List.length l)) l) k = Some (i, x) -> i = (s + k)%nat.
Proof.
  revert s k. induction l as [|y t IH]; intros s k; simpl.
  - destruct k; discriminate.
  - destruct k; simpl.
    + intros Heq; inversion Heq. lia.
    + intros Heq. apply IH in Heq. lia.
Qed.

(** The parts written for a partition into [n_parts] groups. *)
Lemma planned_parts (join : string -> string) (fname base : string)
      (n n_parts : nat) :
  (0 < n_parts)%nat ->
  let parts :=
    map (fun ie : nat * list nat =>
           _save_split join fname base (snd ie) (fst ie) n_parts)
        (combine (seq 0 (List.length (array_split (seq 0 n) n_parts)))
                 (array_split (seq 0 n) n_parts)) in
  List.length parts = n_parts /\
  List.concat (map part_epochs parts) = seq 0 n /\
  (forall p, In p parts ->
             List.length (part_epochs p) = (n / n_parts)%nat \/
             List.length (part_epochs p) = S (n / n_parts)) /\
  (forall k p, nth_error parts k = Some p ->
     part_fname p = (if (0 <? k)%nat then join (numbered_name base k) else fname) /\
     part_next p = (if (S k <? n_parts)%nat
                    then Some (join (numbered_name base (S k)), S k)
                    else None)).
Proof.
  intros Hk parts.
  assert (Hlen : List.length parts = n_parts).
  { unfold parts. rewrite length_map, length_combine, length_seq, Nat.min_id.
    apply length_array_split. exact Hk. }
  assert (Hepochs : map part_epochs parts = array_split (seq 0 n) n_parts).
  { unfold parts. rewrite map_map. simpl.
    rewrite <- (map_snd_combine_seq (array_split (seq 0 n) n_parts) 0) at 3.
    reflexivity. }
  split; [exact Hlen|]. split; [|split].
  - rewrite Hepochs. apply concat_array_split. exact Hk.
  - intros p Hp. apply (in_map part_epochs) in Hp. rewrite Hepochs in Hp.
    apply array_split_group_sizes in Hp; [|exact Hk].
    rewrite length_seq in Hp. exact Hp.
  - intros k p Hp. unfold parts in Hp. rewrite nth_error_map in Hp.
    destruct (nth_error (combine _ _) k) as [[i idxs]|] eqn:Hc; [|discriminate].
    assert (Hi : i = k) by (apply (nth_error_combine_seq _ 0%nat _ _ _ Hc)).
    subst i. inversion Hp; subst p. unfold _save_split. simpl. split; [reflexivity|].
    destruct (k <? n_parts - 1)%nat eqn:E1.
    + apply Nat.ltb_lt in E1.
      assert (E2 : (1 <? n_parts)%nat = true) by (apply Nat.ltb_lt; lia).
      assert (E3 : (S k <? n_parts)%nat = true) by (apply Nat.ltb_lt; lia).
      rewrite E2, E3. rewrite Nat.add_1_r. reflexivity.
    + apply Nat.ltb_ge in E1.
      assert (E3 : (S k <? n_parts)%nat = false) by (apply Nat.ltb_ge; lia).
      rewrite E3. reflexivity.
Qed.

(** C5, as the code has it. With [n_per] one epoch's share of the bytes
    that are divided among the parts ([total // n_epochs], at least one
    epoch's data bytes at the chosen precision) and [over] the fixed
    per-file overhead: a split size below [n_per + over] makes [save] fail
    with an error that reports this minimum. Otherwise (the split size
    exceeding the overhead) the number of parts is
    [max(ceil(total / (split_size - over)), 1)], the ceiling being the
    least integer whose multiple of the divisor reaches [total]; more than
    100 parts is an error; else the epoch indices are partitioned, in
    order, into that many contiguous groups whose sizes differ by at most
    one, part 0 goes to the given file name and part [k > 0] to the name
    numbered [k], and each part but the last refers to the next one. *)
Theorem save_plan_spec (next_file_buffer : Z) (join : string -> string)
        (fname base : string) (split_size_bytes : Z) (fmt : Fmt) (sz : SaveSizes) :
  let total := total_size fmt sz in
  let over := over_size next_file_buffer sz in
  let n_per := if (n_epochs sz =? 0)%nat then 0 else total / Z.of_nat (n_epochs sz) in
  let min_size := n_per + over in
  let plan := save_plan next_file_buffer join fname base split_size_bytes fmt sz in
  (split_size_bytes < min_size -> plan = inl (ValueError (SplitTooSmall min_size)))
  /\
  ((0 < n_epochs sz)%nat -> 0 <= epoch_nbytes sz ->
   (forall m, metadata_len sz = Some m -> 0 <= m) ->
   match fmt with Double => epoch_nbytes sz | Single => epoch_nbytes sz / 2 end <= n_per)
  /\
  (min_size <= split_size_bytes -> over < split_size_bytes ->
   let n_parts := Z.max (ceil_div total (split_size_bytes - over)) 1 in
   (total <= ceil_div total (split_size_bytes - over) * (split_size_bytes - over)
    /\ (ceil_div total (split_size_bytes - over) - 1) * (split_size_bytes - over)
       < total)
   /\
   (100 < n_parts -> plan = inl (ValueError (TooManyFiles n_parts)))
   /\
   (n_parts <= 100 ->
    exists parts,
      plan = inr parts /\
      Z.of_nat (List.length parts) = n_parts /\
      List.concat (map part_epochs parts) = seq 0 (n_epochs sz) /\
      (forall p, In p parts ->
         List.length (part_epochs p) = (n_epochs sz / List.length parts)%nat \/
         List.length (part_epochs p) = S (n_epochs sz / List.length parts)) /\
      (forall k p, nth_error parts k = Some p ->
         part_fname p = (if (0 <? k)%nat then join (numbered_name base k) else fname) /\
         part_next p = (if (S k <? List.length parts)%nat
                        then Some (join (numbered_name base (S k)), S k)
                        else None)))).
Proof.
  intros total over n_per min_size plan. split; [|split].
  - intros Hsmall. unfold plan, save_plan.
    fold total over n_per min_size.
    apply Z.ltb_lt in Hsmall. rewrite Hsmall. reflexivity.
  - intros Hn Hbytes Hmeta. unfold n_per.
    destruct (n_epochs sz =? 0)%nat eqn:E; [apply Nat.eqb_eq in E; lia|].
    apply Z.div_le_lower_bound; [lia|].
    unfold total, total_size. rewrite E.
    set (n := Z.of_nat (n_epochs sz)).
    assert (Hnpos : 0 < n) by (unfold n; lia).
    assert (Hm : 0 <= match metadata_len sz with Some m => m | None => 0 end)
      by (destruct (metadata_len sz); [apply Hmeta; reflexivity | lia]).
    destruct fmt.
    + assert (Hhalf : n * (epoch_nbytes sz / 2) <= epoch_nbytes sz * n / 2).
      { apply Z.div_le_lower_bound; [lia|].
        pose proof (Z.mul_div_le (epoch_nbytes sz) 2 ltac:(lia)). nia. }
      destruct (metadata_len sz); lia.
    + destruct (metadata_len sz); nia.
  - intros Hmin Hover n_parts.
    assert (Hplan : plan =
              if 100 <? n_parts then inl (ValueError (TooManyFiles n_parts))
              else
                inr (map (fun ie : nat * list nat =>
                            _save_split join fname base (snd ie) (fst ie)
                                        (Z.to_nat n_parts))
                         (combine
                            (seq 0 (List.length
                                      (array_split (seq 0 (n_epochs sz))
                                                   (Z.to_nat n_parts))))
                            (array_split (seq 0 (n_epochs sz)) (Z.to_nat n_parts))))).
    { unfold plan, save_plan. fold total over n_per min_size.
      assert (H1 : (split_size_bytes <? min_size) = false) by (apply Z.ltb_ge; lia).
      assert (H2 : (split_size_bytes - over =? 0) = false) by (apply Z.eqb_neq; lia).
      rewrite H1, H2. rewrite ceil_div_floor by lia. reflexivity. }
    split; [apply ceil_div_bounds; lia|]. split.
    + intros Hmany. rewrite Hplan. apply Z.ltb_lt in Hmany. rewrite Hmany. reflexivity.
    + intros Hfew. rewrite Hplan.
      assert (H3 : (100 <? n_parts) = false) by (apply Z.ltb_ge; lia). rewrite H3.
      assert (Hpos : (0 < Z.to_nat n_parts)%nat) by (unfold n_parts; lia).
      destruct (planned_parts join fname base (n_epochs sz) (Z.to_nat n_parts) Hpos)
        as [Hlen [Hcat [Hsizes Hnames]]].
      eexists. split; [reflexivity|].
      rewrite Hlen. split; [unfold n_parts; lia|]. auto.
Qed.

(** Four epochs and a split size that leaves 899 bytes per part next to the
    overhead: four parts of one epoch each, chained by their references. *)
Lemma save_plan_spec_witness :
  1052823 <= 1052906 /\ 1052007 < 1052906 /\
  Z.max (ceil_div 3264 (1052906 - 1052007)) 1 <= 100 /\
  exists parts,
    save_plan NEXT_FILE_BUFFER plain_join "out/x-epo.fif" "x-epo.fif" 1052906
              Double (sizes_of 4) = inr parts /\
    Z.of_nat (List.length parts) = 4 /\
    List.concat (map part_epochs parts) = [0; 1; 2; 3]%nat.
Proof.
  split; [lia|]. split; [lia|]. split; [vm_compute; discriminate|].
  destruct (proj2 (proj2 (save_plan_spec NEXT_FILE_BUFFER plain_join "out/x-epo.fif"
                                         "x-epo.fif" 1052906 Double (sizes_of 4))))
    as [_ [_ Hparts]].
  - vm_compute. discriminate.
  - vm_compute. reflexivity.
  - destruct Hparts as [parts [Hplan [Hlen [Hcat _]]]].
    + vm_compute. discriminate.
    + exists parts. split; [exact Hplan|]. split; [exact Hlen | exact Hcat].
Defined.

(** C5 as stated fails: 200 epochs with a split size equal to the reported
    minimum pass the size check, yet [save] raises because 200 parts would
    be written. *)
Lemma save_plan_counterexample :
  let sz := sizes_of 200 in
  let over := over_size NEXT_FILE_BUFFER sz in
  let total := total_size Double sz in
  let min_size := total / 200 + over in
  min_size <= 1054391 /\
  ceil_div total (1054391 - over) = 200 /\
  save_plan NEXT_FILE_BUFFER plain_join "out/x-epo.fif" "x-epo.fif" 1054391
            Double sz
  = inl (ValueError (TooManyFiles 200)).
Proof. vm_compute. repeat split; try reflexivity. discriminate. Qed.

(* ================================================================== *)
(** * Worked examples of the event table and of equalization *)
(* ================================================================== *)

(** C6. Under the [merge] policy the events [[0,0,1],[0,0,2]] with
    [event_id = {"aud": 1, "vis": 2}] become the single event [[0,0,3]]
    with [event_id = {"aud/vis": 3}]: the name is the slash-joined sorted
    union of the two names, the code 3 is used neither as a value of
    [event_id] nor in the prior-code and code columns of the events, the
    entries ["aud"] and ["vis"] are pruned, and the second original event is
    logged as a merged duplicate. The same result comes out of the event
    block of the constructor. *)
Theorem merge_duplicates_example :
  let events := [(0, 0, 1); (0, 0, 2)] in
  let event_id := [("aud", 1); ("vis", 2)] in
  _handle_event_repeated events event_id ER_merge [0; 1]%nat [[]; []]
  = inr ([(0, 0, 3)], [("aud/vis", 3)], [0%nat], [[]; ["MERGE DUPLICATE"]])
  /\
  _merge_events events event_id [0; 1]%nat
  = inr ([(0, 0, 3)], [("aud", 1); ("vis", 2); ("aud/vis", 3)], [0%nat])
  /\
  String.concat "/" (sorted_str ["vis"; "aud"]) = "aud/vis"
  /\
  unused_event_val (np_unique (dict_values event_id ++ prior_and_code events)) = 3
  /\
  mem_Z 3 (dict_values event_id ++ prior_and_code events) = false
  /\
  init_event_table events event_id OM_raise None None None ER_merge
  = inr ([(0, 0, 3)], [("aud/vis", 3)], [0%nat], [[]; ["MERGE DUPLICATE"]], None).
Proof. vm_compute. repeat split; reflexivity. Qed.

(** C8. For the event times A = [1, 2, 3, 4, 120, 121] and
    B = [3.5, 4.5, 120.5, 121.5] under [mintime], the indices to drop are 0
    and 1 for A (the events at times 1 and 2) and none for B: the events at
    times 120 and 121 are kept and both groups end with four events. *)
Theorem equalize_mintime_example :
  _get_drop_indices [times_A; times_B] Mintime = inr [[0; 1]%nat; []]
  /\
  _minimize_time_diff times_B times_A = [false; false; true; true; true; true]
  /\
  masked times_A (_minimize_time_diff times_B times_A)
  = [3#1; 4#1; 120#1; 121#1]%Q
  /\
  _minimize_time_diff times_B times_B = [true; true; true; true]
  /\
  List.length (masked times_A (_minimize_time_diff times_B times_A))
  = List.length (masked times_B (_minimize_time_diff times_B times_B)).
Proof. vm_compute. repeat split; reflexivity. Qed.

(* ================================================================== *)
(** * Repeated events: what each policy returns *)
(* ================================================================== *)

Lemma In_np_unique a y : In y (np_unique a) <-> In y a.
Proof. apply In_fold_insert, Z.eqb_eq. Qed.

Lemma length_np_unique_NoDup a :
  NoDup a -> List.length (np_unique a) = List.length a.
Proof.
  intros Hnd. apply Permutation_length, NoDup_Permutation.
  - apply NoDup_np_unique.
  - exact Hnd.
  - intros x. apply In_np_unique.
Qed.

Lemma np_unique_same_length_NoDup a :
  List.length (np_unique a) = List.length a -> NoDup a.
Proof.
  intros Hlen. apply NoDup_incl_NoDup with (l := np_unique a).
  - apply NoDup_np_unique.
  - rewrite Hlen. apply Nat.le_refl.
  - intros x Hx. apply In_np_unique. exact Hx.
Qed.

(** The position [list.index] finds is that of the first row carrying the
    value. *)
Lemma index_from_first (events : list Event) pos v i :
  index_from pos v (map ev_sample events) = Some i ->
  exists e, nth_error events (i - pos) = Some e /\
            find (fun e0 => ev_sample e0 =? v) events = Some e.
Proof.
  revert pos. induction events as [|x t IH]; intros pos; simpl; [discriminate|].
  destruct (ev_sample x =? v) eqn:E.
  - intros H. inversion H; subst. rewrite Nat.sub_diag. exists x. auto.
  - intros H. pose proof (index_from_spec _ _ _ _ H) as [Hle _].
    apply IH in H. destruct H as [e [Hn Hf]]. exists e. split; [|exact Hf].
    replace (i - pos)%nat with (S (i - S pos)) by lia. exact Hn.
Qed.

Lemma index_from_In a pos v :
  In v a -> exists i, index_from pos v a = Some i.
Proof.
  revert pos. induction a as [|x t IH]; intros pos; simpl; [tauto|].
  intros [->|Hin].
  - rewrite Z.eqb_refl. eauto.
  - destruct (x =? v); eauto.
Qed.

(** The rows at the positions of [np.unique(..., return_index=True)]: one
    row per value, the first that carries it. *)
Lemma take_first_occurrences (events : list Event) (vs : list Z) :
  (forall v, In v vs -> In v (map ev_sample events)) ->
  let rows :=
    take_idx events
      (flat_map (fun v => match list_index (map ev_sample events) v with
                          | Some i => [i]
                          | None => []
                          end) vs) in
  map ev_sample rows = vs /\
  forall e, In e rows ->
            find (fun e0 => ev_sample e0 =? ev_sample e) events = Some e.
Proof.
  induction vs as [|v vs IH]; intros Hin; cbv zeta.
  - split; [reflexivity | simpl; tauto].
  - destruct (index_from_In (map ev_sample events) 0 v) as [i Hi];
      [apply Hin; now left|].
    cbn [flat_map]. unfold list_index at 1 3. rewrite Hi.
    change ([i] ++ ?l) with (i :: l).
    destruct (index_from_first _ _ _ _ Hi) as [e [Hn Hf]].
    rewrite Nat.sub_0_r in Hn.
    rewrite !take_idx_cons, Hn.
    change ([e] ++ ?l) with (e :: l).
    assert (Hs : ev_sample e = v).
    { apply find_some in Hf. destruct Hf as [_ Hf]. apply Z.eqb_eq in Hf. exact Hf. }
    destruct IH as [IH1 IH2]; [intros w Hw; apply Hin; now right|].
    split.
    + cbn [map]. rewrite Hs. f_equal. exact IH1.
    + intros e' [<-|He'].
      * rewrite Hs. exact Hf.
      * apply IH2. exact He'.
Qed.

Lemma find_unique_sample (events : list Event) (e : Event) :
  NoDup (map ev_sample events) -> In e events ->
  find (fun e0 => ev_sample e0 =? ev_sample e) events = Some e.
Proof.
  induction events as [|x t IH]; simpl; [tauto|].
  intros Hnd Hin. inversion Hnd as [|? ? Hni Hnd']; subst.
  destruct Hin as [->|Hin].
  - rewrite Z.eqb_refl. reflexivity.
  - destruct (ev_sample x =? ev_sample e) eqn:E.
    + apply Z.eqb_eq in E. exfalso. apply Hni. rewrite E. apply in_map. exact Hin.
    + apply IH; assumption.
Qed.

Lemma np_unique_sorted a : StronglySorted Z.lt (np_unique a).
Proof.
  assert (H : StronglySorted (fun x y => Z.ltb x y = true) (np_unique a)).
  { unfold np_unique, insert_unique. apply sorted_fold_insert.
    - apply Z.eqb_eq.
    - intros x y z H1 H2. apply Z.ltb_lt in H1, H2. apply Z.ltb_lt. lia.
    - intros x y H1 H2. apply Z.ltb_ge in H1. apply Z.eqb_neq in H2.
      apply Z.ltb_lt. lia. }
  induction H as [|x l Hs IH Hall]; constructor; [assumption|].
  eapply Forall_impl; [|exact Hall]. intros y Hy. apply Z.ltb_lt. exact Hy.
Qed.

(** X1 ([_handle_event_repeated]). When the sample numbers of the events
    are pairwise distinct, the call returns its four arguments as they
    are, whatever the policy: the events, the event ids (nothing is pruned
    on this path), the selection and the drop log. *)
Theorem handle_event_repeated_unique (events : list Event) (event_id : dict Z)
        (policy : EventRepeated) (selection : list nat) (drop_log : DropLog) :
  NoDup (map ev_sample events) ->
  List.length events = List.length selection ->
  _handle_event_repeated events event_id policy selection drop_log
  = inr (events, event_id, selection, drop_log).
Proof.
  intros Hnd Hlen. unfold _handle_event_repeated.
  rewrite Hlen, Nat.eqb_refl. simpl.
  rewrite (length_np_unique_NoDup _ Hnd), length_map, Hlen, Nat.eqb_refl.
  reflexivity.
Qed.

Lemma handle_event_repeated_unique_witness :
  _handle_event_repeated [(10, 0, 1); (20, 0, 2)] [("a", 1); ("unused", 9)]
                         ER_merge [0%nat; 3%nat] [[]; ["IGNORED"]; ["IGNORED"]; []]
  = inr ([(10, 0, 1); (20, 0, 2)], [("a", 1); ("unused", 9)],
         [0%nat; 3%nat], [[]; ["IGNORED"]; ["IGNORED"]; []]).
Proof.
  apply handle_event_repeated_unique.
  - repeat constructor; simpl; intuition discriminate.
  - reflexivity.
Defined.

(** X2 ([_handle_event_repeated]). Under the policy ['error'], two events
    at the same sample make the call raise [RuntimeError]; nothing is
    returned. *)
Theorem handle_event_repeated_error (events : list Event) (event_id : dict Z)
        (selection : list nat) (drop_log : DropLog) :
  List.length events = List.length selection ->
  ~ NoDup (map ev_sample events) ->
  _handle_event_repeated events event_id ER_error selection drop_log
  = inl (RuntimeError "Event time samples were not unique").
Proof.
  intros Hlen Hdup. unfold _handle_event_repeated.
  rewrite Hlen, Nat.eqb_refl. simpl.
  destruct (List.length (np_unique (map ev_sample events)) =? List.length selection)%nat
    eqn:E; [|reflexivity].
  exfalso. apply Hdup. apply np_unique_same_length_NoDup.
  apply Nat.eqb_eq in E. rewrite E, length_map. symmetry. exact Hlen.
Qed.

Lemma handle_event_repeated_error_witness :
  _handle_event_repeated [(10, 0, 1); (10, 0, 2)] [("a", 1); ("b", 2)]
                         ER_error [0%nat; 1%nat] [[]; []]
  = inl (RuntimeError "Event time samples were not unique").
Proof.
  apply handle_event_repeated_error.
  - reflexivity.
  - intros H. inversion H as [|? ? Hni _]; subst. apply Hni. now left.
Defined.

(** X3 ([_handle_event_repeated]). Under the policy ['drop'] the returned
    events have pairwise distinct sample numbers, every sample number of
    the input is still present, and each returned row is the first input
    row with its sample number. When something had to be dropped, the rows
    come back ordered by sample number (the order of [np.unique]), also if
    the input was not. *)
Theorem handle_event_repeated_drop (events : list Event) (event_id : dict Z)
        (selection : list nat) (drop_log : DropLog)
        (events' : list Event) (event_id' : dict Z)
        (selection' : list nat) (drop_log' : DropLog) :
  _handle_event_repeated events event_id ER_drop selection drop_log
  = inr (events', event_id', selection', drop_log') ->
  NoDup (map ev_sample events') /\
  (forall s, In s (map ev_sample events) <-> In s (map ev_sample events')) /\
  (forall e, In e events' ->
             find (fun e0 => ev_sample e0 =? ev_sample e) events = Some e) /\
  (~ NoDup (map ev_sample events) ->
   map ev_sample events' = np_unique (map ev_sample events) /\
   StronglySorted Z.lt (map ev_sample events')).
Proof.
  unfold _handle_event_repeated.
  destruct (negb (List.length events =? List.length selection)%nat); [discriminate|].
  simpl.
  destruct (List.length (np_unique (map ev_sample events)) =? List.length events)%nat
    eqn:E.
  - intros H. inversion H; subst. apply Nat.eqb_eq in E.
    assert (Hnd : NoDup (map ev_sample events')).
    { apply np_unique_same_length_NoDup. rewrite length_map. exact E. }
    split; [exact Hnd|]. split; [tauto|]. split.
    + intros e He. apply find_unique_sample; assumption.
    + intros Hn. contradiction.
  - destruct (extend_drop_log drop_log _ ["DROP DUPLICATE"]) as [err|log] eqn:El;
      simpl; [discriminate|].
    intros H. inversion H; subst. clear H.
    destruct (take_first_occurrences events (np_unique (map ev_sample events)))
      as [Hs Hf]; [intros v Hv; apply In_np_unique; exact Hv|].
    fold (np_unique_index (map ev_sample events)) in Hs, Hf.
    rewrite Hs. split; [apply NoDup_np_unique|]. split; [|split].
    + intros s. symmetry. apply In_np_unique.
    + exact Hf.
    + intros _. split; [reflexivity | apply np_unique_sorted].
Qed.

Lemma handle_event_repeated_drop_witness :
  NoDup (map ev_sample [(5, 0, 1); (10, 0, 1)]) /\
  (forall s, In s (map ev_sample [(10, 0, 1); (5, 0, 1); (10, 0, 2)])
             <-> In s (map ev_sample [(5, 0, 1); (10, 0, 1)])) /\
  (forall e, In e [(5, 0, 1); (10, 0, 1)] ->
             find (fun e0 => ev_sample e0 =? ev_sample e)
                  [(10, 0, 1); (5, 0, 1); (10, 0, 2)] = Some e) /\
  (~ NoDup (map ev_sample [(10, 0, 1); (5, 0, 1); (10, 0, 2)]) ->
   map ev_sample [(5, 0, 1); (10, 0, 1)]
   = np_unique (map ev_sample [(10, 0, 1); (5, 0, 1); (10, 0, 2)]) /\
   StronglySorted Z.lt (map ev_sample [(5, 0, 1); (10, 0, 1)])).
Proof.
  exact (handle_event_repeated_drop
           [(10, 0, 1); (5, 0, 1); (10, 0, 2)] [("a", 1); ("b", 2)]
           [0%nat; 1%nat; 2%nat] [[]; []; []]
           [(5, 0, 1); (10, 0, 1)] [("a", 1)] [1%nat; 0%nat]
           [[]; []; ["DROP DUPLICATE"]] eq_refl).
Defined.

Lemma mem_Z_In k l : mem_Z k l = true <-> In k l.
Proof.
  unfold mem_Z. rewrite existsb_exists. split.
  - intros [x [Hx Hk]]. apply Z.eqb_eq in Hk. now subst.
  - intros H. exists k. split; [assumption | apply Z.eqb_refl].
Qed.

Lemma tl_nonzero_from {A} (f : A -> bool) (a : list A) (pos p : nat) :
  In p (tl (nonzero_from pos f a)) <->
  In p (nonzero_from pos f a) /\
  exists q, (q < p)%nat /\ In q (nonzero_from pos f a).
Proof.
  revert pos. induction a as [|x t IH]; intros pos; simpl.
  - split; [contradiction | tauto].
  - destruct (f x); [|apply IH]. simpl. split.
    + intros Hp. split; [now right|]. exists pos. split; [|now left].
      apply In_nonzero_from in Hp. lia.
    + intros [[<-|Hp] [q [Hq Hin]]]; [|exact Hp].
      exfalso. destruct Hin as [<-|Hin]; [lia|].
      apply In_nonzero_from in Hin. lia.
Qed.

Lemma two_occurrences (a : list Z) (v : Z) (q p : nat) :
  (q < p)%nat -> nth_error a q = Some v -> nth_error a p = Some v ->
  (1 < count_Z v a)%nat.
Proof.
  intros Hlt Hq Hp. unfold count_Z.
  destruct (nth_error_split a q Hq) as [l1 [l2 [-> Hl1]]].
  rewrite filter_app, length_app. simpl. rewrite Z.eqb_refl. simpl.
  assert (Hin : In v l2).
  { rewrite nth_error_app2 in Hp by lia.
    replace (p - List.length l1)%nat with (S (p - S q)) in Hp by lia.
    simpl in Hp. eapply nth_error_In. exact Hp. }
  assert (Hf : In v (filter (Z.eqb v) l2)).
  { apply filter_In. split; [exact Hin | apply Z.eqb_refl]. }
  destruct (filter (Z.eqb v) l2); [contradiction | simpl; lia].
Qed.

(** The positions [_merge_events] deletes: every row whose sample number
    already occurs in an earlier row. *)
Lemma merge_deleted_positions (events : list Event) (p : nat) :
  let samples := map ev_sample events in
  let repeated :=
    filter (fun v => (1 <? count_Z v samples)%nat) (np_unique samples) in
  In p (flat_map (fun ev => tl (nonzero (fun e => ev_sample e =? ev) events))
                 repeated)
  <-> (p < List.length samples)%nat /\
      exists q, (q < p)%nat /\ nth_error samples q = nth_error samples p.
Proof.
  intros samples repeated.
  assert (Hnz : forall ev k,
             In k (nonzero (fun e => ev_sample e =? ev) events)
             <-> nth_error samples k = Some ev).
  { intros ev k. rewrite In_nonzero. unfold samples. rewrite nth_error_map.
    split.
    - intros [e [-> He]]. simpl. apply Z.eqb_eq in He. now subst.
    - destruct (nth_error events k) as [e|]; simpl; [|discriminate].
      intros H. inversion H; subst. exists e. split; [reflexivity | apply Z.eqb_refl]. }
  rewrite in_flat_map. split.
  - intros [ev [Hev Hp]]. unfold nonzero in Hp. apply tl_nonzero_from in Hp.
    destruct Hp as [Hp [q [Hq Hin]]].
    apply Hnz in Hp. apply Hnz in Hin. split.
    + apply nth_error_Some. congruence.
    + exists q. split; [exact Hq | congruence].
  - intros [Hlen [q [Hq Heq]]].
    destruct (nth_error samples p) as [ev|] eqn:Ep;
      [|apply nth_error_None in Ep; lia].
    exists ev. split.
    + unfold repeated. apply filter_In. split.
      * apply In_np_unique. eapply nth_error_In. exact Ep.
      * apply Nat.ltb_lt. eapply two_occurrences; eauto.
    + unfold nonzero. apply tl_nonzero_from. split.
      * apply Hnz. exact Ep.
      * exists q. split; [exact Hq | apply Hnz; exact Heq].
Qed.

Lemma at_first_occurrences_seen {A} (seen1 seen2 samples : list Z) (xs : list A) :
  (forall z, In z seen1 <-> In z seen2) ->
  at_first_occurrences seen1 samples xs = at_first_occurrences seen2 samples xs.
Proof.
  revert seen1 seen2 xs. induction samples as [|s t IH]; intros seen1 seen2 xs Hs;
    [reflexivity|].
  destruct xs as [|x xs]; [reflexivity|]. simpl.
  assert (Hm : mem_Z s seen1 = mem_Z s seen2).
  { destruct (mem_Z s seen1) eqn:E1, (mem_Z s seen2) eqn:E2; try reflexivity.
    - apply mem_Z_In, Hs, mem_Z_In in E1. congruence.
    - apply mem_Z_In, Hs, mem_Z_In in E2. congruence. }
  rewrite Hm. destruct (mem_Z s seen2).
  - apply IH. exact Hs.
  - f_equal. apply IH. intros z. simpl. rewrite Hs. tauto.
Qed.

(** Deleting the rows whose sample number occurred before leaves the rows
    of the first occurrences, in their order. *)
Lemma np_delete_first_occurrences {A} (full : list Z) (D : list nat) :
  (forall p, In p D <->
             (p < List.length full)%nat /\
             exists q, (q < p)%nat /\ nth_error full q = nth_error full p) ->
  forall (suf pre : list Z) (xs : list A),
    full = pre ++ suf -> List.length xs = List.length suf ->
    np_delete_from (List.length pre) xs D = at_first_occurrences pre suf xs.
Proof.
  intros HD. induction suf as [|s suf IH]; intros pre xs Hfull Hlen.
  - destruct xs; [reflexivity | discriminate].
  - destruct xs as [|x xs]; [discriminate|]. simpl in Hlen. simpl.
    assert (Hmem : existsb (Nat.eqb (List.length pre)) D = mem_Z s pre).
    { fold (mem_nat (List.length pre) D).
      destruct (mem_Z s pre) eqn:E.
      - apply mem_nat_In, HD. apply mem_Z_In in E.
        apply In_nth_error in E. destruct E as [q Hq].
        assert (Hql : (q < List.length pre)%nat)
          by (apply nth_error_Some; congruence).
        split.
        + rewrite Hfull, length_app. simpl. lia.
        + exists q. split; [exact Hql|].
          rewrite Hfull, nth_error_app1 by exact Hql.
          rewrite nth_error_app2 by lia. rewrite Nat.sub_diag. simpl. exact Hq.
      - destruct (mem_nat (List.length pre) D) eqn:E'; [|reflexivity].
        apply mem_nat_In, HD in E'. destruct E' as [_ [q [Hq Heq]]].
        rewrite Hfull, nth_error_app1 in Heq by exact Hq.
        rewrite nth_error_app2 in Heq by lia.
        rewrite Nat.sub_diag in Heq. simpl in Heq.
        apply nth_error_In, mem_Z_In in Heq. congruence. }
    rewrite Hmem.
    assert (Hnext : np_delete_from (S (List.length pre)) xs D
                    = at_first_occurrences (pre ++ [s]) suf xs).
    { replace (S (List.length pre)) with (List.length (pre ++ [s]))
        by (rewrite length_app; simpl; lia).
      apply IH; [rewrite <- app_assoc; exact Hfull | lia]. }
    rewrite Hnext. destruct (mem_Z s pre) eqn:E.
    + apply at_first_occurrences_seen. intros z. rewrite in_app_iff. simpl.
      apply mem_Z_In in E. split; [|tauto]. intros [H|[<-|[]]]; assumption.
    + f_equal. apply at_first_occurrences_seen. intros z. rewrite in_app_iff.
      simpl. tauto.
Qed.

Lemma np_delete_from_map {A B} (f : A -> B) (a : list A) idxs pos :
  map f (np_delete_from pos a idxs) = np_delete_from pos (map f a) idxs.
Proof.
  revert pos. induction a as [|x t IH]; intros pos; simpl; [reflexivity|].
  destruct (existsb (Nat.eqb pos) idxs); simpl; rewrite IH; reflexivity.
Qed.

Lemma update_nth_sample (events events' : list Event) i prior val :
  update_nth events i (fun e => (ev_sample e, prior, val)) = Some events' ->
  map ev_sample events' = map ev_sample events.
Proof.
  revert i events'. induction events as [|x t IH]; intros i events'; simpl;
    [discriminate|].
  destruct i as [|j].
  - intros H. inversion H; subst. reflexivity.
  - destruct (update_nth t j _) as [t'|] eqn:E; simpl; [|discriminate].
    intros H. inversion H; subst. simpl. f_equal. eapply IH. exact E.
Qed.

Lemma set_prior_code_sample (events : list Event) i prior val :
  map ev_sample (set_prior_code events i prior val) = map ev_sample events.
Proof.
  unfold set_prior_code.
  destruct (update_nth events i _) eqn:E; [|reflexivity].
  eapply update_nth_sample. exact E.
Qed.

Lemma merge_one_spec (events : list Event) (ev : Z) (st st' : MergeState) :
  merge_one events ev st = inr st' ->
  ms_to_delete st' =
    ms_to_delete st ++ tl (nonzero (fun e => ev_sample e =? ev) events) /\
  map ev_sample (ms_new_events st') = map ev_sample (ms_new_events st).
Proof.
  unfold merge_one, exc_bind.
  match goal with |- match ?c with _ => _ end = _ -> _ => destruct c as [e|[v eid]] end;
    [discriminate|].
  intros H. inversion H; subst. simpl. split; [reflexivity|].
  apply set_prior_code_sample.
Qed.

Lemma merge_fold_spec (events : list Event) (reps : list Z) :
  forall (acc : Exc MergeState) (st' : MergeState),
    fold_left (fun acc ev => (st <- acc ;; merge_one events ev st)%exc) reps acc
    = inr st' ->
    exists st, acc = inr st /\
      ms_to_delete st' =
        ms_to_delete st
        ++ flat_map (fun ev => tl (nonzero (fun e => ev_sample e =? ev) events)) reps /\
      map ev_sample (ms_new_events st') = map ev_sample (ms_new_events st).
Proof.
  induction reps as [|ev reps IH]; intros acc st'; simpl.
  - intros ->. exists st'. rewrite app_nil_r. auto.
  - intros H. apply IH in H. destruct H as [st1 [H1 [H2 H3]]].
    destruct acc as [e|st]; [discriminate|]. simpl in H1.
    apply merge_one_spec in H1. destruct H1 as [Hd Hs].
    exists st. split; [reflexivity|]. split.
    + rewrite H2, Hd, <- app_assoc. reflexivity.
    + congruence.
Qed.

Lemma at_first_occurrences_NoDup (samples seen : list Z) :
  NoDup (at_first_occurrences seen samples samples) /\
  (forall s, In s (at_first_occurrences seen samples samples)
             <-> In s samples /\ ~ In s seen).
Proof.
  revert seen. induction samples as [|s t IH]; intros seen; simpl.
  - split; [constructor | tauto].
  - assert (Hgen : forall seen' (xs : list Z),
               forall z, In z (at_first_occurrences seen' t xs) -> In z xs).
    { clear. induction t as [|s t IH]; intros seen' xs z; simpl; [tauto|].
      destruct xs as [|x xs]; [tauto|].
      destruct (mem_Z s seen'); simpl; intros H.
      - right. eapply IH. exact H.
      - destruct H as [->|H]; [now left | right; eapply IH; exact H]. }
    destruct (mem_Z s seen) eqn:E.
    + destruct (IH seen) as [Hnd Hin]. split; [exact Hnd|].
      intros z. rewrite Hin. apply mem_Z_In in E. split.
      * intros [H1 H2]. tauto.
      * intros [[<-|H1] H2]; [contradiction | tauto].
    + destruct (IH (s :: seen)) as [Hnd Hin].
      assert (Hns : ~ In s seen).
      { intros H. apply mem_Z_In in H. congruence. }
      split.
      * constructor; [|exact Hnd]. rewrite Hin. simpl. tauto.
      * intros z. simpl. rewrite Hin. simpl. split.
        -- intros [<-|[H1 H2]]; [tauto|]. split; [tauto|]. tauto.
        -- intros [[<-|H1] H2]; [now left|].
           destruct (Z.eq_dec s z) as [->|Hne]; [now left|]. right. tauto.
Qed.

(** X4 ([_merge_events], [_handle_event_repeated]). Under the policy
    ['merge'] the rows that come back are those at the first occurrence of
    each sample number, in the order of the input (nothing is sorted, unlike
    under ['drop']), and [selection] is cut down to the same positions; so
    the returned sample numbers are pairwise distinct and none is lost. *)
Theorem handle_event_repeated_merge (events : list Event) (event_id : dict Z)
        (selection : list nat) (drop_log : DropLog)
        (events' : list Event) (event_id' : dict Z)
        (selection' : list nat) (drop_log' : DropLog) :
  _handle_event_repeated events event_id ER_merge selection drop_log
  = inr (events', event_id', selection', drop_log') ->
  let samples := map ev_sample events in
  map ev_sample events' = at_first_occurrences [] samples samples /\
  selection' = at_first_occurrences [] samples selection /\
  NoDup (map ev_sample events') /\
  (forall s, In s samples <-> In s (map ev_sample events')).
Proof.
  intros Hh samples.
  assert (Hspec : map ev_sample events' = at_first_occurrences [] samples samples /\
                  selection' = at_first_occurrences [] samples selection).
  { revert Hh. unfold _handle_event_repeated.
    destruct (List.length events =? List.length selection)%nat eqn:Elen;
      [|discriminate]. apply Nat.eqb_eq in Elen. simpl.
    destruct (List.length (np_unique (map ev_sample events)) =? List.length events)%nat
      eqn:E.
    - intros H. inversion H; subst. apply Nat.eqb_eq in E.
      assert (Hnd : NoDup samples).
      { apply np_unique_same_length_NoDup. unfold samples. rewrite length_map. exact E. }
      assert (Hid : forall (A : Type) (xs : list A) (suf seen : list Z),
                 NoDup suf -> (forall z, In z suf -> ~ In z seen) ->
                 List.length xs = List.length suf ->
                 at_first_occurrences seen suf xs = xs).
      { clear. intros A xs suf. revert xs.
        induction suf as [|s suf IH]; intros xs seen Hnd Hdis Hlen.
        - destruct xs; [reflexivity | discriminate].
        - destruct xs as [|x xs]; [discriminate|]. simpl.
          inversion Hnd as [|? ? Hni Hnd']; subst.
          destruct (mem_Z s seen) eqn:E.
          + apply mem_Z_In in E. exfalso. apply (Hdis s); [now left | exact E].
          + f_equal. apply IH; [exact Hnd' | | simpl in Hlen; lia].
            intros z Hz [<-|Hs]; [contradiction|].
            apply (Hdis z); [now right | exact Hs]. }
      split; symmetry; apply Hid; auto.
      unfold samples. rewrite length_map. symmetry. exact Elen.
    - unfold exc_bind at 1.
      destruct (_merge_events events event_id selection)
        as [err|[[ne eid2] sel2]] eqn:Hm; simpl; [discriminate|].
      destruct (extend_drop_log drop_log _ ["MERGE DUPLICATE"]) as [err|log] eqn:El;
        simpl; [discriminate|].
      intros H. inversion H; subst. clear H.
      revert Hm. unfold _merge_events. unfold exc_bind at 1.
      destruct (fold_left _ _ _) as [err|st] eqn:Hf; [discriminate|].
      intros H. inversion H; subst. clear H.
      apply merge_fold_spec in Hf. destruct Hf as [st0 [H0 [Hd Hs]]].
      inversion H0; subst. simpl in Hd, Hs. clear H0.
      pose proof (merge_deleted_positions events) as HD. cbv zeta in HD.
      rewrite <- Hd in HD.
      split.
      + unfold np_delete. rewrite np_delete_from_map, Hs.
        apply (np_delete_first_occurrences samples (ms_to_delete st) HD samples []);
          reflexivity.
      + unfold np_delete.
        apply (np_delete_first_occurrences samples (ms_to_delete st) HD samples []);
          [reflexivity|].
        unfold samples. rewrite length_map. symmetry. exact Elen. }
  destruct Hspec as [He Hsel]. split; [exact He|]. split; [exact Hsel|].
  rewrite He. destruct (at_first_occurrences_NoDup samples []) as [Hnd Hin].
  split; [exact Hnd|]. intros s. rewrite Hin. simpl. tauto.
Qed.

Lemma handle_event_repeated_merge_witness :
  let samples := map ev_sample [(10, 0, 1); (5, 0, 1); (10, 0, 2)] in
  map ev_sample [(10, 0, 3); (5, 0, 1)] = at_first_occurrences [] samples samples /\
  [0%nat; 1%nat] = at_first_occurrences [] samples [0%nat; 1%nat; 2%nat] /\
  NoDup (map ev_sample [(10, 0, 3); (5, 0, 1)]) /\
  (forall s, In s samples <-> In s (map ev_sample [(10, 0, 3); (5, 0, 1)])).
Proof.
  exact (handle_event_repeated_merge
           [(10, 0, 1); (5, 0, 1); (10, 0, 2)] [("a", 1); ("b", 2)]
           [0%nat; 1%nat; 2%nat] [[]; []; []]
           [(10, 0, 3); (5, 0, 1)] [("a", 1); ("a/b", 3)] [0%nat; 1%nat]
           [[]; []; ["MERGE DUPLICATE"]] eq_refl).
Defined.

(* ================================================================== *)
(** * Equalization: how many events are kept *)
(* ================================================================== *)

Section EqualizationFacts.

Local Open Scope nat_scope.

Lemma argmin_from_spec (l : list (option Q)) :
  forall pos best_pos best,
    let r := argmin_from pos best_pos best l in
    (r = best_pos /\ (best = None -> forall s, In s l -> s = None))
    \/ (pos <= r /\ exists q, nth_error l (r - pos) = Some (Some q)).
Proof.
  induction l as [|s t IH]; intros pos best_pos best; simpl.
  - left. split; [reflexivity | tauto].
  - destruct (score_ltb s best) eqn:E.
    + right. destruct s as [x|]; [|destruct best; discriminate E].
      destruct (IH (S pos) pos (Some x)) as [[Hr _]|[Hr [q Hq]]].
      * rewrite Hr. split; [lia|]. exists x. rewrite Nat.sub_diag. reflexivity.
      * split; [lia|]. exists q.
        replace (argmin_from (S pos) pos (Some x) t - pos)
          with (S (argmin_from (S pos) pos (Some x) t - S pos)) by lia.
        exact Hq.
    + destruct (IH (S pos) best_pos best) as [[Hr Hn]|[Hr [q Hq]]].
      * left. split; [exact Hr|]. intros Hb s' [<-|Hs']; [|auto].
        subst best. destruct s; [discriminate E | reflexivity].
      * right. split; [lia|]. exists q.
        replace (argmin_from (S pos) best_pos best t - pos)
          with (S (argmin_from (S pos) best_pos best t - S pos)) by lia.
        exact Hq.
Qed.

(** [np.argmin] lands on a finite score whenever there is one. *)
Lemma argmin_finite (l : list (option Q)) :
  (exists j q, nth_error l j = Some (Some q)) ->
  exists q, nth_error l (argmin l) = Some (Some q).
Proof.
  intros [j [q Hj]]. destruct l as [|s t]; [destruct j; discriminate|].
  unfold argmin.
  destruct (argmin_from_spec t 1 0 s) as [[Hr Hn]|[Hr [q' Hq']]].
  - rewrite Hr. simpl. destruct s as [x|]; [eauto|].
    exfalso. destruct j as [|j]; [discriminate|]. simpl in Hj.
    apply nth_error_In in Hj. specialize (Hn eq_refl _ Hj). discriminate.
  - exists q'.
    replace (argmin_from 1 0 s t) with (S (argmin_from 1 0 s t - 1)) by lia.
    exact Hq'.
Qed.

Lemma nth_error_removal_scores (t_shorter t_longer : list Q) (keep : list bool) j :
  nth_error keep j = Some true <->
  exists q, nth_error (removal_scores t_shorter t_longer keep) j = Some (Some q).
Proof.
  unfold removal_scores. rewrite nth_error_map.
  destruct (nth_error (combine (seq 0 (List.length keep)) keep) j) as [[i b]|] eqn:E;
    simpl.
  - assert (Hb : nth_error keep j = Some b).
    { clear -E. revert E. generalize 0. revert j.
      induction keep as [|k keep IH]; intros j s; simpl.
      - destruct j; discriminate.
      - destruct j as [|j]; simpl.
        + intros H. inversion H. reflexivity.
        + apply IH. }
    rewrite Hb. destruct b; split.
    + intros _. eauto.
    + intros _. reflexivity.
    + discriminate.
    + intros [q Hq]. discriminate.
  - assert (Hn : nth_error keep j = None).
    { apply nth_error_None. apply nth_error_None in E.
      rewrite length_combine, length_seq, Nat.min_id in E. exact E. }
    rewrite Hn. split; [discriminate | intros [q Hq]; discriminate].
Qed.

Lemma clear_at_kept (keep : list bool) (j : nat) :
  nth_error keep j = Some true ->
  List.length (clear_at keep j) = List.length keep /\
  S (n_kept (clear_at keep j)) = n_kept keep.
Proof.
  unfold clear_at, n_kept. revert j.
  induction keep as [|b keep IH]; intros j; [destruct j; discriminate|].
  destruct j as [|j]; simpl.
  - intros H. inversion H; subst. simpl. auto.
  - intros H. specialize (IH j H).
    destruct (update_nth keep j (fun _ => false)) as [keep'|] eqn:E; simpl.
    + destruct IH as [IH1 IH2]. split; [congruence|].
      destruct b; simpl; lia.
    + exfalso. destruct (update_nth_in_range keep j (fun _ => false)) as [x Hx].
      * apply nth_error_Some. congruence.
      * congruence.
Qed.

Lemma n_kept_positive (keep : list bool) :
  0 < n_kept keep -> exists j, nth_error keep j = Some true.
Proof.
  unfold n_kept. induction keep as [|b keep IH]; simpl; [lia|].
  destruct b; simpl.
  - intros _. exists 0. reflexivity.
  - intros H. destruct (IH H) as [j Hj]. exists (S j). exact Hj.
Qed.

Lemma minimize_loop_kept (t_shorter t_longer : list Q) (n : nat) :
  forall keep,
    n <= n_kept keep ->
    List.length (minimize_loop n t_shorter t_longer keep) = List.length keep /\
    n_kept (minimize_loop n t_shorter t_longer keep) = n_kept keep - n.
Proof.
  induction n as [|n IH]; intros keep Hn; simpl.
  - split; [reflexivity | lia].
  - destruct (n_kept_positive keep) as [j Hj]; [lia|].
    destruct (argmin_finite (removal_scores t_shorter t_longer keep)) as [q Hq].
    { apply (nth_error_removal_scores t_shorter t_longer) in Hj.
      destruct Hj as [q Hq]. eauto. }
    assert (Hk : nth_error keep (argmin (removal_scores t_shorter t_longer keep))
                 = Some true).
    { apply (nth_error_removal_scores t_shorter t_longer). eauto. }
    destruct (clear_at_kept _ _ Hk) as [Hl Hc].
    destruct (IH (clear_at keep (argmin (removal_scores t_shorter t_longer keep))))
      as [IH1 IH2]; [lia|].
    split; [congruence | lia].
Qed.

Lemma n_kept_repeat (b : bool) (n : nat) :
  n_kept (repeat b n) = if b then n else 0.
Proof.
  unfold n_kept. induction n as [|n IH]; simpl; [destruct b; reflexivity|].
  destruct b; simpl; rewrite IH; reflexivity.
Qed.

(** The mask of [_minimize_time_diff] has one entry per longer time and
    keeps as many of them as there are shorter times. *)
Lemma _minimize_time_diff_kept (t_shorter t_longer : list Q) :
  List.length (_minimize_time_diff t_shorter t_longer) = List.length t_longer /\
  n_kept (_minimize_time_diff t_shorter t_longer)
  = Nat.min (List.length t_shorter) (List.length t_longer).
Proof.
  unfold _minimize_time_diff. destruct t_shorter as [|t0 ts].
  - rewrite repeat_length, n_kept_repeat. simpl. auto.
  - set (S := t0 :: ts).
    destruct (minimize_loop_kept S t_longer
                (List.length t_longer - List.length S)
                (repeat true (List.length t_longer))) as [H1 H2].
    + rewrite n_kept_repeat. lia.
    + rewrite H1, H2, repeat_length, n_kept_repeat. split; [reflexivity | lia].
Qed.

Lemma n_kept_dropped (mask : list bool) :
  List.length (nonzero negb mask) + n_kept mask = List.length mask.
Proof.
  unfold nonzero, n_kept. rewrite length_nonzero_from.
  induction mask as [|b mask IH]; simpl; [reflexivity|].
  destruct b; simpl; lia.
Qed.

Lemma n_kept_truncate (k n : nat) :
  n_kept (map (fun i => i <? k) (seq 0 n)) = Nat.min k n.
Proof.
  unfold n_kept. induction n as [|n IH]; [simpl; lia|].
  rewrite seq_S, map_app, filter_app, length_app, IH. simpl.
  destruct (n <? k) eqn:E; simpl.
  - apply Nat.ltb_lt in E. lia.
  - apply Nat.ltb_ge in E. lia.
Qed.

Lemma argmin_nat_from_spec (l : list nat) :
  forall pre best_pos best,
    nth_error pre best_pos = Some best ->
    (forall s, In s pre -> best <= s) ->
    exists m, nth_error (pre ++ l)
                        (argmin_nat_from (List.length pre) best_pos best l) = Some m /\
              forall s, In s (pre ++ l) -> m <= s.
Proof.
  induction l as [|x t IH]; intros pre best_pos best Hb Hmin; simpl.
  - exists best. rewrite app_nil_r. auto.
  - destruct (x <? best) eqn:E.
    + apply Nat.ltb_lt in E.
      destruct (IH (pre ++ [x]) (List.length pre) x) as [m [Hm Hall]].
      * rewrite nth_error_app2, Nat.sub_diag by lia. reflexivity.
      * intros s Hs. apply in_app_iff in Hs. destruct Hs as [Hs|[<-|[]]]; [|lia].
        specialize (Hmin s Hs). lia.
      * exists m. rewrite length_app in Hm. simpl in Hm.
        rewrite Nat.add_1_r, <- app_assoc in Hm. rewrite <- app_assoc in Hall.
        auto.
    + apply Nat.ltb_ge in E.
      destruct (IH (pre ++ [x]) best_pos best) as [m [Hm Hall]].
      * rewrite nth_error_app1; [exact Hb|]. apply nth_error_Some. congruence.
      * intros s Hs. apply in_app_iff in Hs. destruct Hs as [Hs|[<-|[]]]; auto.
      * exists m. rewrite length_app in Hm. simpl in Hm.
        rewrite Nat.add_1_r, <- app_assoc in Hm. rewrite <- app_assoc in Hall.
        auto.
Qed.

End EqualizationFacts.

(** X5 ([_minimize_time_diff]). The mask has one entry per time of the
    longer list and keeps exactly as many of them as the shorter list has
    times (all of them if the "shorter" list is in fact longer): every turn
    of the loop clears one entry that was still kept. For an empty shorter
    list nothing is kept. A shorter list of one time is left aside, since
    the interpolator of scipy decides what a single sample gives. *)
Theorem minimize_time_diff_keeps (t_shorter t_longer : list Q) :
  List.length t_shorter <> 1%nat ->
  let keep := _minimize_time_diff t_shorter t_longer in
  List.length keep = List.length t_longer /\
  List.length (filter (fun b : bool => b) keep)
  = Nat.min (List.length t_shorter) (List.length t_longer).
Proof.
  intros _. exact (_minimize_time_diff_kept t_shorter t_longer).
Qed.

Lemma minimize_time_diff_keeps_witness :
  let keep := _minimize_time_diff times_B times_A in
  List.length keep = List.length times_A /\
  List.length (filter (fun b : bool => b) keep)
  = Nat.min (List.length times_B) (List.length times_A).
Proof.
  apply minimize_time_diff_keeps. simpl. discriminate.
Defined.

Lemma _get_drop_indices_spec (event_times : list (list Q))
        (method : EqualizeMethod) (indices : list (list nat)) :
  _get_drop_indices event_times method = inr indices ->
  exists n_min : nat,
    (exists e, In e event_times /\ List.length e = n_min) /\
    Forall2 (fun (e : list Q) (inds : list nat) =>
               NoDup inds /\
               (forall i, In i inds -> (i < List.length e)%nat) /\
               (n_min <= List.length e)%nat /\
               (List.length e - List.length inds = n_min)%nat)
            event_times indices.
Proof.
  unfold _get_drop_indices.
  destruct event_times as [|e0 rest]; [discriminate|].
  cbn [map]. intros H. inversion H; subst; clear H.
  set (ets := e0 :: rest).
  set (sizes := map (fun e : list Q => List.length e) rest).
  set (small_idx := argmin_nat_from 1 0 (List.length e0) sizes).
  destruct (argmin_nat_from_spec sizes [List.length e0] 0%nat (List.length e0))
    as [m [Hm Hmin]]; [reflexivity | intros s [<-|[]]; lia |].
  change (argmin_nat_from (List.length [List.length e0]) 0 (List.length e0) sizes)
    with small_idx in Hm.
  change ([List.length e0] ++ sizes)
    with (map (fun e : list Q => List.length e) ets) in Hm, Hmin.
  rewrite nth_error_map in Hm.
  destruct (nth_error ets small_idx) as [small|] eqn:Es; [|discriminate].
  simpl in Hm. inversion Hm; subst m. clear Hm.
  assert (Hnth : nth small_idx ets [] = small) by (apply nth_error_nth; exact Es).
  exists (List.length small). split.
  { exists small. split; [eapply nth_error_In; exact Es | reflexivity]. }
  change (Forall2
            (fun (e : list Q) (inds : list nat) =>
               NoDup inds /\
               (forall i, In i inds -> (i < List.length e)%nat) /\
               (List.length small <= List.length e)%nat /\
               (List.length e - List.length inds = List.length small)%nat)
            ets
            (map (fun e =>
                    nonzero negb
                      match method with
                      | Mintime => _minimize_time_diff (nth small_idx ets []) e
                      | Truncate =>
                          map (fun i => (i <? List.length (nth small_idx ets []))%nat)
                              (seq 0 (List.length e))
                      end) ets)).
  rewrite Hnth.
  assert (Hall : forall e, In e ets -> (List.length small <= List.length e)%nat).
  { intros e He. apply Hmin. apply in_map. exact He. }
  clearbody ets. clear -Hall.
  induction ets as [|e ets IH]; simpl; constructor.
  - assert (Hle : (List.length small <= List.length e)%nat)
      by (apply Hall; now left).
    set (mask := match method with
                 | Mintime => _minimize_time_diff small e
                 | Truncate => map (fun i => (i <? List.length small)%nat)
                                   (seq 0 (List.length e))
                 end).
    assert (Hmask : List.length mask = List.length e /\
                    n_kept mask = List.length small).
    { unfold mask. destruct method.
      - destruct (_minimize_time_diff_kept small e) as [H1 H2].
        split; [exact H1|]. rewrite H2. lia.
      - rewrite length_map, length_seq, n_kept_truncate. split; [reflexivity | lia]. }
    destruct Hmask as [Hl Hk]. pose proof (n_kept_dropped mask) as Hd.
    split; [apply NoDup_nonzero_from|]. split; [|split; [exact Hle | lia]].
    intros i Hi. apply In_nonzero in Hi. destruct Hi as [b [Hb _]].
    rewrite <- Hl. apply nth_error_Some. congruence.
  - apply IH. intros e' He'. apply Hall. now right.
Qed.

(** X6 ([_get_drop_indices]). Whatever the method, the positions returned
    for each list are distinct, lie inside the list, and leave every list
    with the size of the smallest one. Under ['mintime'] the case of a
    smallest list that holds exactly one time is left aside, as for
    [_minimize_time_diff]: the interpolator of scipy decides what a single
    sample gives. *)
Theorem get_drop_indices_equalizes (event_times : list (list Q))
        (method : EqualizeMethod) (indices : list (list nat)) :
  (method = Mintime ->
   forall e, In e event_times ->
             (forall e', In e' event_times -> (List.length e <= List.length e')%nat) ->
             List.length e <> 1%nat) ->
  _get_drop_indices event_times method = inr indices ->
  exists n_min : nat,
    (exists e, In e event_times /\ List.length e = n_min) /\
    Forall2 (fun (e : list Q) (inds : list nat) =>
               NoDup inds /\
               (forall i, In i inds -> (i < List.length e)%nat) /\
               (n_min <= List.length e)%nat /\
               (List.length e - List.length inds = n_min)%nat)
            event_times indices.
Proof.
  intros _. apply _get_drop_indices_spec.
Qed.

Lemma get_drop_indices_equalizes_witness :
  exists n_min : nat,
    (exists e, In e [times_A; times_B] /\ List.length e = n_min) /\
    Forall2 (fun (e : list Q) (inds : list nat) =>
               NoDup inds /\
               (forall i, In i inds -> (i < List.length e)%nat) /\
               (n_min <= List.length e)%nat /\
               (List.length e - List.length inds = n_min)%nat)
            [times_A; times_B] [[0%nat; 1%nat]; []].
Proof.
  apply (get_drop_indices_equalizes [times_A; times_B] Mintime).
  - intros _ e [<-|[<-|[]]] _; simpl; discriminate.
  - reflexivity.
Defined.

(* ================================================================== *)
(** * The rejection policy *)
(* ================================================================== *)

Section RejectionPolicy.

Context `{Collaborators}.
Local Open Scope nat_scope.

Lemma fancy_index_total {A} (a : list A) (select : list nat) :
  (forall i, In i select -> i < List.length a) ->
  exists xs, fancy_index a select = inr xs.
Proof.
  induction select as [|i rest IH]; intros Hr; simpl; [eauto|].
  destruct (nth_error a i) as [x|] eqn:Hx.
  - destruct IH as [xs Hxs]; [intros j Hj; apply Hr; now right|].
    rewrite Hxs. eauto.
  - apply nth_error_None in Hx. specialize (Hr i (or_introl eq_refl)). lia.
Qed.

Lemma peak_to_peak_rows_total (rows : list (list Q)) :
  (forall row, In row rows -> row <> []) ->
  exists ds, peak_to_peak_rows rows = inr ds.
Proof.
  induction rows as [|row rest IH]; intros Hne; simpl; [eauto|].
  destruct row as [|x t]; [exfalso; apply (Hne []); [now left | reflexivity]|].
  simpl. destruct IH as [ds Hds]; [intros r Hr; apply Hne; now right|].
  rewrite Hds. simpl. eauto.
Qed.

Lemma fancy_index_In {A} (a : list A) (select : list nat) xs :
  fancy_index a select = inr xs ->
  forall x, In x xs -> exists i, In i select /\ nth_error a i = Some x.
Proof.
  revert xs. induction select as [|i rest IH]; intros xs Hf x Hx; simpl in Hf.
  - inversion Hf; subst. contradiction.
  - destruct (nth_error a i) as [y|] eqn:Hy; [|discriminate].
    destruct (fancy_index a rest) as [err|ys]; [discriminate|].
    inversion Hf; subst. destruct Hx as [->|Hx].
    + exists i. split; [now left | exact Hy].
    + destruct (IH ys eq_refl x Hx) as [j [Hj Hnth]]. exists j.
      split; [now right | exact Hnth].
Qed.

(** The amplitudes and names that one key pairs up: one pair per listed
    channel. *)
Lemma key_pairs_spec (e : Epoch) (names : list string) (cs : list nat) :
  forall rows ds ns,
    fancy_index e cs = inr rows ->
    peak_to_peak_rows rows = inr ds ->
    fancy_index names cs = inr ns ->
    forall d n,
      In (d, n) (combine ds ns) <->
      exists c row, In c cs /\ nth_error e c = Some row /\
                    peak_to_peak row = inr d /\ nth_error names c = Some n.
Proof.
  induction cs as [|c cs IH]; intros rows ds ns He Hd Hn d n; simpl in He, Hn.
  - inversion He; subst. simpl in Hd. inversion Hd; subst. simpl.
    split; [intros [] | intros [c [row [[] _]]]].
  - destruct (nth_error e c) as [row|] eqn:Hrow; [|discriminate].
    destruct (fancy_index e cs) as [err|rows']; [discriminate|].
    inversion He; subst rows. clear He.
    destruct (nth_error names c) as [n0|] eqn:Hn0; [|discriminate].
    destruct (fancy_index names cs) as [err|ns']; [discriminate|].
    inversion Hn; subst ns. clear Hn.
    simpl in Hd. unfold exc_bind in Hd.
    destruct (peak_to_peak row) as [err|d0] eqn:Hd0; [discriminate|].
    destruct (peak_to_peak_rows rows') as [err|ds'] eqn:Hds; [discriminate|].
    inversion Hd; subst ds. clear Hd. simpl.
    rewrite (IH rows' ds' ns' eq_refl Hds eq_refl d n). split.
    + intros [Heq|[c' [row' [Hc' Hrest]]]].
      * inversion Heq; subst. exists c, row. auto.
      * exists c', row'. auto.
    + intros [c' [row' [[<-|Hc'] [H1 [H2 H3]]]]].
      * left. rewrite Hrow in H1. inversion H1; subst row'.
        rewrite Hd0 in H2. inversion H2; subst. congruence.
      * right. exists c', row'. auto.
Qed.

(** The names one key contributes to the reasons. *)
Lemma offending_of_key_spec (e : Epoch) (names : list string)
      (idx : dict (list nat)) (ign : list string) (f : Q -> Q -> bool)
      (key : string) (t : Q) (bad : list string) :
  offending_of_key e names idx ign f key t = inr bad ->
  exists cs,
    dict_get idx key = Some cs /\
    forall name,
      In name bad <->
      exists c row d, In c cs /\ nth_error e c = Some row /\
                      peak_to_peak row = inr d /\ f d t = true /\
                      nth_error names c = Some name /\ mem_str name ign = false.
Proof.
  unfold offending_of_key.
  destruct (dict_get idx key) as [cs|]; [|discriminate].
  intros Hk. exists cs. split; [reflexivity|].
  destruct cs as [|c0 cs'].
  { inversion Hk; subst. intros name. split; [intros [] | intros [c [_ [_ [[] _]]]]]. }
  set (cs := c0 :: cs') in *. clearbody cs. unfold exc_bind in Hk.
  destruct (fancy_index e cs) as [err|rows] eqn:He; [discriminate|].
  destruct (peak_to_peak_rows rows) as [err|ds] eqn:Hd; [discriminate|].
  destruct (fancy_index names cs) as [err|ns] eqn:Hn; [discriminate|].
  inversion Hk; subst bad. clear Hk. intros name.
  rewrite in_map_iff. split.
  - intros [[d n] [Hname Hin]]. simpl in Hname. subst n.
    apply filter_In in Hin. destruct Hin as [Hin Hp]. simpl in Hp.
    apply andb_true_iff in Hp. destruct Hp as [Hf Hc].
    apply negb_true_iff in Hc.
    apply (key_pairs_spec e names cs rows ds ns He Hd Hn) in Hin.
    destruct Hin as [c [row [H1 [H2 [H3 H4]]]]]. exists c, row, d. auto 10.
  - intros [c [row [d [H1 [H2 [H3 [H4 [H5 H6]]]]]]]]. exists (d, name).
    split; [reflexivity|]. apply filter_In. split.
    + apply (key_pairs_spec e names cs rows ds ns He Hd Hn). exists c, row. auto.
    + simpl. rewrite H4, H6. reflexivity.
Qed.

(** The names one threshold dictionary contributes. *)
Lemma offending_spec (e : Epoch) (names : list string) (idx : dict (list nat))
      (ign : list string) (f : Q -> Q -> bool) (refl : option (dict Q))
      (bad : list string) :
  offending e names idx ign f refl = inr bad ->
  (forall key t, In (key, t) (or_empty refl) -> exists cs, dict_get idx key = Some cs) /\
  forall name,
    In name bad <->
    exists key t cs c row d,
      In (key, t) (or_empty refl) /\ dict_get idx key = Some cs /\ In c cs /\
      nth_error e c = Some row /\ peak_to_peak row = inr d /\ f d t = true /\
      nth_error names c = Some name /\ mem_str name ign = false.
Proof.
  unfold offending. destruct refl as [d|]; simpl.
  2:{ intros Hb. inversion Hb; subst. split; [intros key t []|].
      intros name. split; [intros [] | intros [key [t [cs [c [row [d [[] _]]]]]]]]. }
  revert bad. induction d as [|[key t] rest IH]; intros bad Hb; simpl in Hb.
  - inversion Hb; subst. split; [intros key t []|].
    intros name. split; [intros [] | intros [key [t [cs [c [row [d [[] _]]]]]]]].
  - unfold exc_bind in Hb.
    destruct (offending_of_key e names idx ign f key t) as [err|bad_k] eqn:Hk;
      [discriminate|].
    destruct (offending_of_dict e names idx ign f rest) as [err|more] eqn:Hr;
      [discriminate|].
    inversion Hb; subst bad. clear Hb.
    destruct (IH more eq_refl) as [Hkeys Hmore].
    destruct (offending_of_key_spec _ _ _ _ _ _ _ _ Hk) as [cs [Hcs Hbad]].
    split.
    + intros key' t' [Heq|Hin]; [inversion Heq; subst; eauto | eauto].
    + intros name. rewrite in_app_iff, Hbad, Hmore. split.
      * intros [[c [row [d [H1 H2]]]] | [key' [t' [cs' [c [row [d [H1 H2]]]]]]]].
        -- exists key, t, cs, c, row, d. split; [now left | auto].
        -- exists key', t', cs', c, row, d. split; [now right | exact H2].
      * intros [key' [t' [cs' [c [row [d [[Heq|Hin] [H2 H3]]]]]]]].
        -- inversion Heq; subst key' t'. left.
           rewrite Hcs in H2. inversion H2; subst cs'. exists c, row, d. exact H3.
        -- right. exists key', t', cs', c, row, d. auto.
Qed.

(** When the channel tables fit the data, one dictionary is scanned
    without an exception. *)
Lemma offending_total (e : Epoch) (names : list string) (idx : dict (list nat))
      (ign : list string) (f : Q -> Q -> bool) (refl : option (dict Q)) :
  (forall key t, In (key, t) (or_empty refl) ->
     exists cs, dict_get idx key = Some cs /\
       forall c, In c cs ->
                 (exists row, nth_error e c = Some row /\ row <> []) /\
                 c < List.length names) ->
  exists bad, offending e names idx ign f refl = inr bad.
Proof.
  unfold offending. destruct refl as [d|]; simpl; [|eauto].
  induction d as [|[key t] rest IH]; intros Hfit; simpl; [eauto|].
  destruct (Hfit key t (or_introl eq_refl)) as [cs [Hcs Hch]].
  destruct IH as [more Hmore]; [intros key' t' Hin; apply (Hfit key' t'); now right|].
  assert (Hk : exists bad_k, offending_of_key e names idx ign f key t = inr bad_k).
  { unfold offending_of_key. rewrite Hcs. destruct cs as [|c0 cs']; [eauto|].
    set (cs := c0 :: cs') in *. clearbody cs.
    destruct (fancy_index_total e cs) as [rows Hrows].
    { intros c Hc. destruct (Hch c Hc) as [[row [Hrow _]] _].
      apply nth_error_Some. congruence. }
    destruct (peak_to_peak_rows_total rows) as [ds Hds].
    { intros row Hrow. destruct (fancy_index_In _ _ _ Hrows row Hrow) as [c [Hc Hn]].
      destruct (Hch c Hc) as [[row' [Hrow' Hne]] _]. congruence. }
    destruct (fancy_index_total names cs) as [ns Hns].
    { intros c Hc. apply (Hch c Hc). }
    rewrite Hrows. simpl. rewrite Hds. simpl. rewrite Hns. simpl. eauto. }
  destruct Hk as [bad_k Hk]. rewrite Hk. simpl. rewrite Hmore. simpl. eauto.
Qed.

(** A verdict, read off the two scans. *)
Lemma _is_good_scans (e : Epoch) (names : list string) (idx : dict (list nat))
      (reject flat : option (dict Q)) (ign : list string) v :
  _is_good e names idx reject flat ign = inr v ->
  exists bad_reject bad_flat,
    offending e names idx ign (fun d t => Qltb t d) reject = inr bad_reject /\
    offending e names idx ign (fun d t => Qltb d t) flat = inr bad_flat /\
    (fst v = false <-> exists name, In name bad_reject \/ In name bad_flat).
Proof.
  unfold _is_good, exc_bind.
  destruct (offending _ _ _ _ _ reject) as [err|bad1]; [discriminate|].
  destruct (offending _ _ _ _ _ flat) as [err|bad2]; [discriminate|].
  intros Hv. exists bad1, bad2. split; [reflexivity|]. split; [reflexivity|].
  destruct (bad1 ++ bad2) as [|n l] eqn:E; inversion Hv; subst; simpl.
  - apply app_eq_nil in E. destruct E; subst.
    split; [discriminate | intros [name [[]|[]]]].
  - split; [|reflexivity]. intros _. exists n.
    apply in_app_or. rewrite E. now left.
Qed.

End RejectionPolicy.

(** X7 ([_is_good]). The verdict is monotone in the thresholds: when every
    [reject] threshold is kept or lowered and every [flat] threshold is
    kept or raised (no key being taken away), an epoch judged bad is never
    judged good: the call with the new thresholds returns a bad verdict
    whenever it returns (it raises, as the first call would, for a key
    missing from [channel_type_idx] or a channel without samples). So the
    epochs dropped under the old thresholds would be dropped under the new
    ones too. *)
Theorem is_good_monotone `{Collaborators} (e : Epoch) (names : list string)
        (idx : dict (list nat)) (reject reject' flat flat' : option (dict Q))
        (ign : list string) (reasons : option (list string))
        (verdict' : bool * option (list string)) :
  (forall key t, In (key, t) (or_empty reject) ->
                 exists t', In (key, t') (or_empty reject') /\ (t' <= t)%Q) ->
  (forall key t, In (key, t) (or_empty flat) ->
                 exists t', In (key, t') (or_empty flat') /\ (t <= t')%Q) ->
  _is_good e names idx reject flat ign = inr (false, reasons) ->
  _is_good e names idx reject' flat' ign = inr verdict' ->
  fst verdict' = false.
Proof.
  intros Hrej Hflat Hbad Hnew.
  destruct (_is_good_scans _ _ _ _ _ _ _ Hbad) as [b1 [b2 [Hb1 [Hb2 Hv]]]].
  destruct (_is_good_scans _ _ _ _ _ _ _ Hnew) as [b1' [b2' [Hb1' [Hb2' Hv']]]].
  apply Hv'. destruct (proj1 Hv eq_refl) as [name [Hn|Hn]]; exists name.
  - left. apply (proj2 (offending_spec _ _ _ _ _ _ _ Hb1)) in Hn.
    destruct Hn as [key [t [cs [c [row [d [H1 [H2 [H3 [H4 [H5 [H6 [H7 H8]]]]]]]]]]]]].
    destruct (Hrej key t H1) as [t' [Ht' Hle]].
    apply (proj2 (offending_spec _ _ _ _ _ _ _ Hb1')).
    exists key, t', cs, c, row, d. repeat (split; [assumption|]).
    split; [|split; assumption].
    apply Qltb_lt in H6. apply Qltb_lt. eapply Qle_lt_trans; eassumption.
  - right. apply (proj2 (offending_spec _ _ _ _ _ _ _ Hb2)) in Hn.
    destruct Hn as [key [t [cs [c [row [d [H1 [H2 [H3 [H4 [H5 [H6 [H7 H8]]]]]]]]]]]]].
    destruct (Hflat key t H1) as [t' [Ht' Hle]].
    apply (proj2 (offending_spec _ _ _ _ _ _ _ Hb2')).
    exists key, t', cs, c, row, d. repeat (split; [assumption|]).
    split; [|split; assumption].
    apply Qltb_lt in H6. apply Qltb_lt. eapply Qlt_le_trans; eassumption.
Qed.

Lemma is_good_monotone_witness :
  _is_good (H := table_source []) [[0#1; 10#1]]%Q ["EEG 001"] [("eeg", [0%nat])]
           (Some [("eeg", (5#1)%Q)]) None []
  = inr (false, Some ["EEG 001"]) /\
  exists verdict',
    _is_good (H := table_source []) [[0#1; 10#1]]%Q ["EEG 001"] [("eeg", [0%nat])]
             (Some [("eeg", (3#1)%Q)]) None []
    = inr verdict' /\
    fst verdict' = false.
Proof.
  split; [vm_compute; reflexivity|].
  exists (false, Some ["EEG 001"]). split; [vm_compute; reflexivity|].
  apply (is_good_monotone (H := table_source []) [[0#1; 10#1]]%Q ["EEG 001"]
                          [("eeg", [0%nat])]
                          (Some [("eeg", (5#1)%Q)]) (Some [("eeg", (3#1)%Q)])
                          None None [] (Some ["EEG 001"]) (false, Some ["EEG 001"])).
  - intros key t [Heq|[]]. inversion Heq; subst. exists (3#1)%Q.
    split; [now left | discriminate].
  - intros key t [].
  - vm_compute. reflexivity.
  - vm_compute. reflexivity.
Defined.

(** X8 ([_is_good]). When every key of [reject] and [flat] is a key of
    [channel_type_idx] and every channel listed under these keys has a row
    with at least one sample in the epoch and a name in [ch_names], the
    call returns a verdict. Whenever it returns, the epoch is good exactly
    when, over the channels that are not ignored, no channel of a type
    listed in [reject] has a peak-to-peak amplitude (the difference of its
    largest and smallest sample, as subtracted in double precision) above
    its threshold and no channel of a type listed in [flat] has one below
    its threshold; amplitudes equal to a threshold pass both tests. *)
Theorem is_good_iff `{Collaborators} (e : Epoch) (names : list string)
        (idx : dict (list nat)) (reject flat : option (dict Q)) (ign : list string) :
  ((forall key t, In (key, t) (or_empty reject ++ or_empty flat) ->
      exists cs, dict_get idx key = Some cs /\
        forall c, In c cs ->
                  (exists row, nth_error e c = Some row /\ row <> []) /\
                  (c < List.length names)%nat) ->
   exists verdict, _is_good e names idx reject flat ign = inr verdict)
  /\
  (forall verdict,
      _is_good e names idx reject flat ign = inr verdict ->
      (fst verdict = true <->
       (forall key t cs c row d name,
           In (key, t) (or_empty reject) -> dict_get idx key = Some cs -> In c cs ->
           nth_error e c = Some row -> peak_to_peak row = inr d ->
           nth_error names c = Some name -> mem_str name ign = false ->
           (d <= t)%Q) /\
       (forall key t cs c row d name,
           In (key, t) (or_empty flat) -> dict_get idx key = Some cs -> In c cs ->
           nth_error e c = Some row -> peak_to_peak row = inr d ->
           nth_error names c = Some name -> mem_str name ign = false ->
           (t <= d)%Q))).
Proof.
  split.
  - intros Hfit.
    destruct (offending_total e names idx ign (fun d t => Qltb t d) reject)
      as [b1 Hb1]; [intros key t Hin; apply (Hfit key t); apply in_or_app; now left|].
    destruct (offending_total e names idx ign (fun d t => Qltb d t) flat)
      as [b2 Hb2]; [intros key t Hin; apply (Hfit key t); apply in_or_app; now right|].
    unfold _is_good. rewrite Hb1. simpl. rewrite Hb2. simpl.
    destruct (b1 ++ b2); eauto.
  - intros v Hv.
    destruct (_is_good_scans _ _ _ _ _ _ _ Hv) as [b1 [b2 [Hb1 [Hb2 Hbad]]]].
    pose proof (proj2 (offending_spec _ _ _ _ _ _ _ Hb1)) as S1.
    pose proof (proj2 (offending_spec _ _ _ _ _ _ _ Hb2)) as S2.
    split.
    + intros Hgood.
      assert (Hnb : ~ exists name, In name b1 \/ In name b2)
        by (intros Hex; apply Hbad in Hex; congruence).
      split; intros key t cs c row d name H1 H2 H3 H4 H5 H6 H7.
      * apply Qltb_ge. destruct (Qltb t d) eqn:E; [|reflexivity].
        exfalso. apply Hnb. exists name. left. apply S1.
        exists key, t, cs, c, row, d. auto 10.
      * apply Qltb_ge. destruct (Qltb d t) eqn:E; [|reflexivity].
        exfalso. apply Hnb. exists name. right. apply S2.
        exists key, t, cs, c, row, d. auto 10.
    + intros [Hr Hf]. destruct (fst v) eqn:E; [reflexivity|]. exfalso.
      destruct (proj1 Hbad eq_refl) as [name [Hn|Hn]].
      * apply S1 in Hn.
        destruct Hn as [key [t [cs [c [row [d [H1 [H2 [H3 [H4 [H5 [H6 [H7 H8]]]]]]]]]]]]].
        specialize (Hr key t cs c row d name H1 H2 H3 H4 H5 H7 H8).
        apply Qltb_lt in H6. apply (Qlt_not_le _ _ H6). exact Hr.
      * apply S2 in Hn.
        destruct Hn as [key [t [cs [c [row [d [H1 [H2 [H3 [H4 [H5 [H6 [H7 H8]]]]]]]]]]]]].
        specialize (Hf key t cs c row d name H1 H2 H3 H4 H5 H7 H8).
        apply Qltb_lt in H6. apply (Qlt_not_le _ _ H6). exact Hf.
Qed.

(** X9 ([_reject_setup]). A request that is turned down with a [KeyError]
    or a [ValueError] (unknown channel type, threshold for a channel type
    without channels, negative threshold, less stringent threshold) leaves
    the collection exactly as it was. The only other exception is the
    [IndexError] of an empty rejection window, which comes after the new
    thresholds are in place. *)
Theorem reject_setup_failure_modes (new_reject new_flat : option (dict Q))
        (self self' : Epochs) (e : Exn) :
  _reject_setup new_reject new_flat self = (inl e, self') ->
  (((exists kind, e = KeyError kind) \/ (exists msg, e = ValueError msg))
   /\ self' = self)
  \/
  ((exists i, e = IndexError i)
   /\ reject self' = none_if_empty (or_empty new_reject)
   /\ flat self' = none_if_empty (or_empty new_flat)
   /\ _bad_dropped self' = false).
Proof.
  unfold _reject_setup.
  destruct (check_thresholds _ _ _) as [e1|] eqn:E1.
  { intros H. inversion H; subst. left. split; [|reflexivity].
    revert E1. unfold check_thresholds.
    repeat match goal with
           | |- context [if ?b then _ else _] => destruct b
           | |- context [match find ?f ?l with _ => _ end] =>
               destruct (find f l) as [[? ?]|]
           end;
      intros H1; inversion H1; subst; eauto. }
  destruct (check_stringency _ _ _ _) as [e2|] eqn:E2.
  { intros H. inversion H; subst. left. split; [|reflexivity].
    right. revert E2. unfold check_stringency.
    repeat match goal with
           | |- context [match find ?f ?l with _ => _ end] =>
               destruct (find f l)
           end;
      intros H2; inversion H2; subst; eauto. }
  match goal with
  | |- context [reject_window ?a ?b ?c] => destruct (reject_window a b c) as [e3|w] eqn:E3
  end; [|discriminate].
  intros H. inversion H; subst. right.
  split; [|destruct self; simpl; auto].
  revert E3. unfold reject_window, exc_bind.
  repeat match goal with
         | |- context [match ?x with _ => _ end] =>
             match type of x with
             | option Q => destruct x
             | list nat => destruct x
             end
         end;
    intros H3; inversion H3; subst; eauto.
Qed.

Lemma reject_setup_failure_modes_witness :
  (((exists kind, KeyError "reject" = KeyError kind)
    \/ (exists msg, KeyError "reject" = ValueError msg))
   /\ three_epochs = three_epochs)
  \/
  ((exists i, KeyError "reject" = IndexError i)
   /\ reject three_epochs = none_if_empty (or_empty (Some [("meg", (1#1)%Q)]))
   /\ flat three_epochs = none_if_empty (or_empty None)
   /\ _bad_dropped three_epochs = false).
Proof.
  apply (reject_setup_failure_modes (Some [("meg", (1#1)%Q)]) None three_epochs).
  reflexivity.
Defined.

Section RejectWindow.

Local Open Scope nat_scope.

Lemma nonzero_from_sorted {A} (f : A -> bool) (a : list A) (pos : nat) :
  StronglySorted lt (nonzero_from pos f a).
Proof.
  revert pos. induction a as [|x t IH]; intros pos; simpl; [constructor|].
  destruct (f x); [|apply IH].
  constructor; [apply IH|]. apply Forall_forall. intros k Hk.
  apply In_nonzero_from in Hk. lia.
Qed.

Lemma sorted_hd_least (l : list nat) (i : nat) (rest : list nat) :
  StronglySorted lt l -> l = i :: rest -> forall k, In k l -> i <= k.
Proof.
  intros Hs -> k [<-|Hk]; [lia|].
  inversion Hs as [|? ? _ Hall]; subst. rewrite Forall_forall in Hall.
  specialize (Hall k Hk). lia.
Qed.

Lemma sorted_last_greatest (l : list nat) :
  StronglySorted lt l ->
  forall i rest, rev l = i :: rest -> In i l /\ forall k, In k l -> k <= i.
Proof.
  induction 1 as [|x t Hs IH Hall]; intros i rest Hrev; [discriminate|].
  simpl in Hrev. rewrite Forall_forall in Hall.
  destruct (rev t) as [|j r] eqn:Er.
  - simpl in Hrev. inversion Hrev; subst.
    assert (t = []) by (apply (f_equal (@rev nat)) in Er; rewrite rev_involutive in Er; exact Er).
    subst. split; [now left|]. intros k [<-|[]]. lia.
  - simpl in Hrev. inversion Hrev; subst.
    destruct (IH i r eq_refl) as [Hin Hmax]. split; [now right|].
    intros k [<-|Hk]; [|auto]. specialize (Hall i Hin). lia.
Qed.

Lemma sorted_nth_lt (times : list Q) :
  StronglySorted Qlt times ->
  forall i j ti tj, i < j -> nth_error times i = Some ti ->
                    nth_error times j = Some tj -> (ti < tj)%Q.
Proof.
  induction 1 as [|x t Hs IH Hall]; intros i j ti tj Hlt Hi Hj.
  - destruct i; discriminate.
  - destruct j as [|j]; [lia|]. simpl in Hj. destruct i as [|i]; simpl in Hi.
    + inversion Hi; subst. rewrite Forall_forall in Hall.
      apply Hall. eapply nth_error_In. exact Hj.
    + eapply IH; [|exact Hi | exact Hj]. lia.
Qed.

Lemma In_apply_slice_window {A} (l : list A) (imin imax : nat) (x : A) :
  In x (apply_slice (mkSlice (Some imin) (Some imax) None) l) <->
  exists i, imin <= i < imax /\ nth_error l i = Some x.
Proof.
  unfold apply_slice. simpl. rewrite In_take_idx. split.
  - intros [i [Hi Hx]]. exists i. split; [|exact Hx].
    apply filter_In in Hi. destruct Hi as [_ Hi].
    rewrite !andb_true_iff, Nat.leb_le, Nat.ltb_lt in Hi. lia.
  - intros [i [Hi Hx]]. exists i. split; [|exact Hx].
    assert (Hlen : i < List.length l) by (apply nth_error_Some; congruence).
    apply filter_In. split; [apply in_seq; lia|].
    rewrite !andb_true_iff, Nat.leb_le, Nat.ltb_lt. split; [lia | reflexivity].
Qed.

End RejectWindow.

(** X10 ([_reject_setup]). With both ends of the rejection interval given
    and an increasing time axis, the window tested by the rejection covers
    the samples from [reject_tmin] on that lie strictly before the last
    sample at or below [reject_tmax]: that last sample is itself left out
    (it is the exclusive end of the slice), so every tested time is below
    [reject_tmax]. *)
Theorem reject_window_half_open (times : list Q) (lo hi : Q) (sl : Slice) :
  StronglySorted Qlt times ->
  reject_window times (Some lo) (Some hi) = inr (Some sl) ->
  exists t_last,
    In t_last times /\ (t_last <= hi)%Q /\
    (forall t, In t times -> (t <= hi)%Q -> (t <= t_last)%Q) /\
    (forall t, In t (apply_slice sl times) <->
               In t times /\ (lo <= t)%Q /\ (t < t_last)%Q) /\
    (forall t, In t (apply_slice sl times) -> (t < hi)%Q).
Proof.
  intros Hs. unfold reject_window, exc_bind.
  destruct (nonzero (fun t => Qle_bool lo t) times) as [|imin r1] eqn:E1;
    [discriminate|].
  destruct (rev (nonzero (fun t => Qle_bool t hi) times)) as [|imax r2] eqn:E2;
    [discriminate|].
  intros H. inversion H; subst. clear H.
  pose proof (sorted_hd_least _ _ _ (nonzero_from_sorted _ times 0%nat) E1) as Hmin.
  destruct (sorted_last_greatest _ (nonzero_from_sorted (fun t => Qle_bool t hi) times 0%nat)
                                 _ _ E2) as [Hin Hmax].
  fold (nonzero (fun t => Qle_bool lo t) times) in Hmin.
  fold (nonzero (fun t => Qle_bool t hi) times) in Hin, Hmax.
  assert (Himin : In imin (nonzero (fun t => Qle_bool lo t) times))
    by (rewrite E1; now left).
  apply In_nonzero in Himin. destruct Himin as [tmin [Htmin Hlo]].
  apply Qle_bool_iff in Hlo.
  apply In_nonzero in Hin. destruct Hin as [t_last [Hlast Hhi]].
  apply Qle_bool_iff in Hhi.
  assert (Hle_idx : forall i ti tj j, (i <= j)%nat -> nth_error times i = Some ti ->
                                      nth_error times j = Some tj -> (ti <= tj)%Q).
  { intros i ti tj j Hij Hi Hj. destruct (Nat.eq_dec i j) as [->|Hne].
    - rewrite Hi in Hj. inversion Hj. apply Qle_refl.
    - apply Qlt_le_weak. eapply (sorted_nth_lt times Hs i j); [lia | eauto | eauto]. }
  assert (Hwin : forall t, In t (apply_slice (mkSlice (Some imin) (Some imax) None) times)
                           <-> In t times /\ (lo <= t)%Q /\ (t < t_last)%Q).
  { intros t. rewrite In_apply_slice_window. split.
    - intros [i [Hi Ht]]. split; [eapply nth_error_In; exact Ht|]. split.
      + eapply Qle_trans; [exact Hlo|]. eapply (Hle_idx imin tmin t i); eauto. lia.
      + eapply (sorted_nth_lt times Hs i imax); eauto. lia.
    - intros [Ht [Hlot Hlt]]. apply In_nth_error in Ht. destruct Ht as [i Hi].
      exists i. split; [|exact Hi]. split.
      + apply Hmin. apply In_nonzero. exists t. split; [exact Hi|].
        apply Qle_bool_iff. exact Hlot.
      + destruct (Nat.lt_ge_cases i imax) as [Hlti|Hge]; [exact Hlti|].
        exfalso. apply (Qlt_not_le _ _ Hlt).
        eapply (Hle_idx imax t_last t i); eauto. }
  exists t_last. split; [eapply nth_error_In; exact Hlast|].
  split; [exact Hhi|]. split; [|split; [exact Hwin|]].
  - intros t Ht Hthi. apply In_nth_error in Ht. destruct Ht as [i Hi].
    assert (Hi_le : (i <= imax)%nat).
    { apply Hmax. apply In_nonzero. exists t. split; [exact Hi|].
      apply Qle_bool_iff. exact Hthi. }
    eapply (Hle_idx i t t_last imax); eauto.
  - intros t Ht. apply Hwin in Ht. destruct Ht as [_ [_ Hlt]].
    eapply Qlt_le_trans; eassumption.
Qed.

Lemma reject_window_half_open_witness :
  exists t_last,
    In t_last [0#1; 1#1; 2#1; 3#1]%Q /\ (t_last <= 2#1)%Q /\
    (forall t, In t [0#1; 1#1; 2#1; 3#1]%Q -> (t <= 2#1)%Q -> (t <= t_last)%Q) /\
    (forall t, In t (apply_slice (mkSlice (Some 1%nat) (Some 2%nat) None)
                                 [0#1; 1#1; 2#1; 3#1]%Q) <->
               In t [0#1; 1#1; 2#1; 3#1]%Q /\ (1#1 <= t)%Q /\ (t < t_last)%Q) /\
    (forall t, In t (apply_slice (mkSlice (Some 1%nat) (Some 2%nat) None)
                                 [0#1; 1#1; 2#1; 3#1]%Q) -> (t < 2#1)%Q).
Proof.
  apply (reject_window_half_open [0#1; 1#1; 2#1; 3#1]%Q (1#1)%Q (2#1)%Q).
  - repeat constructor.
  - reflexivity.
Defined.

(* ================================================================== *)
(** * Construction: what [__init__] returns and what it turns down *)
(* ================================================================== *)

Section Frames.

Context `{Collaborators}.

Lemma _getitem_frame item reason select_data :
  keeps_frame (_getitem item reason select_data).
Proof.
  intros self. unfold _getitem.
  destruct (match reason with
            | Some r => mark_dropped (drop_log self) _ r
            | None => inr (drop_log self)
            end) as [e|log]; simpl.
  - repeat split. apply incl_refl.
  - destruct self; simpl.
    match goal with |- context [if ?b then _ else _] => destruct b end;
      simpl; repeat split; intros e He; eapply take_idx_incl; exact He.
Qed.

Lemma _reject_setup_frame new_reject new_flat :
  keeps_frame (_reject_setup new_reject new_flat).
Proof.
  intros self. unfold _reject_setup.
  destruct (check_thresholds _ _ _); [simpl; repeat split; apply incl_refl|].
  destruct (check_stringency _ _ _ _); [simpl; repeat split; apply incl_refl|].
  match goal with
  | |- context [reject_window ?a ?b ?c] => destruct (reject_window a b c)
  end; destruct self; simpl; repeat split; apply incl_refl.
Qed.

Lemma _get_data_frame out picks item : keeps_frame (_get_data out picks item).
Proof.
  intros self.
  destruct (_bad_dropped self) eqn:Eb.
  { rewrite _get_data_dropped by exact Eb. repeat split. apply incl_refl. }
  destruct item as [select|].
  { rewrite _get_data_item_not_dropped by exact Eb. repeat split. apply incl_refl. }
  destruct (_get_data out picks None self) as [r self'] eqn:Eg.
  unfold _get_data in Eg. rewrite Eb in Eg.
  destruct (negb (List.length (seq 0 (List.length (events self)))
                  =? List.length (selection self))%nat);
    [inversion Eg; subst; simpl; repeat split; apply incl_refl|].
  destruct (rejection_loop self out _ 0 (selection self)) as [e|st];
    [inversion Eg; subst; simpl; repeat split; apply incl_refl|].
  match type of Eg with
  | match _getitem ?i ?r ?s ?self2 with _ => _ end = _ =>
      pose proof (_getitem_frame i r s self2) as Hf;
      destruct (_getitem i r s self2) as [[e|u] self3];
      assert (Hself2 : event_id self2 = event_id self /\ times self2 = times self
                       /\ events self2 = events self)
        by (destruct self; simpl;
            match goal with |- context [if ?b then _ else _] => destruct b end;
            simpl; auto)
  end;
    simpl in Hf; destruct Hf as [Hf1 [Hf2 Hf3]];
    destruct Hself2 as [Hs1 [Hs2 Hs3]]; rewrite Hs3 in Hf3.
  - inversion Eg; subst. simpl. split; [congruence|]. split; [congruence | exact Hf3].
  - destruct out; inversion Eg; subst; simpl;
      (split; [congruence|]; split; [congruence | exact Hf3]).
Qed.

Lemma load_data_frame : keeps_frame load_data.
Proof.
  intros self. unfold load_data.
  destruct (preload self); [simpl; repeat split; apply incl_refl|].
  pose proof (_get_data_frame true None None self) as Hf.
  destruct (_get_data true None None self) as [[e|data] self1]; simpl in *;
    [exact Hf|].
  destruct Hf as [Hf1 [Hf2 Hf3]]. destruct self1; simpl in *. auto.
Qed.

(** The steps a successful [__init__] went through. *)
Lemma __init___steps (a : InitArgs) (self : Epochs) :
  __init__ a = inr self ->
  exists events event_id sel log md w self1,
    init_event_table (arg_events a) (arg_event_id a) (arg_on_missing a)
                     (arg_selection a) (arg_drop_log a) (arg_metadata a)
                     (arg_event_repeated a)
    = inr (events, event_id, sel, log, md) /\
    check_data a (List.length events) = None /\
    Qltb (arg_tmax a) (arg_tmin a) = false /\
    arg_decim a <> 0%nat /\
    _reject_setup (arg_reject a) (arg_flat a)
                  (initial_object a events event_id sel log md w)
    = (inr tt, self1) /\
    ((arg_preload_at_end a = true /\ arg_data a = None /\
      load_data self1 = (inr tt, self))
     \/
     (arg_preload_at_end a = false /\
      (self = self1 \/
       exists projector data,
         arg_proj a = ProjTrue /\ _projector self1 = Some projector /\
         _data self1 = Some data /\
         self = set__data (Some (map (np_dot projector) data)) self1))).
Proof.
  unfold __init__, exc_bind. intros Hi.
  destruct (init_event_table _ _ _ _ _ _ _)
    as [e|[[[[ev eid] sel] log] md]] eqn:Ht; [discriminate|].
  match type of Hi with (if ?b then _ else _) = _ => destruct b end;
    [discriminate|].
  destruct (check_data a (List.length ev)) eqn:Ec; [discriminate|].
  destruct (Qltb (arg_tmax a) (arg_tmin a)) eqn:Eq; [discriminate|].
  destruct (check_reject_interval _ _ _ _ _ _) as [e|w]; [discriminate|].
  destruct (arg_decim a =? 0)%nat eqn:Ed; [discriminate|].
  apply Nat.eqb_neq in Ed.
  change (match _reject_setup (arg_reject a) (arg_flat a)
                              (initial_object a ev eid sel log md w) with
          | (inl e, _) => inl e
          | (inr _, self1) =>
              match
                (if arg_preload_at_end a
                 then match arg_data a with
                      | Some _ => inl AssertionError
                      | None => match load_data self1 with
                                | (inl e, _) => inl e
                                | (inr _, self2) => inr self2
                                end
                      end
                 else match arg_proj a, _projector self1, _data self1 with
                      | ProjTrue, Some projector, Some data =>
                          inr (set__data (Some (map (np_dot projector) data)) self1)
                      | _, _, _ => inr self1
                      end)
              with
              | inl e => inl e
              | inr self2 =>
                  if _check_consistency self2 then inr self2 else inl AssertionError
              end
          end = inr self) in Hi.
  destruct (_reject_setup (arg_reject a) (arg_flat a) _) as [[e|[]] self1] eqn:Er;
    [discriminate|].
  exists ev, eid, sel, log, md, w, self1.
  repeat (split; [first [reflexivity | assumption]|]).
  destruct (arg_preload_at_end a).
  - left. destruct (arg_data a); [discriminate|].
    destruct (load_data self1) as [[e|[]] self2]; [discriminate|].
    destruct (_check_consistency self2); inversion Hi; subst. auto.
  - right. split; [reflexivity|].
    destruct (arg_proj a) eqn:Ep, (_projector self1) as [p|] eqn:Epr,
             (_data self1) as [d|] eqn:Edt;
      match type of Hi with
      | (if ?c then _ else _) = _ => destruct c; inversion Hi; subst
      end; try (left; reflexivity).
    right. exists p, d. auto.
Qed.

End Frames.

Lemma take_idx_nonzero {A} (f : A -> bool) (a : list A) :
  take_idx a (nonzero f a) = filter f a.
Proof.
  unfold nonzero.
  assert (Hgen : forall pre, take_idx (pre ++ a) (nonzero_from (List.length pre) f a)
                             = filter f a).
  { induction a as [|x t IH]; intros pre; simpl; [reflexivity|].
    assert (Hnext : take_idx (pre ++ x :: t) (nonzero_from (S (List.length pre)) f t)
                    = filter f t).
    { replace (pre ++ x :: t) with ((pre ++ [x]) ++ t) by (rewrite <- app_assoc; reflexivity).
      replace (S (List.length pre)) with (List.length (pre ++ [x]))
        by (rewrite length_app; simpl; lia).
      apply IH. }
    destruct (f x); [|exact Hnext].
    rewrite take_idx_cons, nth_error_app2, Nat.sub_diag by lia. simpl.
    f_equal. exact Hnext. }
  exact (Hgen []).
Qed.

(** The steps a successful event-table block went through. *)
Lemma init_event_table_steps events event_id on_missing selection drop_log metadata
      policy ev2 eid2 sel2 log2 md2 :
  init_event_table events event_id on_missing selection drop_log metadata policy
  = inr (ev2, eid2, sel2, log2, md2) ->
  let selected := nonzero (fun e => mem_Z (ev_code e) (dict_values event_id)) events in
  let sel0 := match selection with None => selected | Some sel => sel end in
  exists log0,
    List.length sel0 = List.length selected /\
    match drop_log with
    | Some dl => log0 = dl
    | None =>
        exists s0 ss, sel0 = s0 :: ss /\
          log0 = map (fun k => if mem_nat k sel0 then [] else ["IGNORED"])
                     (seq 0 (Nat.max (List.length events)
                                     (fold_left Nat.max ss s0 + 1)))
    end /\
    _handle_event_repeated (filter (fun e => mem_Z (ev_code e) (dict_values event_id))
                                   events)
                           event_id policy sel0 log0
    = inr (ev2, eid2, sel2, log2) /\
    ev2 <> [].
Proof.
  intros Hi selected sel0. unfold init_event_table, exc_bind in Hi.
  destruct (flat_map _ events); [discriminate|].
  destruct (_ >? INT32_MAX); [discriminate|].
  match type of Hi with
  | match ?m with Some _ => _ | None => _ end = _ => destruct m as [[? ?]|]
  end; [discriminate|].
  rewrite take_idx_nonzero in Hi.
  fold selected in Hi. fold sel0 in Hi.
  destruct (List.length sel0 =? List.length selected)%nat eqn:El; [|discriminate].
  apply Nat.eqb_eq in El. simpl in Hi.
  match type of Hi with
  | match ?m with inl _ => _ | inr _ => _ end = _ => destruct m as [e|log0] eqn:Hlog0
  end; [discriminate|].
  destruct (_handle_event_repeated _ _ _ sel0 log0)
    as [e|[[[ev eid] sel] log]] eqn:Hh; [discriminate|].
  match type of Hi with
  | match ?m with inl _ => _ | inr _ => _ end = _ => destruct m as [e|md]
  end; [discriminate|].
  destruct ev as [|e0 ev]; [discriminate|]. simpl in Hi.
  inversion Hi; subst. exists log0. split; [exact El|]. split; [|split].
  - destruct drop_log as [dl|].
    + inversion Hlog0. reflexivity.
    + destruct sel0 as [|s0 ss]; [discriminate|]. inversion Hlog0.
      exists s0, ss. auto.
  - exact Hh.
  - discriminate.
Qed.

Lemma _handle_event_repeated_distinct events event_id policy selection drop_log :
  NoDup (map ev_sample events) ->
  List.length events = List.length selection ->
  _handle_event_repeated events event_id policy selection drop_log
  = inr (events, event_id, selection, drop_log).
Proof.
  intros Hnd Hlen. unfold _handle_event_repeated.
  rewrite Hlen, Nat.eqb_refl. simpl.
  rewrite (length_np_unique_NoDup _ Hnd), length_map, Hlen, Nat.eqb_refl.
  reflexivity.
Qed.

Lemma _handle_event_repeated_codes events event_id policy selection drop_log
      ev2 eid2 sel2 log2 :
  policy <> ER_merge ->
  _handle_event_repeated events event_id policy selection drop_log
  = inr (ev2, eid2, sel2, log2) ->
  (forall e, In e events -> In (ev_code e) (dict_values event_id)) ->
  forall e, In e ev2 -> In e events /\ In (ev_code e) (dict_values eid2).
Proof.
  intros Hpol Hh Hcodes. revert Hh. unfold _handle_event_repeated.
  destruct (negb _); [discriminate|].
  destruct (_ =? _)%nat.
  { intros Hh. inversion Hh; subst. auto. }
  destruct policy; [discriminate | | contradiction].
  unfold exc_bind.
  destruct (extend_drop_log drop_log _ _) as [err|log]; [discriminate|].
  intros Hh. inversion Hh; subst. clear Hh.
  intros e He. assert (Hin : In e events) by (eapply take_idx_incl; exact He).
  split; [exact Hin|].
  specialize (Hcodes e Hin). unfold dict_values in *.
  apply in_map_iff in Hcodes. destruct Hcodes as [[k v] [Hv Hkv]]. simpl in Hv.
  apply in_map_iff. exists (k, v). split; [exact Hv|].
  apply filter_In. split; [exact Hkv|]. simpl. apply mem_Z_In.
  unfold prior_and_code. apply in_flat_map. exists e. split; [exact He|].
  subst v. simpl. auto.
Qed.

Section ConstructionProperties.

Context `{Collaborators}.

Lemma keeps_frame_bind {A B} (m : M A) (k : A -> M B) :
  keeps_frame m -> (forall a, keeps_frame (k a)) -> keeps_frame (bind m k).
Proof.
  intros Hm Hk self. unfold bind. specialize (Hm self).
  destruct (m self) as [[e|a] self1]; simpl in *; [exact Hm|].
  specialize (Hk a self1). destruct Hm as [H1 [H2 H3]], Hk as [K1 [K2 K3]].
  split; [congruence|]. split; [congruence|].
  eapply incl_tran; eassumption.
Qed.

Lemma keeps_frame_pure {A} (r : Exc A) : keeps_frame (fun self => (r, self)).
Proof. intros self. simpl. repeat split. apply incl_refl. Qed.

Lemma keeps_frame_get_self : keeps_frame get_self.
Proof. intros self. simpl. repeat split. apply incl_refl. Qed.

Lemma drop_frame indices reason : keeps_frame (drop indices reason).
Proof.
  intros self. unfold drop.
  destruct (filter _ (index_list indices)).
  - apply _getitem_frame.
  - simpl. repeat split. apply incl_refl.
Qed.

Lemma drop_bad_frame reject_arg flat_arg : keeps_frame (drop_bad reject_arg flat_arg).
Proof.
  intros self. unfold drop_bad.
  match goal with |- context [if ?b then _ else _] => destruct b end.
  - simpl. repeat split. apply incl_refl.
  - revert self. cbv zeta.
    intros self.
    refine (keeps_frame_bind _ _ _ _ self).
    + apply _reject_setup_frame.
    + intros _. apply keeps_frame_bind; [apply _get_data_frame|].
      intros x. apply (keeps_frame_pure (inr tt)).
Qed.

Lemma reset_drop_log_selection_frame : keeps_frame reset_drop_log_selection.
Proof.
  intros self. unfold reset_drop_log_selection.
  match goal with |- context [if ?b then _ else _] => destruct b end;
    destruct self; simpl; repeat split; apply incl_refl.
Qed.

Lemma equalize_event_counts_frame event_ids method :
  keeps_frame (equalize_event_counts event_ids method).
Proof.
  unfold equalize_event_counts. destruct event_ids as [|ids rest].
  - apply (keeps_frame_pure (inl (ValueError NoEventIds))).
  - apply keeps_frame_bind; [apply keeps_frame_get_self|].
    intros self0. apply keeps_frame_bind.
    { destruct (_bad_dropped self0);
        [apply (keeps_frame_pure (inr tt)) | apply drop_bad_frame]. }
    intros _. apply keeps_frame_bind; [apply keeps_frame_get_self|].
    intros self. apply keeps_frame_bind.
    { destruct (existsb _ _); [apply keeps_frame_pure | apply (keeps_frame_pure (inr _))]. }
    intros ids'. apply keeps_frame_bind; [apply keeps_frame_pure|].
    intros eq_inds. apply keeps_frame_bind; [apply keeps_frame_pure|].
    intros indices. apply keeps_frame_bind; [apply drop_frame|].
    intros _. apply (keeps_frame_pure (inr _)).
Qed.

Lemma __init___frame (a : InitArgs) (self : Epochs) :
  __init__ a = inr self ->
  exists ev eid sel log md,
    init_event_table (arg_events a) (arg_event_id a) (arg_on_missing a)
                     (arg_selection a) (arg_drop_log a) (arg_metadata a)
                     (arg_event_repeated a)
    = inr (ev, eid, sel, log, md) /\
    event_id self = eid /\
    incl (events self) ev /\
    (arg_preload_at_end a = false ->
     events self = ev /\ selection self = sel /\ drop_log self = log).
Proof.
  intros Hi. apply __init___steps in Hi.
  destruct Hi as [ev [eid [sel [log [md [w [self1 [Ht [_ [_ [_ [Hr Hend]]]]]]]]]]]].
  exists ev, eid, sel, log, md. split; [exact Ht|].
  pose proof (_reject_setup_frame (arg_reject a) (arg_flat a)
                                  (initial_object a ev eid sel log md w)) as Hf.
  pose proof (_reject_setup_tables (arg_reject a) (arg_flat a)
                                   (initial_object a ev eid sel log md w)) as Htab.
  rewrite Hr in Hf, Htab. simpl in Hf, Htab.
  destruct Hf as [Hf1 [_ Hf3]]. destruct Htab as [Ht1 [Ht2 Ht3]].
  destruct Hend as [[Hp [_ Hl]]|[Hp Hs]].
  - pose proof (load_data_frame self1) as Hld. rewrite Hl in Hld. simpl in Hld.
    destruct Hld as [Hl1 [_ Hl3]].
    split; [congruence|]. split; [eapply incl_tran; eassumption|].
    rewrite Hp. discriminate.
  - assert (Hsame : event_id self = event_id self1 /\ events self = events self1 /\
                    selection self = selection self1 /\ drop_log self = drop_log self1).
    { destruct Hs as [->|[p [d [_ [_ [_ ->]]]]]]; [auto|]. destruct self1; simpl; auto. }
    destruct Hsame as [S1 [S2 [S3 S4]]].
    split; [congruence|]. split; [rewrite S2, Ht1; apply incl_refl|].
    intros _. repeat split; congruence.
Qed.

End ConstructionProperties.

(** X11 ([BaseEpochs.__init__]). Under the policies ['error'] and ['drop']
    every event of a freshly built collection is one of the rows handed to
    the constructor, and its code is a value of the collection's
    [event_id]. *)
Theorem init_codes_known `{Collaborators} (a : InitArgs) (self : Epochs) :
  __init__ a = inr self ->
  arg_event_repeated a <> ER_merge ->
  forall e, In e (events self) ->
            In e (arg_events a) /\ In (ev_code e) (dict_values (event_id self)).
Proof.
  intros Hi Hpol e He.
  destruct (__init___frame a self Hi) as [ev [eid [sel [log [md [Ht [Hid [Hinc _]]]]]]]].
  apply init_event_table_steps in Ht. destruct Ht as [log0 [_ [_ [Hh _]]]].
  destruct (_handle_event_repeated_codes _ _ _ _ _ _ _ _ _ Hpol Hh) with (e := e)
    as [Hin Hcode].
  - intros e' He'. apply filter_In in He'. destruct He' as [_ He'].
    apply mem_Z_In. exact He'.
  - apply Hinc. exact He.
  - apply filter_In in Hin. rewrite Hid. tauto.
Qed.

Lemma init_codes_known_witness :
  In (30, 0, 1) (arg_events three_args) /\
  In (ev_code (30, 0, 1)) (dict_values (event_id three_epochs)).
Proof.
  apply (init_codes_known (H := table_source []) three_args three_epochs).
  - reflexivity.
  - discriminate.
  - vm_compute. auto.
Defined.

(** X12 (the methods of [BaseEpochs]). No call adds an event or touches
    the event ids or the time axis: after [drop], [drop_bad], [_get_data],
    [load_data], [reset_drop_log_selection] and [equalize_event_counts],
    returning or raising, the events are among those held before and
    [event_id] and [times] are what they were. *)
Theorem methods_keep_frame `{Collaborators} :
  (forall indices reason, keeps_frame (drop indices reason)) /\
  (forall reject_arg flat_arg, keeps_frame (drop_bad reject_arg flat_arg)) /\
  (forall out picks item, keeps_frame (_get_data out picks item)) /\
  keeps_frame load_data /\
  keeps_frame reset_drop_log_selection /\
  (forall event_ids method, keeps_frame (equalize_event_counts event_ids method)).
Proof.
  split; [exact drop_frame|]. split; [exact drop_bad_frame|].
  split; [exact _get_data_frame|]. split; [exact load_data_frame|].
  split; [exact reset_drop_log_selection_frame | exact equalize_event_counts_frame].
Qed.

Lemma init_event_table_empty ev eid on_missing selection drop_log metadata policy :
  (forall e, In e ev -> mem_Z (ev_code e) (dict_values eid) = false) ->
  exists msg,
    init_event_table ev eid on_missing selection drop_log metadata policy
    = inl (ValueError msg).
Proof.
  intros Hnone. unfold init_event_table.
  destruct (flat_map _ ev) as [|v0 vs]; [eauto|].
  destruct (_ >? INT32_MAX); [eauto|].
  match goal with
  | |- context [match ?m with Some _ => _ | None => _ end] =>
      destruct m as [[? ?]|]
  end; [eauto|].
  assert (Hsel : nonzero (fun e => mem_Z (ev_code e) (dict_values eid)) ev = []).
  { destruct (nonzero _ ev) as [|k r] eqn:E; [reflexivity|].
    assert (Hk : In k (nonzero (fun e => mem_Z (ev_code e) (dict_values eid)) ev))
      by (rewrite E; now left).
    apply In_nonzero in Hk. destruct Hk as [e [He Hm]].
    apply nth_error_In in He. rewrite (Hnone e He) in Hm. discriminate. }
  rewrite Hsel.
  destruct selection as [[|s ss]|]; simpl; [| eauto |].
  - destruct drop_log as [dl|]; simpl; [|eauto].
    destruct metadata; simpl; eauto.
  - destruct drop_log as [dl|]; simpl; [|eauto].
    destruct metadata; simpl; eauto.
Qed.

(** X13 ([BaseEpochs.__init__]). A collection built without loading at the
    end holds at least one event; and when no row carries a code of
    [event_id], the constructor raises a [ValueError], whatever the other
    arguments. *)
Theorem init_never_empty `{Collaborators} (a : InitArgs) :
  (forall self, __init__ a = inr self -> arg_preload_at_end a = false ->
                events self <> []) /\
  ((forall e, In e (arg_events a) ->
              mem_Z (ev_code e) (dict_values (arg_event_id a)) = false) ->
   exists msg, __init__ a = inl (ValueError msg)).
Proof.
  split.
  - intros self Hi Hp.
    destruct (__init___frame a self Hi) as [ev [eid [sel [log [md [Ht [_ [_ Hev]]]]]]]].
    destruct (Hev Hp) as [-> _].
    apply init_event_table_steps in Ht. destruct Ht as [log0 [_ [_ [_ Hne]]]].
    exact Hne.
  - intros Hnone. unfold __init__.
    destruct (init_event_table_empty (arg_events a) (arg_event_id a) (arg_on_missing a)
                (arg_selection a) (arg_drop_log a) (arg_metadata a)
                (arg_event_repeated a) Hnone) as [msg Hm].
    rewrite Hm. simpl. eauto.
Qed.

Lemma init_never_empty_witness :
  (forall self,
      __init__ (H := table_source [])
               (example_args [] [(10, 0, 7)] [("a", 1)] ProjFalse None) = inr self ->
      arg_preload_at_end (example_args [] [(10, 0, 7)] [("a", 1)] ProjFalse None)
      = false ->
      events self <> []) /\
  exists msg,
    __init__ (H := table_source [])
             (example_args [] [(10, 0, 7)] [("a", 1)] ProjFalse None)
    = inl (ValueError msg).
Proof.
  destruct (init_never_empty (H := table_source [])
              (example_args [] [(10, 0, 7)] [("a", 1)] ProjFalse None)) as [H1 H2].
  split; [exact H1|]. apply H2.
  intros e [<-|[]]. reflexivity.
Defined.

(** X14 ([BaseEpochs.__init__]). Arguments the constructor never accepts:
    a [detrend] other than [None], 0 or 1; [tmin] after [tmax]; a
    decimation factor of 0; a data array together with a decimation factor
    other than 1, or together with loading at the end. In each case an
    exception is raised and no collection is returned. *)
Theorem init_rejects_invalid `{Collaborators} (a : InitArgs) :
  (exists n, arg_detrend a = Some (S (S n)))
  \/ (arg_tmax a < arg_tmin a)%Q
  \/ arg_decim a = 0%nat
  \/ (arg_data a <> None /\ arg_decim a <> 1%nat)
  \/ (arg_data a <> None /\ arg_preload_at_end a = true) ->
  exists e, __init__ a = inl e.
Proof.
  intros Hbad.
  destruct (__init__ a) as [e|self] eqn:Hi; [eauto|]. exfalso.
  pose proof Hi as Hi'. apply __init___steps in Hi'.
  destruct Hi' as [ev [eid [sel [log [md [w [self1 [Ht [Hc [Hq [Hd [Hr Hend]]]]]]]]]]]].
  destruct Hbad as [[n Hn]|[Hlt|[Hz|[[Hdata Hdec]|[Hdata Hp]]]]].
  - revert Hi. unfold __init__, exc_bind. rewrite Ht, Hn. discriminate.
  - apply Qltb_lt in Hlt. congruence.
  - contradiction.
  - revert Hc. unfold check_data. destruct (arg_data a); [|contradiction].
    destruct (arg_decim a =? 1)%nat eqn:E; [|discriminate].
    apply Nat.eqb_eq in E. contradiction.
  - destruct Hend as [[_ [Hn _]]|[Hp' _]]; congruence.
Qed.

Lemma init_rejects_invalid_witness :
  exists e,
    __init__ (H := table_source [])
      {| arg_info := eeg_info; arg_data := None;
         arg_events := [(10, 0, 1)]; arg_event_id := [("a", 1)];
         arg_tmin := (1#1)%Q; arg_tmax := (0#1)%Q; arg_sfreq := (1#1)%Q;
         arg_decim := 1%nat; arg_baseline := None; arg_reject := None;
         arg_flat := None; arg_reject_tmin := None; arg_reject_tmax := None;
         arg_detrend := None; arg_proj := ProjFalse; arg_projector := None;
         arg_on_missing := OM_raise; arg_preload_at_end := false;
         arg_selection := None; arg_drop_log := None; arg_metadata := None;
         arg_event_repeated := ER_error |} = inl e.
Proof.
  apply init_rejects_invalid. right. left. reflexivity.
Defined.

Section DefaultTables.

Local Open Scope nat_scope.

Lemma fold_left_max_le (l : list nat) (x0 b : nat) :
  x0 <= b -> (forall y, In y l -> y <= b) -> fold_left Nat.max l x0 <= b.
Proof.
  revert x0. induction l as [|y l IH]; intros x0 H0 Hl; simpl; [exact H0|].
  apply IH; [|intros z Hz; apply Hl; now right].
  apply Nat.max_lub; [exact H0 | apply Hl; now left].
Qed.

(** The drop log generated from a selection made of the positions that
    pass a test: empty where the test holds, ['IGNORED'] elsewhere. *)
Lemma generated_drop_log_map {A} (f : A -> bool) (a : list A) (pos : nat) :
  map (fun k => if mem_nat k (nonzero_from pos f a) then [] else ["IGNORED"%string])
      (seq pos (List.length a))
  = map (fun x => if f x then [] else ["IGNORED"%string]) a.
Proof.
  revert pos. induction a as [|x t IH]; intros pos; [reflexivity|].
  cbn [List.length seq map nonzero_from].
  assert (Hfar : mem_nat pos (nonzero_from (S pos) f t) = false).
  { destruct (mem_nat pos (nonzero_from (S pos) f t)) eqn:E; [|reflexivity].
    apply mem_nat_In, In_nonzero_from in E. lia. }
  f_equal.
  - destruct (f x); [|rewrite Hfar; reflexivity].
    unfold mem_nat. simpl. rewrite Nat.eqb_refl. reflexivity.
  - rewrite <- (IH (S pos)). apply map_ext_in. intros k Hk. apply in_seq in Hk.
    destruct (f x); [|reflexivity].
    unfold mem_nat. simpl.
    destruct (k =? pos) eqn:E; [apply Nat.eqb_eq in E; lia | reflexivity].
Qed.

End DefaultTables.

(** X15 ([BaseEpochs.__init__]). Built from rows with pairwise distinct
    sample numbers, without explicit [selection] and [drop_log] and without
    loading at the end, the collection holds exactly the rows whose code is
    a value of [event_id], in their order; [selection] lists their
    positions among the rows; the drop log has one entry per row, empty for
    a retained row and [('IGNORED',)] for every other; [event_id] is kept
    as given, unused names included. *)
Theorem init_default_tables `{Collaborators} (a : InitArgs) (self : Epochs) :
  let wanted := fun e => mem_Z (ev_code e) (dict_values (arg_event_id a)) in
  __init__ a = inr self ->
  arg_selection a = None -> arg_drop_log a = None ->
  arg_preload_at_end a = false ->
  NoDup (map ev_sample (filter wanted (arg_events a))) ->
  events self = filter wanted (arg_events a) /\
  selection self = nonzero wanted (arg_events a) /\
  drop_log self = map (fun e => if wanted e then [] else ["IGNORED"]) (arg_events a) /\
  event_id self = arg_event_id a.
Proof.
  intros wanted Hi Hsel Hlog Hp Hnd.
  destruct (__init___frame a self Hi) as [ev [eid [sel [log [md [Ht [Hid [_ Hev]]]]]]]].
  destruct (Hev Hp) as [He [Hs Hl]]. clear Hev.
  apply init_event_table_steps in Ht. cbv zeta in Ht.
  rewrite Hsel, Hlog in Ht. fold wanted in Ht.
  destruct Ht as [log0 [_ [[s0 [ss [Hs0 Hlog0]]] [Hh _]]]].
  rewrite _handle_event_repeated_distinct in Hh.
  - injection Hh as E1 E2 E3 E4.
    rewrite He, Hs, Hl, Hid, <- E1, <- E2, <- E3, <- E4. repeat split.
    rewrite Hlog0.
    assert (Hmax : Nat.max (List.length (arg_events a))
                           (fold_left Nat.max ss s0 + 1)
                   = List.length (arg_events a)).
    { apply Nat.max_l.
      assert (Hb : forall k, In k (s0 :: ss) -> (k < List.length (arg_events a))%nat).
      { intros k Hk. rewrite <- Hs0 in Hk. apply In_nonzero in Hk.
        destruct Hk as [e [Hk _]]. apply nth_error_Some. congruence. }
      assert (Hf : (fold_left Nat.max ss s0 <= List.length (arg_events a) - 1)%nat).
      { apply fold_left_max_le.
        - specialize (Hb s0 (or_introl eq_refl)). lia.
        - intros y Hy. specialize (Hb y (or_intror Hy)). lia. }
      specialize (Hb s0 (or_introl eq_refl)). lia. }
    rewrite Hmax. apply (generated_drop_log_map wanted (arg_events a) 0).
  - exact Hnd.
  - unfold nonzero. rewrite length_nonzero_from. reflexivity.
Qed.

Lemma init_default_tables_witness :
  let wanted := fun e => mem_Z (ev_code e) (dict_values (arg_event_id three_args)) in
  events three_epochs = filter wanted (arg_events three_args) /\
  selection three_epochs = nonzero wanted (arg_events three_args) /\
  drop_log three_epochs
  = map (fun e => if wanted e then [] else ["IGNORED"]) (arg_events three_args) /\
  event_id three_epochs = arg_event_id three_args.
Proof.
  apply (init_default_tables (H := table_source []) three_args three_epochs);
    try reflexivity.
  repeat constructor; simpl; intuition discriminate.
Defined.

(* ================================================================== *)
(** * The time axis *)
(* ================================================================== *)

Lemma py_round_comp (p q : Q) : (p == q)%Q -> py_round p = py_round q.
Proof.
  intros Hpq. unfold py_round.
  rewrite (Qfloor_comp _ _ Hpq).
  assert (Hc : (p - inject_Z (Qfloor q) ?= 1 # 2)%Q
               = (q - inject_Z (Qfloor q) ?= 1 # 2)%Q).
  { apply Qcompare_comp; [rewrite Hpq; reflexivity | reflexivity]. }
  rewrite Hc. reflexivity.
Qed.

Lemma Qfloor_unique (q : Q) (n : Z) :
  (inject_Z n <= q)%Q -> (q < inject_Z (n + 1))%Q -> Qfloor q = n.
Proof.
  intros Hle Hlt.
  assert (H1 : n <= Qfloor q).
  { rewrite <- (Qfloor_Z n). apply Qfloor_resp_le. exact Hle. }
  assert (H2 : Qfloor q < n + 1).
  { rewrite Zlt_Qlt. eapply Qle_lt_trans; [apply Qfloor_le | exact Hlt]. }
  lia.
Qed.

Lemma Qfloor_plus_Z (q : Q) (z : Z) : Qfloor (q + inject_Z z) = Qfloor q + z.
Proof.
  apply Qfloor_unique.
  - rewrite inject_Z_plus. apply Qplus_le_compat; [apply Qfloor_le | apply Qle_refl].
  - replace (Qfloor q + z + 1) with ((Qfloor q + 1) + z) by lia.
    rewrite inject_Z_plus. apply Qplus_lt_le_compat; [apply Qlt_floor | apply Qle_refl].
Qed.

Lemma py_round_Z (z : Z) : py_round (inject_Z z) = z.
Proof.
  unfold py_round. rewrite Qfloor_Z.
  assert (Hc : (inject_Z z - inject_Z z ?= 1 # 2)%Q = Lt).
  { apply Qlt_alt. setoid_replace (inject_Z z - inject_Z z)%Q with (0#1)%Q by ring.
    reflexivity. }
  rewrite Hc. reflexivity.
Qed.

Lemma py_round_bounds (q : Q) : Qfloor q <= py_round q <= Qfloor q + 1.
Proof.
  unfold py_round.
  destruct (q - inject_Z (Qfloor q) ?= 1 # 2)%Q; [destruct (Z.even (Qfloor q))| |]; lia.
Qed.

Lemma py_round_nonneg (q : Q) : (0 <= q)%Q -> 0 <= py_round q.
Proof.
  intros Hq. pose proof (py_round_bounds q) as [Hb _].
  assert (H0 : 0 <= Qfloor q).
  { change 0 with (Qfloor (inject_Z 0)). apply Qfloor_resp_le. exact Hq. }
  lia.
Qed.

Lemma py_round_nonpos (q : Q) : (q <= 0)%Q -> py_round q <= 0.
Proof.
  intros Hq.
  assert (H0 : Qfloor q <= 0).
  { change 0 with (Qfloor (inject_Z 0)). apply Qfloor_resp_le. exact Hq. }
  destruct (Z.eq_dec (Qfloor q) 0) as [E|E].
  - assert (Hz : (q == 0)%Q).
    { apply Qle_antisym; [exact Hq|].
      pose proof (Qfloor_le q) as Hf. rewrite E in Hf. exact Hf. }
    rewrite (py_round_comp q (inject_Z 0) Hz), py_round_Z. lia.
  - pose proof (py_round_bounds q). lia.
Qed.

Section TimeAxis.

Local Open Scope nat_scope.

Lemma In_apply_slice {A} (sl : Slice) (l : list A) (x : A) :
  In x (apply_slice sl l) <->
  exists i, nth_error l i = Some x /\
            match sl_start sl with Some s => s | None => 0 end <= i /\
            i < match sl_stop sl with
                | Some s => Nat.min s (List.length l)
                | None => List.length l
                end /\
            (i - match sl_start sl with Some s => s | None => 0 end)
              mod match sl_step sl with Some k => k | None => 1 end = 0.
Proof.
  unfold apply_slice. rewrite In_take_idx. split.
  - intros [i [Hi Hx]]. exists i. split; [exact Hx|].
    apply filter_In in Hi. destruct Hi as [_ Hi].
    rewrite !andb_true_iff, Nat.leb_le, Nat.ltb_lt, Nat.eqb_eq in Hi. tauto.
  - intros [i [Hx [H1 [H2 H3]]]]. exists i. split; [|exact Hx].
    apply filter_In. split.
    + apply in_seq. assert (i < List.length l) by (apply nth_error_Some; congruence).
      lia.
    + rewrite !andb_true_iff, Nat.leb_le, Nat.ltb_lt, Nat.eqb_eq. tauto.
Qed.

Lemma length_time_axis (start stop : Z) (sfreq : Q) :
  List.length (time_axis start stop sfreq) = Z.to_nat (stop - start).
Proof. unfold time_axis. rewrite length_map, length_seq. reflexivity. Qed.

Lemma nth_error_time_axis (start stop : Z) (sfreq : Q) (i : nat) :
  i < Z.to_nat (stop - start) ->
  nth_error (time_axis start stop sfreq) i
  = Some (inject_Z (start + Z.of_nat i) / sfreq)%Q.
Proof.
  intros Hi. unfold time_axis. rewrite nth_error_map.
  rewrite (nth_error_nth' _ 0 ) by (rewrite length_seq; exact Hi).
  rewrite seq_nth by exact Hi. reflexivity.
Qed.

Lemma apply_slice_all {A} (l : list A) : apply_slice slice_all l = l.
Proof.
  unfold apply_slice, slice_all. cbn [sl_start sl_stop sl_step].
  rewrite forallb_filter_id.
  2:{ apply forallb_forall. intros i Hi. apply in_seq in Hi.
      rewrite !andb_true_iff, Nat.leb_le, Nat.ltb_lt, Nat.eqb_eq, Nat.mod_1_r. lia. }
  assert (Hgen : forall pre, take_idx (pre ++ l) (seq (List.length pre) (List.length l)) = l).
  { induction l as [|x t IH]; intros pre; [reflexivity|]. cbn [List.length seq].
    rewrite take_idx_cons, nth_error_app2, Nat.sub_diag by lia.
    cbn [nth_error]. change ([x] ++ ?r) with (x :: r). f_equal.
    replace (pre ++ x :: t) with ((pre ++ [x]) ++ t) by (rewrite <- app_assoc; reflexivity).
    replace (S (List.length pre)) with (List.length (pre ++ [x]))
      by (rewrite length_app; simpl; lia).
    apply IH. }
  exact (Hgen []).
Qed.

End TimeAxis.

Section InitTimes.

Context `{Collaborators}.

(** The time axis of a fresh collection: the raw times under the initial
    decimation slice. *)
Lemma __init___times (a : InitArgs) (self : Epochs) :
  __init__ a = inr self ->
  let sfreq := arg_sfreq a in
  let raw_times :=
    time_axis (py_round (arg_tmin a * sfreq)%Q)
              (py_round (arg_tmax a * sfreq)%Q + 1) sfreq in
  let has_data := match arg_data a with Some _ => true | None => false end in
  times self
  = apply_slice (initial_decim_slice raw_times sfreq (arg_decim a) has_data) raw_times.
Proof.
  intros Hi. apply __init___steps in Hi.
  destruct Hi as [ev [eid [sel [log [md [w [self1 [_ [_ [_ [_ [Hr Hend]]]]]]]]]]]].
  pose proof (_reject_setup_frame (arg_reject a) (arg_flat a)
                                  (initial_object a ev eid sel log md w)) as Hf.
  rewrite Hr in Hf. simpl in Hf. destruct Hf as [_ [Hf _]].
  cbv zeta. rewrite <- Hf.
  destruct Hend as [[_ [_ Hl]]|[_ Hs]].
  - pose proof (load_data_frame self1) as Hld. rewrite Hl in Hld. simpl in Hld.
    tauto.
  - destruct Hs as [->|[p [d [_ [_ [_ ->]]]]]]; [reflexivity|].
    destruct self1; reflexivity.
Qed.

End InitTimes.

(** X16 ([BaseEpochs.__init__], [decimate]). Time zero survives the
    decimation made at construction: whenever the epoch interval contains
    0 (at a positive sampling rate), the time axis of the new collection
    has a sample at 0, whatever the decimation factor. *)
Theorem init_keeps_time_zero `{Collaborators} (a : InitArgs) (self : Epochs) :
  __init__ a = inr self ->
  (0 < arg_sfreq a)%Q -> (arg_tmin a <= 0)%Q -> (0 <= arg_tmax a)%Q ->
  exists t, In t (times self) /\ (t == 0)%Q.
Proof.
  intros Hi Hsf Hmin Hmax.
  pose proof (__init___times a self Hi) as Ht. cbv zeta in Ht.
  apply __init___steps in Hi.
  destruct Hi as [ev [eid [sel [log [md [w [self1 [_ [_ [_ [Hdec _]]]]]]]]]]].
  set (sfreq := arg_sfreq a) in *.
  set (start := py_round (arg_tmin a * sfreq)%Q) in *.
  set (stopm := py_round (arg_tmax a * sfreq)%Q) in *.
  assert (Hstart : start <= 0).
  { apply py_round_nonpos.
    setoid_replace (0#1)%Q with (0 * sfreq)%Q by ring.
    apply Qmult_le_compat_r; [exact Hmin | apply Qlt_le_weak; exact Hsf]. }
  assert (Hstop : 0 <= stopm).
  { apply py_round_nonneg. apply Qmult_le_0_compat; [exact Hmax|].
    apply Qlt_le_weak; exact Hsf. }
  set (raw := time_axis start (stopm + 1) sfreq) in *.
  set (k0 := Z.to_nat (- start)).
  assert (Hk0 : (k0 < Z.to_nat (stopm + 1 - start))%nat) by (unfold k0; lia).
  assert (Hraw : nth_error raw k0 = Some (inject_Z (start + Z.of_nat k0) / sfreq)%Q)
    by (apply nth_error_time_axis; exact Hk0).
  assert (Hzero : (inject_Z (start + Z.of_nat k0) / sfreq == 0)%Q).
  { replace (start + Z.of_nat k0) with 0 by (unfold k0; lia).
    unfold Qdiv. ring. }
  exists (inject_Z (start + Z.of_nat k0) / sfreq)%Q. split; [|exact Hzero].
  rewrite Ht. unfold initial_decim_slice.
  destruct (arg_data a) as [d|].
  - rewrite apply_slice_all. eapply nth_error_In. exact Hraw.
  - assert (Hhd : hd (0#1)%Q raw = (inject_Z (start + Z.of_nat 0) / sfreq)%Q).
    { assert (H0 : nth_error raw 0 = Some (inject_Z (start + Z.of_nat 0) / sfreq)%Q)
        by (apply nth_error_time_axis; lia).
      destruct raw; [discriminate|]. simpl in H0. inversion H0. reflexivity. }
    rewrite Hhd.
    assert (Hidx : py_round (- (inject_Z (start + Z.of_nat 0) / sfreq)
                             * (sfreq * (1 # 1)))%Q = - start).
    { rewrite <- (py_round_Z (- start)). apply py_round_comp.
      replace (start + Z.of_nat 0) with start by (simpl; lia).
      rewrite inject_Z_opp. field. intros Hc. rewrite Hc in Hsf.
      apply (Qlt_irrefl 0). exact Hsf. }
    rewrite Hidx.
    apply In_apply_slice. exists k0. split; [exact Hraw|]. simpl.
    assert (Hm : Z.to_nat (- start mod Z.of_nat (arg_decim a))
                 = (k0 mod arg_decim a)%nat).
    { unfold k0. rewrite Z2Nat.inj_mod by lia. rewrite Nat2Z.id. reflexivity. }
    rewrite Hm. split; [apply Nat.Div0.mod_le|]. split.
    + unfold raw. rewrite length_time_axis. exact Hk0.
    + pose proof (Nat.div_mod_eq k0 (arg_decim a)) as Hdm.
      replace (k0 - k0 mod arg_decim a)%nat
        with ((k0 / arg_decim a) * arg_decim a)%nat by lia.
      apply Nat.Div0.mod_mul.
Qed.

Lemma init_keeps_time_zero_witness :
  exists t, In t (times three_epochs) /\ (t == 0)%Q.
Proof.
  apply (init_keeps_time_zero (H := table_source []) three_args three_epochs);
    [reflexivity | reflexivity | discriminate | discriminate].
Defined.

(** X17 ([BaseEpochs.__init__]). When both ends of the epoch interval
    fall on samples (i.e. [tmin * sfreq] and [tmax * sfreq] are integers),
    a data array that passes the shape check has exactly one column per
    point of the time axis. *)
Theorem init_data_matches_times `{Collaborators} (a : InitArgs) (self : Epochs)
        (d : list Epoch) (zmin zmax : Z) :
  __init__ a = inr self ->
  arg_data a = Some d ->
  (arg_tmin a * arg_sfreq a == inject_Z zmin)%Q ->
  (arg_tmax a * arg_sfreq a == inject_Z zmax)%Q ->
  List.length (times self) = Z.to_nat (zmax - zmin + 1) /\
  forall e, In e d -> n_columns e = List.length (times self).
Proof.
  intros Hi Hd Hzmin Hzmax.
  pose proof (__init___times a self Hi) as Ht. cbv zeta in Ht.
  apply __init___steps in Hi.
  destruct Hi as [ev [eid [sel [log [md [w [self1 [_ [Hc _]]]]]]]]].
  rewrite Hd in Ht. unfold initial_decim_slice in Ht.
  rewrite apply_slice_all in Ht.
  rewrite (py_round_comp _ _ Hzmin), (py_round_comp _ _ Hzmax), !py_round_Z in Ht.
  assert (Hlen : List.length (times self) = Z.to_nat (zmax - zmin + 1)).
  { rewrite Ht, length_time_axis. f_equal. lia. }
  split; [exact Hlen|].
  intros e He. rewrite Hlen.
  revert Hc. unfold check_data. rewrite Hd.
  destruct (negb (arg_decim a =? 1)%nat); [discriminate|].
  assert (Hdiff : py_round ((arg_tmax a - arg_tmin a) * arg_sfreq a)%Q = zmax - zmin).
  { rewrite <- (py_round_Z (zmax - zmin)). apply py_round_comp.
    unfold Z.sub. rewrite inject_Z_plus, inject_Z_opp, <- Hzmin, <- Hzmax. ring. }
  rewrite Hdiff.
  destruct (existsb _ d) eqn:Eex; [discriminate|]. intros _.
  assert (Hcol : Z.of_nat (n_columns e) = zmax - zmin + 1).
  { destruct (Z.of_nat (n_columns e) =? zmax - zmin + 1) eqn:E;
      [apply Z.eqb_eq; exact E|].
    exfalso. assert (Hex : existsb (fun e0 => negb (Z.of_nat (n_columns e0)
                                                    =? zmax - zmin + 1)) d = true).
    { apply existsb_exists. exists e. split; [exact He|]. rewrite E. reflexivity. }
    congruence. }
  rewrite <- Hcol. symmetry. apply Nat2Z.id.
Qed.

Lemma init_data_matches_times_witness :
  List.length (times three_epochs) = Z.to_nat (1 - 0 + 1) /\
  forall e, In e [[[0#1; 1#1]]; [[0#1; 10#1]]; [[0#1; 2#1]]]%Q ->
            n_columns e = List.length (times three_epochs).
Proof.
  apply (init_data_matches_times (H := table_source []) three_args three_epochs);
    reflexivity.
Defined.

(* ================================================================== *)
(** * Drop-log statistics *)
(* ================================================================== *)

Section DropLogStats.

Local Open Scope nat_scope.

Lemma has_ignored_nil (ignore : list string) : has_ignored ignore [] = false.
Proof. reflexivity. Qed.

(** The entries that count split into the dropped ones and the kept ones. *)
Lemma considered_split (log : DropLog) (ignore : list string) :
  List.length (filter (fun d => negb (has_ignored ignore d)) log)
  = List.length (filter (fun d => negb (is_empty_entry d)
                                  && negb (has_ignored ignore d)) log)
    + count_empty log.
Proof.
  unfold count_empty. induction log as [|d log IH]; [reflexivity|].
  cbn [filter].
  assert (Hd : is_empty_entry d = true -> has_ignored ignore d = false)
    by (destruct d; [reflexivity | discriminate]).
  destruct (is_empty_entry d) eqn:Ee, (has_ignored ignore d) eqn:Ei;
    cbn [negb andb List.length];
    try (specialize (Hd eq_refl); discriminate); lia.
Qed.

Lemma dropped_among_considered (log : DropLog) (ignore : list string) :
  List.length (filter (fun d => negb (is_empty_entry d))
                      (filter (fun d => negb (has_ignored ignore d)) log))
  = List.length (filter (fun d => negb (is_empty_entry d)
                                  && negb (has_ignored ignore d)) log).
Proof.
  induction log as [|d log IH]; [reflexivity|]. cbn [filter].
  destruct (has_ignored ignore d) eqn:Ei; cbn [negb filter].
  - rewrite andb_false_r. exact IH.
  - rewrite andb_true_r. destruct (is_empty_entry d); cbn [negb List.length];
      rewrite IH; reflexivity.
Qed.

End DropLogStats.

(** X18 ([_drop_log_stats], [drop_log_stats]). On a consistent collection
    that holds at least one event the statistic is defined and equals
    [100 * n_bad / (n_bad + n_events)], with [n_bad] the number of drop-log
    entries that carry reasons none of which is ignored: the epochs still
    held are exactly the entries counted as not dropped. *)
Theorem drop_log_stats_consistent (self : Epochs) (ignore : list string) :
  Consistent self -> events self <> [] ->
  let n_bad :=
    List.length (filter (fun d => negb (is_empty_entry d)
                                  && negb (has_ignored ignore d))
                        (drop_log self)) in
  drop_log_stats ignore self
  = Some (100 * (inject_Z (Z.of_nat n_bad)
                 / inject_Z (Z.of_nat (n_bad + List.length (events self)))))%Q.
Proof.
  intros [Hlen [Hnd Hiff]] Hne n_bad.
  unfold drop_log_stats, _drop_log_stats.
  pose proof (considered_split (drop_log self) ignore) as Hsplit.
  pose proof (dropped_among_considered (drop_log self) ignore) as Hdrop.
  pose proof (count_empty_selection _ _ Hnd Hiff) as Hc.
  fold n_bad in Hsplit, Hdrop.
  destruct (filter (fun d => negb (has_ignored ignore d)) (drop_log self))
    as [|d0 rest] eqn:E.
  - exfalso. simpl in Hsplit. destruct (events self); [contradiction|].
    simpl in Hlen. lia.
  - rewrite Hdrop, Hsplit, Hc, Hlen. reflexivity.
Qed.

Lemma drop_log_stats_consistent_witness :
  let n_bad :=
    List.length (filter (fun d => negb (is_empty_entry d)
                                  && negb (has_ignored ["IGNORED"] d))
                        (drop_log three_epochs)) in
  drop_log_stats ["IGNORED"] three_epochs
  = Some (100 * (inject_Z (Z.of_nat n_bad)
                 / inject_Z (Z.of_nat (n_bad + List.length (events three_epochs)))))%Q.
Proof.
  apply drop_log_stats_consistent.
  - apply (reachable_consistent (H := table_source [])).
    apply (reach_init three_args); [reflexivity|].
    split; [repeat constructor; simpl; intuition discriminate | exact I].
  - discriminate.
Defined.

(** X19 ([_drop_log_stats]). The statistic is a percentage: when some
    entry counts (carries no ignored reason) it lies between 0 and 100,
    and it is 0 exactly when every entry that counts is empty; when no
    entry counts, in particular for an empty drop log, it is [nan]. *)
Theorem drop_log_stats_range (drop_log : DropLog) (ignore : list string) :
  match _drop_log_stats drop_log ignore with
  | Some p =>
      (exists d, In d drop_log /\ has_ignored ignore d = false) /\
      (0 <= p)%Q /\ (p <= 100)%Q /\
      ((p == 0)%Q <->
       forall d, In d drop_log -> has_ignored ignore d = false -> d = [])
  | None => forall d, In d drop_log -> has_ignored ignore d = true
  end.
Proof.
  unfold _drop_log_stats.
  set (considered := filter (fun d => negb (has_ignored ignore d)) drop_log).
  assert (Hin : forall d, In d considered <->
                          In d drop_log /\ has_ignored ignore d = false).
  { intros d. unfold considered. rewrite filter_In, negb_true_iff. tauto. }
  clearbody considered.
  destruct considered as [|d0 rest] eqn:E.
  - intros d Hd. destruct (has_ignored ignore d) eqn:Ei; [reflexivity|].
    exfalso. apply (proj2 (Hin d)). auto.
  - set (a := List.length (filter (fun d => negb (is_empty_entry d)) (d0 :: rest))).
    set (b := List.length (d0 :: rest)).
    assert (Hab : (a <= b)%nat) by apply filter_length_le.
    assert (Hb : (0 < b)%nat) by (unfold b; simpl; lia).
    assert (HbQ : (0 < inject_Z (Z.of_nat b))%Q).
    { change 0%Q with (inject_Z 0). rewrite <- Zlt_Qlt. lia. }
    assert (HaQ : (0 <= inject_Z (Z.of_nat a))%Q).
    { change 0%Q with (inject_Z 0). rewrite <- Zle_Qle. lia. }
    assert (Hzero : (100 * (inject_Z (Z.of_nat a) / inject_Z (Z.of_nat b)) == 0)%Q
                    <-> a = 0%nat).
    { split.
      - intros Hp. apply Qmult_integral in Hp. destruct Hp as [Hp|Hp]; [discriminate|].
        assert (Ha : (inject_Z (Z.of_nat a) == 0)%Q).
        { rewrite <- (Qmult_div_r (inject_Z (Z.of_nat a)) (inject_Z (Z.of_nat b))).
          - rewrite Hp. ring.
          - intros Hc. rewrite Hc in HbQ. apply (Qlt_irrefl 0). exact HbQ. }
        change 0%Q with (inject_Z 0) in Ha. apply (proj1 (inject_Z_injective _ _)) in Ha. lia.
      - intros ->. simpl. unfold Qdiv. ring. }
    split; [exists d0; apply Hin; now left|].
    split; [|split].
    + apply Qmult_le_0_compat; [discriminate|].
      apply Qle_shift_div_l; [exact HbQ|]. rewrite Qmult_0_l. exact HaQ.
    + setoid_replace (100 : Q) with (100 * 1)%Q at 2 by ring.
      apply Qmult_le_l; [reflexivity|].
      apply Qle_shift_div_r; [exact HbQ|]. rewrite Qmult_1_l.
      rewrite <- Zle_Qle. lia.
    + rewrite Hzero. unfold a. split.
      * intros Hz d Hd Hi.
        destruct (is_empty_entry d) eqn:Ee; [apply is_empty_entry_iff; exact Ee|].
        exfalso.
        assert (Hf : In d (filter (fun d => negb (is_empty_entry d)) (d0 :: rest))).
        { apply filter_In. split; [apply Hin; auto | rewrite Ee; reflexivity]. }
        destruct (filter (fun d => negb (is_empty_entry d)) (d0 :: rest));
          [contradiction | discriminate].
      * intros Hall.
        destruct (filter (fun d => negb (is_empty_entry d)) (d0 :: rest))
          as [|x xs] eqn:Ef; [reflexivity|].
        exfalso. assert (Hx : In x (x :: xs)) by now left.
        rewrite <- Ef in Hx. apply filter_In in Hx. destruct Hx as [Hx He].
        apply Hin in Hx. destruct Hx as [Hx Hi].
        rewrite (Hall x Hx Hi) in He. discriminate.
Qed.

(* ================================================================== *)
(** * Collapsing event ids *)
(* ================================================================== *)

Lemma dict_get_pop_other {V} (d d' : dict V) (k k' : string) :
  dict_pop d k = Some d' -> k' <> k -> dict_get d' k' = dict_get d k'.
Proof.
  revert d'. induction d as [|[k0 v0] t IH]; intros d'; simpl; [discriminate|].
  destruct (String.eqb k k0) eqn:E.
  - intros H Hne. inversion H; subst. apply String.eqb_eq in E. subst k0.
    destruct (String.eqb k' k) eqn:E'; [|reflexivity].
    apply String.eqb_eq in E'. contradiction.
  - destruct (dict_pop t k) as [t'|] eqn:Ep; simpl; [|discriminate].
    intros H Hne. inversion H; subst. simpl.
    destruct (String.eqb k' k0); [reflexivity|]. apply IH; auto.
Qed.

Lemma dict_pop_present {V} (d : dict V) (k : string) (v : V) :
  dict_get d k = Some v -> exists d', dict_pop d k = Some d'.
Proof.
  induction d as [|[k0 v0] t IH]; simpl; [discriminate|].
  destruct (String.eqb k k0); [eauto|].
  intros H. destruct (IH H) as [t' Ht']. rewrite Ht'. simpl. eauto.
Qed.

Lemma dict_get_all_present {V} (d : dict V) (keys : list string) (vs : list V) :
  dict_get_all d keys = inr vs ->
  forall k, In k keys -> exists v, dict_get d k = Some v.
Proof.
  revert vs. induction keys as [|key rest IH]; intros vs; simpl; [tauto|].
  destruct (dict_get d key) as [v|] eqn:E; [|discriminate].
  destruct (dict_get_all d rest) as [k0|vs0]; [discriminate|].
  intros _ k [<-|Hk]; [eauto|]. eapply IH; eauto.
Qed.

(** Distinct names that are all present are all popped. *)
Lemma dict_pop_all_distinct {V} (keys : list string) :
  forall (d : dict V),
    NoDup keys ->
    (forall k, In k keys -> exists v, dict_get d k = Some v) ->
    exists d', dict_pop_all d keys = (None, d').
Proof.
  induction keys as [|key rest IH]; intros d Hnd Hall; simpl; [eauto|].
  inversion Hnd as [|? ? Hni Hnd']; subst.
  destruct (Hall key (or_introl eq_refl)) as [v Hv].
  destruct (dict_pop_present d key v Hv) as [d1 Hd1]. rewrite Hd1.
  apply IH; [exact Hnd'|].
  intros k Hk. destruct (Hall k (or_intror Hk)) as [v' Hv'].
  exists v'. rewrite (dict_get_pop_other d d1 key k Hd1); [exact Hv'|].
  intros ->. contradiction.
Qed.

Lemma In_dict_get_all {V} (d : dict V) (keys : list string) (vs : list V) (v : V) :
  dict_get_all d keys = inr vs ->
  (In v vs <-> exists k, In k keys /\ dict_get d k = Some v).
Proof.
  revert vs. induction keys as [|key rest IH]; intros vs; simpl.
  - intros H. inversion H; subst. simpl. split; [tauto | intros [k [[] _]]].
  - destruct (dict_get d key) as [v0|] eqn:E; [|discriminate].
    destruct (dict_get_all d rest) as [k0|vs0]; [discriminate|].
    intros H. inversion H; subst. simpl. rewrite (IH vs0 eq_refl). split.
    + intros [<-|[k [Hk Hg]]]; [exists key; auto | exists k; auto].
    + intros [k [[<-|Hk] Hg]]; [left; congruence | right; exists k; auto].
Qed.

Lemma dict_get_set_same {V} (d : dict V) (k : string) (v : V) :
  dict_get (dict_set d k v) k = Some v.
Proof.
  induction d as [|[k0 v0] t IH]; simpl.
  - rewrite String.eqb_refl. reflexivity.
  - destruct (String.eqb k k0) eqn:E; simpl; rewrite E; [reflexivity | exact IH].
Qed.

(** The steps of a call: what is checked, and what is written when. *)
Lemma combine_event_ids_cases (old_event_ids : list string)
      (new_event_id : NewEventId) (epochs epochs' : Epochs) (r : FunExc unit) :
  combine_event_ids old_event_ids new_event_id epochs = (r, epochs') ->
  (exists e, r = inl e /\ epochs' = epochs)
  \/
  exists new_key v old_nums,
    (new_event_id = NewInt v /\ new_key = str_of_Z v
     \/ exists rest, new_event_id = NewDict ((new_key, v) :: rest)) /\
    mem_Z v (dict_values (event_id epochs)) = false /\
    dict_get_all (event_id epochs) old_event_ids = inr old_nums /\
    let epochs1 :=
      set_events (map (fun e => if mem_Z (ev_code e) old_nums
                                then (ev_sample e, ev_prior e, v) else e)
                      (events epochs)) epochs in
    match dict_pop_all (event_id epochs) old_event_ids with
    | (Some key, d) =>
        r = inl (MethodExn (KeyError key)) /\ epochs' = set_event_id d epochs1
    | (None, d) =>
        r = inr tt /\ epochs' = set_event_id (dict_set d new_key v) epochs1
    end.
Proof.
  unfold combine_event_ids.
  destruct (match new_event_id with
            | NewInt v => inr [(str_of_Z v, v)]
            | NewDict d =>
                if (List.length d =? 1)%nat then inr d
                else inl (ValueErrorText "new_event_id dict must have one entry")
            end) as [e|[|[new_key v] rest]] eqn:Enew.
  - intros H. inversion H. left. eauto.
  - intros H. inversion H. left. eauto.
  - destruct (mem_Z v (dict_values (event_id epochs))) eqn:Emem.
    { intros H. inversion H. left. eauto. }
    destruct (dict_get_all (event_id epochs) old_event_ids) as [key|old_nums] eqn:Eget.
    { intros H. inversion H. left. eauto. }
    intros H. right. exists new_key, v, old_nums.
    split.
    { destruct new_event_id as [v0|d].
      - inversion Enew; subst. left. auto.
      - right. destruct (List.length d =? 1)%nat; [|discriminate].
        inversion Enew; subst. eauto. }
    split; [exact Emem|]. split; [reflexivity|]. cbv zeta.
    assert (Hid : event_id (set_events
                              (map (fun e => if mem_Z (ev_code e) old_nums
                                             then (ev_sample e, ev_prior e, v) else e)
                                   (events epochs)) epochs) = event_id epochs)
      by (destruct epochs; reflexivity).
    rewrite Hid in H.
    destruct (dict_pop_all (event_id epochs) old_event_ids) as [[key|] d];
      inversion H; auto.
Qed.

(** X20 ([combine_event_ids]). A call that raises leaves the collection
    it works on exactly as it was, provided no name is listed twice in
    [old_event_ids]: the new value, the dictionary and every old name are
    checked before the first write. (With a repeated name the second
    [pop] raises [KeyError] after the event codes have been rewritten.) *)
Theorem combine_event_ids_atomic (old_event_ids : list string)
        (new_event_id : NewEventId) (epochs epochs' : Epochs) (e : FunExn) :
  NoDup old_event_ids ->
  combine_event_ids old_event_ids new_event_id epochs = (inl e, epochs') ->
  epochs' = epochs.
Proof.
  intros Hnd Hc. apply combine_event_ids_cases in Hc.
  destruct Hc as [[e' [_ Heq]]|[new_key [v [old_nums [_ [_ [Hget Hpop]]]]]]];
    [exact Heq|].
  cbv zeta in Hpop.
  destruct (dict_pop_all_distinct old_event_ids (event_id epochs) Hnd
              (dict_get_all_present _ _ _ Hget)) as [d' Hd'].
  rewrite Hd' in Hpop. destruct Hpop as [Hr _]. discriminate.
Qed.

Lemma combine_event_ids_atomic_witness :
  snd (combine_event_ids ["a"; "b"] (NewInt 1) three_epochs) = three_epochs.
Proof.
  apply (combine_event_ids_atomic ["a"; "b"] (NewInt 1) three_epochs
           (snd (combine_event_ids ["a"; "b"] (NewInt 1) three_epochs))
           (ValueErrorText "new_event_id value must not already exist")).
  - repeat constructor; simpl; intuition discriminate.
  - vm_compute. reflexivity.
Defined.

(** X21 ([combine_event_ids]). After a successful call the events are the
    same rows with the same sample numbers and prior codes; a row carries
    the new code exactly when it carried the code of one of the old names
    (or the new code already), every other row keeps its code; the new
    name maps to the new value; and the new value was not a value of
    [event_id] before. [selection] and the drop log are untouched. *)
Theorem combine_event_ids_effect (old_event_ids : list string)
        (new_event_id : NewEventId) (epochs epochs' : Epochs) :
  combine_event_ids old_event_ids new_event_id epochs = (inr tt, epochs') ->
  exists new_key v,
    (new_event_id = NewInt v /\ new_key = str_of_Z v
     \/ exists rest, new_event_id = NewDict ((new_key, v) :: rest)) /\
    ~ In v (dict_values (event_id epochs)) /\
    dict_get (event_id epochs') new_key = Some v /\
    map ev_sample (events epochs') = map ev_sample (events epochs) /\
    map ev_prior (events epochs') = map ev_prior (events epochs) /\
    selection epochs' = selection epochs /\
    drop_log epochs' = drop_log epochs /\
    forall i e e',
      nth_error (events epochs) i = Some e ->
      nth_error (events epochs') i = Some e' ->
      (ev_code e' = v <->
       ev_code e = v \/
       exists name, In name old_event_ids /\
                    dict_get (event_id epochs) name = Some (ev_code e)) /\
      (ev_code e' <> v -> ev_code e' = ev_code e).
Proof.
  intros Hc. apply combine_event_ids_cases in Hc.
  destruct Hc as [[e' [Hr _]]|[new_key [v [old_nums [Hnew [Hmem [Hget Hpop]]]]]]];
    [discriminate|].
  cbv zeta in Hpop.
  destruct (dict_pop_all (event_id epochs) old_event_ids) as [[key|] d];
    destruct Hpop as [Hr ->]; [discriminate|].
  exists new_key, v. split; [exact Hnew|]. split.
  { intros Hin. apply mem_Z_In in Hin. congruence. }
  assert (Hf : forall e : Event,
             ev_sample (if mem_Z (ev_code e) old_nums
                        then (ev_sample e, ev_prior e, v) else e) = ev_sample e /\
             ev_prior (if mem_Z (ev_code e) old_nums
                       then (ev_sample e, ev_prior e, v) else e) = ev_prior e).
  { intros e. destruct (mem_Z (ev_code e) old_nums); auto. }
  destruct epochs; simpl in *.
  split; [apply dict_get_set_same|].
  split; [rewrite map_map; apply map_ext; intros e; apply Hf|].
  split; [rewrite map_map; apply map_ext; intros e; apply Hf|].
  split; [reflexivity|]. split; [reflexivity|].
  intros i e e' He He'. rewrite nth_error_map, He in He'. simpl in He'.
  inversion He'; subst e'. clear He'.
  destruct (mem_Z (ev_code e) old_nums) eqn:Em.
  - apply mem_Z_In in Em. apply (In_dict_get_all _ _ _ _ Hget) in Em.
    simpl. split; [|intros Hne; contradiction].
    split; [intros _; right; exact Em | reflexivity].
  - split; [|reflexivity]. split; [intros Hv; left; exact Hv|].
    intros [Hv|Hold]; [exact Hv|].
    apply (In_dict_get_all _ _ _ _ Hget) in Hold. apply mem_Z_In in Hold.
    congruence.
Qed.

Lemma combine_event_ids_effect_witness :
  exists new_key v,
    (NewDict [("ab", 12)] = NewInt v /\ new_key = str_of_Z v
     \/ exists rest, NewDict [("ab", 12)] = NewDict ((new_key, v) :: rest)) /\
    ~ In v (dict_values (event_id three_epochs)) /\
    dict_get (event_id combined_epochs) new_key = Some v /\
    map ev_sample (events combined_epochs) = map ev_sample (events three_epochs) /\
    map ev_prior (events combined_epochs) = map ev_prior (events three_epochs) /\
    selection combined_epochs = selection three_epochs /\
    drop_log combined_epochs = drop_log three_epochs /\
    forall i e e',
      nth_error (events three_epochs) i = Some e ->
      nth_error (events combined_epochs) i = Some e' ->
      (ev_code e' = v <->
       ev_code e = v \/
       exists name, In name ["a"; "b"] /\
                    dict_get (event_id three_epochs) name = Some (ev_code e)) /\
      (ev_code e' <> v -> ev_code e' = ev_code e).
Proof.
  apply (combine_event_ids_effect ["a"; "b"] (NewDict [("ab", 12)])
                                  three_epochs combined_epochs).
  vm_compute. reflexivity.
Defined.

(** X22 ([combine_event_ids]). A consistent collection stays consistent
    through a call, whether the call returns or raises: only event codes
    and [event_id] are written, never the number of events, [selection] or
    the drop log. *)
Theorem combine_event_ids_consistent (old_event_ids : list string)
        (new_event_id : NewEventId) (epochs : Epochs) :
  Consistent epochs ->
  Consistent (snd (combine_event_ids old_event_ids new_event_id epochs)).
Proof.
  intros Hc.
  destruct (combine_event_ids old_event_ids new_event_id epochs) as [r epochs'] eqn:E.
  apply combine_event_ids_cases in E. simpl.
  destruct E as [[e' [_ ->]]|[new_key [v [old_nums [_ [_ [_ Hpop]]]]]]]; [exact Hc|].
  cbv zeta in Hpop.
  assert (Hsame : forall d,
             Consistent
               (set_event_id d
                  (set_events (map (fun e => if mem_Z (ev_code e) old_nums
                                             then (ev_sample e, ev_prior e, v) else e)
                                   (events epochs)) epochs))).
  { intros d. destruct Hc as [Hlen Htab]. destruct epochs; simpl in *.
    split; [simpl; rewrite length_map; exact Hlen | exact Htab]. }
  destruct (dict_pop_all (event_id epochs) old_event_ids) as [[key|] d];
    destruct Hpop as [_ ->]; apply Hsame.
Qed.

Lemma combine_event_ids_consistent_witness :
  Consistent (snd (combine_event_ids ["a"; "b"] (NewDict [("ab", 12)]) three_epochs)).
Proof.
  apply combine_event_ids_consistent.
  apply (reachable_consistent (H := table_source [])).
  apply (reach_init three_args); [reflexivity|].
  split; [repeat constructor; simpl; intuition discriminate | exact I].
Defined.

(* ================================================================== *)
(** * Reading split files: the drop log is put back together *)
(* ================================================================== *)

Section CorrectDropLog.

Local Open Scope nat_scope.

Lemma list_str_eqb_eq (a b : list string) : list_str_eqb a b = true <-> a = b.
Proof.
  unfold list_str_eqb. rewrite andb_true_iff, Nat.eqb_eq. split.
  - revert b. induction a as [|x a IH]; intros [|y b] [Hlen Hall];
      try discriminate; [reflexivity|].
    simpl in Hlen, Hall. apply andb_true_iff in Hall. destruct Hall as [Hxy Hall].
    apply String.eqb_eq in Hxy. subst. f_equal. apply IH. split; [lia | exact Hall].
  - intros ->. split; [reflexivity|].
    induction b as [|y b IH]; [reflexivity|]. simpl.
    rewrite String.eqb_refl. exact IH.
Qed.

Lemma merge_entry_spec (a b : list string) :
  merge_entry a b = if list_str_eqb a ["IGNORED"%string] then b else a.
Proof.
  unfold merge_entry. destruct (list_str_eqb a ["IGNORED"%string]) eqn:Ea; [|reflexivity].
  destruct (list_str_eqb b ["IGNORED"%string]) eqn:Eb; [|reflexivity]. simpl.
  apply list_str_eqb_eq in Ea, Eb. congruence.
Qed.

Lemma length_merge_other_log (log other : DropLog) :
  List.length (merge_other_log log other) = List.length log.
Proof.
  revert other. induction log as [|a log IH]; intros [|b other]; simpl; auto.
Qed.

Lemma merge_other_log_app (m other tail : DropLog) :
  List.length other = List.length m ->
  merge_other_log (m ++ tail) other = merge_other_log m other ++ tail.
Proof.
  revert other. induction m as [|a m IH]; intros [|b other] Hlen; simpl in *;
    try discriminate.
  - destruct tail; reflexivity.
  - f_equal. apply IH. lia.
Qed.

Lemma nth_error_merge_other_log (log other : DropLog) (k : nat) (a b : list string) :
  nth_error log k = Some a -> nth_error other k = Some b ->
  nth_error (merge_other_log log other) k = Some (merge_entry a b).
Proof.
  revert other k. induction log as [|x log IH]; intros [|y other] [|k]; simpl;
    try discriminate.
  - intros H1 H2. inversion H1; inversion H2; subst. reflexivity.
  - apply IH.
Qed.

Lemma length_concat_uniform {A} (parts : list (list A)) (step : nat) :
  Forall (fun p => List.length p = step) parts ->
  List.length (List.concat parts) = List.length parts * step.
Proof.
  induction 1 as [|p parts Hp _ IH]; [reflexivity|].
  simpl. rewrite length_app, IH, Hp. reflexivity.
Qed.

(** The loop over the later files: each one is merged into the leading
    [step] entries, and nothing else changes. *)
Lemma merge_loop (step : nat) (rest : list DropLog) :
  forall (done : list DropLog) (m : DropLog),
    List.length m = step ->
    Forall (fun p => List.length p = step) done ->
    Forall (fun p => List.length p = step) rest ->
    fold_left (fun log i1 => merge_other_log log (list_slice log i1 (i1 + step)))
              (map (fun k => k * step) (seq (1 + List.length done) (List.length rest)))
              (m ++ List.concat done ++ List.concat rest)
    = fold_left merge_other_log rest m ++ List.concat done ++ List.concat rest.
Proof.
  induction rest as [|p rest IH]; intros done m Hm Hdone Hrest; [reflexivity|].
  pose proof (Forall_inv Hrest) as Hp. pose proof (Forall_inv_tail Hrest) as Hrest'.
  simpl in Hp.
  cbn [List.length seq map fold_left List.concat].
  assert (Hslice : list_slice (m ++ List.concat done ++ p ++ List.concat rest)
                              ((1 + List.length done) * step)
                              ((1 + List.length done) * step + step)
                   = p).
  { unfold list_slice.
    rewrite (Nat.add_comm ((1 + List.length done) * step) step), Nat.add_sub.
    rewrite app_assoc, skipn_app.
    assert (Hl : List.length (m ++ List.concat done)
                 = (1 + List.length done) * step).
    { rewrite length_app, (length_concat_uniform done step Hdone), Hm. simpl. reflexivity. }
    rewrite <- Hl, skipn_all, Nat.sub_diag. simpl.
    rewrite <- Hp, firstn_app, firstn_all, Nat.sub_diag. simpl. apply app_nil_r. }
  rewrite Hslice.
  rewrite merge_other_log_app by (rewrite Hp, Hm; reflexivity).
  assert (Hnext : fold_left
                    (fun log i1 => merge_other_log log (list_slice log i1 (i1 + step)))
                    (map (fun k => k * step)
                         (seq (1 + List.length (done ++ [p])) (List.length rest)))
                    (merge_other_log m p ++ List.concat (done ++ [p]) ++ List.concat rest)
                  = fold_left merge_other_log rest (merge_other_log m p)
                    ++ List.concat (done ++ [p]) ++ List.concat rest).
  { apply IH.
    - rewrite length_merge_other_log. exact Hm.
    - apply Forall_app. split; [exact Hdone|].
      constructor; [exact Hp | constructor].
    - exact Hrest'. }
  rewrite length_app in Hnext. simpl in Hnext.
  replace (S (List.length done + 1)) with (S (S (List.length done))) in Hnext by lia.
  rewrite concat_app in Hnext. simpl in Hnext.
  rewrite app_nil_r, <- !app_assoc in Hnext.
  exact Hnext.
Qed.

(** One position across the files: if every file carries either the
    original entry or the ignore mark, and one carries the original, the
    merge ends on the original. *)
Lemma merge_column (o : list string) (es : list (list string)) :
  forall e0,
    (e0 = o \/ e0 = ["IGNORED"%string]) ->
    Forall (fun e => e = o \/ e = ["IGNORED"%string]) es ->
    (e0 = o \/ In o es) ->
    fold_left merge_entry es e0 = o.
Proof.
  induction es as [|e es IH]; intros e0 H0 Hall Hex; simpl.
  - destruct Hex as [-> | []]. reflexivity.
  - inversion Hall as [|? ? He Hall']; subst.
    apply IH; [|exact Hall'|].
    + rewrite merge_entry_spec. destruct (list_str_eqb e0 ["IGNORED"%string]); auto.
    + rewrite merge_entry_spec.
      destruct (list_str_eqb e0 ["IGNORED"%string]) eqn:E0.
      * apply list_str_eqb_eq in E0. subst e0.
        destruct Hex as [Ho | [-> | Hin]]; [|now left|now right].
        left. destruct He as [-> | ->]; [reflexivity | exact Ho].
      * destruct H0 as [-> | ->]; [now left|].
        rewrite (proj2 (list_str_eqb_eq _ _) eq_refl) in E0. discriminate.
Qed.

Lemma nth_error_merge_fold (rest : list DropLog) :
  forall (m : DropLog) (k : nat) (e0 : list string),
    nth_error m k = Some e0 ->
    Forall (fun p => List.length p = List.length m) rest ->
    nth_error (fold_left merge_other_log rest m) k
    = Some (fold_left merge_entry (map (fun p => nth k p []) rest) e0).
Proof.
  induction rest as [|p rest IH]; intros m k e0 Hk Hall; simpl; [exact Hk|].
  inversion Hall as [|? ? Hp Hall']; subst.
  assert (Hpk : nth_error p k = Some (nth k p [])).
  { apply nth_error_nth'. rewrite Hp. apply nth_error_Some. congruence. }
  apply IH.
  - apply nth_error_merge_other_log; assumption.
  - rewrite length_merge_other_log. exact Hall'.
Qed.

End CorrectDropLog.

(** X23 ([EpochsFIF.__init__]). Reading back a split save restores the
    drop log: when every file carries the original log except that some
    entries are replaced by [('IGNORED',)], and every entry is intact in at
    least one file, the corrected drop log is the original one. *)
Theorem correct_drop_log_restores (original : DropLog) (parts : list DropLog) :
  parts <> [] -> original <> [] ->
  (forall part, In part parts -> List.length part = List.length original) ->
  (forall part k e, In part parts -> nth_error original k = Some e ->
                    nth_error part k = Some e \/ nth_error part k = Some ["IGNORED"]) ->
  (forall k e, nth_error original k = Some e ->
               exists part, In part parts /\ nth_error part k = Some e) ->
  correct_drop_log (List.concat parts) (List.length parts) = inr original.
Proof.
  intros Hparts Horig Hlen Hentry Hsome.
  destruct parts as [|p0 rest]; [contradiction|]. clear Hparts.
  set (step := List.length original).
  assert (Hstep : (0 < step)%nat).
  { unfold step. destruct original; [contradiction | simpl; lia]. }
  assert (Hall : Forall (fun p => List.length p = step) (p0 :: rest)).
  { apply Forall_forall. exact Hlen. }
  inversion Hall as [|? ? Hp0 Hrest]; subst.
  unfold correct_drop_log.
  rewrite (length_concat_uniform (p0 :: rest) step Hall).
  assert (Hn : (List.length (p0 :: rest) =? 0)%nat = false) by reflexivity.
  match goal with |- context [((?n * step) mod _)%nat] => rewrite (Nat.mul_comm n step) end.
  rewrite Hn, Nat.Div0.mod_mul. simpl negb. cbv iota.
  rewrite Nat.div_mul by (simpl; lia).
  assert (Hs0 : (step =? 0)%nat = false) by (apply Nat.eqb_neq; lia).
  rewrite Hs0.
  replace (List.length (p0 :: rest) - 1)%nat with (List.length rest)
    by (simpl; lia).
  pose proof (merge_loop step rest [] p0 Hp0 (Forall_nil _) Hrest) as Hloop.
  simpl in Hloop. simpl List.concat. rewrite Hloop.
  rewrite firstn_app.
  assert (Hm : List.length (fold_left merge_other_log rest p0) = step).
  { clear -Hp0 Hrest. revert p0 Hp0.
    induction Hrest as [|p rest Hp _ IH]; intros p0 Hp0; simpl; [exact Hp0|].
    apply IH. rewrite length_merge_other_log. exact Hp0. }
  rewrite Hm, Nat.sub_diag, firstn_O, app_nil_r.
  rewrite <- Hm, firstn_all. apply f_equal.
  apply nth_error_ext. intros k.
  destruct (nth_error original k) as [o|] eqn:Eo.
  - assert (Hk : (k < step)%nat) by (apply nth_error_Some; congruence).
    assert (H0 : nth_error p0 k = Some (nth k p0 [])).
    { apply nth_error_nth'. rewrite Hp0. exact Hk. }
    rewrite (nth_error_merge_fold rest p0 k _ H0).
    2:{ rewrite Hp0. exact Hrest. }
    f_equal. apply merge_column.
    + destruct (Hentry p0 k o (or_introl eq_refl) Eo) as [H|H]; rewrite H in H0;
        inversion H0; auto.
    + apply Forall_forall. intros e He. apply in_map_iff in He.
      destruct He as [p [<- Hp]].
      assert (Hpk : nth_error p k = Some (nth k p [])).
      { apply nth_error_nth'. rewrite (Hlen p (or_intror Hp)). exact Hk. }
      destruct (Hentry p k o (or_intror Hp) Eo) as [H|H]; rewrite H in Hpk;
        inversion Hpk; auto.
    + destruct (Hsome k o Eo) as [p [[<-|Hp] Hpk]].
      * left. rewrite Hpk in H0. inversion H0. reflexivity.
      * right. apply in_map_iff. exists p. split; [|exact Hp].
        apply nth_error_nth. exact Hpk.
  - apply nth_error_None. rewrite Hm. apply nth_error_None in Eo. exact Eo.
Qed.

Lemma correct_drop_log_restores_witness :
  correct_drop_log
    (List.concat [[[]; ["BAD"]; ["IGNORED"]]; [["IGNORED"]; ["BAD"]; []]]) 2
  = inr [[]; ["BAD"]; []].
Proof.
  apply (correct_drop_log_restores [[]; ["BAD"]; []]
           [[[]; ["BAD"]; ["IGNORED"]]; [["IGNORED"]; ["BAD"]; []]]).
  - discriminate.
  - discriminate.
  - intros part [<-|[<-|[]]]; reflexivity.
  - intros part k e [<-|[<-|[]]] Hk;
      destruct k as [|[|[|k]]]; simpl in *; auto; destruct k; discriminate.
  - intros k e Hk. destruct k as [|[|[|k]]]; simpl in Hk.
    + eexists. split; [left; reflexivity | exact Hk].
    + eexists. split; [left; reflexivity | exact Hk].
    + eexists. split; [right; left; reflexivity | exact Hk].
    + destruct k; discriminate.
Defined.

(* ================================================================== *)
(** * Concatenation *)
(* ================================================================== *)

Lemma wrap_int64_small (z : Z) :
  - 2 ^ 63 <= z < 2 ^ 63 -> wrap_int64 z = z.
Proof.
  intros Hz. unfold wrap_int64. rewrite Z.mod_small; lia.
Qed.

Lemma fold_left_Zmax_spec (l : list Z) (x0 : Z) :
  In (fold_left Z.max l x0) (x0 :: l) /\
  forall y, In y (x0 :: l) -> y <= fold_left Z.max l x0.
Proof.
  revert x0. induction l as [|x l IH]; intros x0; simpl.
  - split; [now left|]. intros y [<-|[]]. lia.
  - destruct (IH (Z.max x0 x)) as [Hin Hmax]. split.
    + destruct Hin as [Hin|Hin]; [|right; right; exact Hin].
      destruct (Z.max_spec x0 x) as [[_ E]|[_ E]]; [right; left | left]; congruence.
    + intros y [<-|[<-|Hy]].
      * specialize (Hmax (Z.max x0 x) (or_introl eq_refl)). lia.
      * specialize (Hmax (Z.max x0 x) (or_introl eq_refl)). lia.
      * apply Hmax. now right.
Qed.

Lemma NoDup_map_injective {A B} (f : A -> B) (l : list A) :
  (forall x y, f x = f y -> x = y) -> NoDup l -> NoDup (map f l).
Proof.
  intros Hinj Hnd. induction Hnd as [|x l Hx _ IH]; simpl; constructor.
  - intros Hin. apply in_map_iff in Hin. destruct Hin as [y [Hy Hin]].
    apply Hinj in Hy. subst. contradiction.
  - exact IH.
Qed.

Lemma renumbered_rows (l : list Event) (k : nat) :
  let r := map (fun ie : nat * Event =>
                  (Z.of_nat (fst ie) + 1, ev_prior (snd ie), ev_code (snd ie)))
               (combine (seq k (List.length l)) l) in
  map ev_sample r = map (fun i => Z.of_nat i + 1) (seq k (List.length l)) /\
  map ev_prior r = map ev_prior l /\
  map ev_code r = map ev_code l.
Proof.
  revert k. induction l as [|e l IH]; intros k; cbv zeta.
  - simpl. auto.
  - destruct (IH (S k)) as [H1 [H2 H3]]. cbv zeta in H1, H2, H3.
    simpl. rewrite H1, H2, H3. auto.
Qed.

Lemma _update_offset_body (o : Z) (evs : list Event) (shift : Z) :
  evs <> [] ->
  Forall (fun e => 0 <= ev_sample e <= INT32_MAX) evs ->
  0 < shift <= INT32_MAX ->
  0 <= o <= INT32_MAX ->
  exists r,
    match map ev_sample evs with
    | [] => inl (ValueError EmptySequence)
    | s0 :: ss =>
        let offset := wrap_int64 (o + fold_left Z.max ss s0 + shift) in
        if offset >? INT32_MAX then inr 0 else inr offset
    end = inr r /\
    0 <= r <= INT32_MAX /\
    (r <> 0 -> o < r /\ forall e, In e evs -> ev_sample e + o < r).
Proof.
  intros Hne Hrange Hshift Ho.
  destruct (map ev_sample evs) as [|s0 ss] eqn:Es.
  { destruct evs; [contradiction | discriminate]. }
  destruct (fold_left_Zmax_spec ss s0) as [Hin Hmax].
  set (mx := fold_left Z.max ss s0) in *.
  assert (Hsamples : forall s, In s (s0 :: ss) -> 0 <= s <= INT32_MAX).
  { intros s Hs. rewrite <- Es in Hs. apply in_map_iff in Hs.
    destruct Hs as [e [<- He]]. rewrite Forall_forall in Hrange. auto. }
  pose proof (Hsamples mx Hin) as Hmx. cbv zeta.
  rewrite wrap_int64_small by (unfold INT32_MAX in *; lia).
  destruct (o + mx + shift >? INT32_MAX) eqn:E.
  - exists 0. unfold INT32_MAX. repeat split; try lia.
  - assert (Hle : o + mx + shift <= INT32_MAX) by lia.
    exists (o + mx + shift). split; [reflexivity|]. split; [lia|].
    intros _. split; [lia|]. intros e He.
    assert (Hs : ev_sample e <= mx).
    { apply Hmax. rewrite <- Es. apply in_map. exact He. }
    lia.
Qed.

(** What [_update_offset] returns on rows within the 32-bit range. *)
Lemma _update_offset_spec (offset : option Z) (evs : list Event) (shift : Z) :
  evs <> [] ->
  Forall (fun e => 0 <= ev_sample e <= INT32_MAX) evs ->
  0 < shift <= INT32_MAX ->
  (forall o, offset = Some o -> 0 <= o <= INT32_MAX) ->
  exists r,
    _update_offset offset evs shift = inr r /\
    0 <= r <= INT32_MAX /\
    (offset = Some 0 -> r = 0) /\
    (r <> 0 ->
     let o := match offset with Some o => o | None => 0 end in
     o < r /\ forall e, In e evs -> ev_sample e + o < r).
Proof.
  intros Hne Hrange Hshift Hoff.
  destruct offset as [[|p|p]|].
  - exists 0. unfold INT32_MAX. repeat split; try lia; try reflexivity.
  - destruct (_update_offset_body (Z.pos p) evs shift Hne Hrange Hshift)
      as [r [H1 [H2 H3]]]; [apply Hoff; reflexivity|].
    exists r. split; [exact H1|]. split; [exact H2|].
    split; [discriminate | exact H3].
  - specialize (Hoff (Z.neg p) eq_refl). lia.
  - destruct (_update_offset_body 0 evs shift Hne Hrange Hshift)
      as [r [H1 [H2 H3]]]; [unfold INT32_MAX; lia|].
    exists r. split; [exact H1|]. split; [exact H2|].
    split; [discriminate | exact H3].
Qed.

Lemma concat_events_loop_spec (shift : Z) (rest : list (list Event)) :
  0 < shift <= INT32_MAX ->
  Forall (fun p => p <> [] /\ NoDup (map ev_sample p) /\
                   Forall (fun e => 0 <= ev_sample e <= INT32_MAX) p) rest ->
  forall (acc : list Event) (off : Z),
    0 <= off <= INT32_MAX ->
    below_offset acc off ->
    exists events off',
      concat_events_loop rest off shift true acc = inr (events, off') /\
      0 <= off' <= INT32_MAX /\
      below_offset events off' /\
      map ev_prior events = map ev_prior (acc ++ List.concat rest) /\
      map ev_code events = map ev_code (acc ++ List.concat rest).
Proof.
  intros Hshift Hrest. induction Hrest as [|p rest [Hne [Hnd Hrange]] _ IH];
    intros acc off Hoff Hinv; cbn [concat_events_loop].
  - exists acc, off. simpl List.concat. rewrite app_nil_r. auto.
  - destruct (_update_offset_spec (Some off) p shift Hne Hrange Hshift)
      as [off' [Hu [Hoff' [Hzero Hpos]]]].
    { intros o Ho. inversion Ho; subst. exact Hoff. }
    rewrite Hu.
    set (shifted := map (fun e => (wrap_int64 (ev_sample e + off),
                                   ev_prior e, ev_code e)) p).
    assert (Hsh : map ev_sample shifted = map (fun e => ev_sample e + off) p).
    { unfold shifted. rewrite map_map. apply map_ext_in. intros e He.
      unfold ev_sample at 1. simpl. rewrite Forall_forall in Hrange.
      specialize (Hrange e He). apply wrap_int64_small.
      unfold INT32_MAX in *. lia. }
    destruct (IH (acc ++ shifted) off' Hoff') as [events [off'' [Hl [Ho'' [Hb [Hp Hc]]]]]].
    { intros Hnz.
      assert (Hoffnz : off <> 0).
      { intros ->. apply Hnz. apply Hzero. reflexivity. }
      destruct (Hinv Hoffnz) as [Hnd_acc Hacc].
      destruct (Hpos Hnz) as [Hlt Hbelow]. cbv zeta in Hlt, Hbelow.
      assert (Hshifted : forall e, In e shifted -> off <= ev_sample e < off').
      { intros e He. assert (Hs : In (ev_sample e) (map ev_sample shifted))
          by (apply in_map; exact He).
        rewrite Hsh in Hs. apply in_map_iff in Hs. destruct Hs as [e0 [<- He0]].
        rewrite Forall_forall in Hrange. specialize (Hrange e0 He0).
        specialize (Hbelow e0 He0). lia. }
      split.
      - rewrite map_app. apply NoDup_app.
        + exact Hnd_acc.
        + rewrite Hsh.
          replace (map (fun e => ev_sample e + off) p)
            with (map (fun s => s + off) (map ev_sample p))
            by (rewrite map_map; reflexivity).
          apply NoDup_map_injective; [|exact Hnd].
          intros x y Hxy. lia.
        + intros s Hs1 Hs2. apply in_map_iff in Hs1, Hs2.
          destruct Hs1 as [e1 [<- He1]]. destruct Hs2 as [e2 [Heq He2]].
          specialize (Hacc e1 He1). specialize (Hshifted e2 He2). lia.
      - intros e He. apply in_app_iff in He. destruct He as [He|He].
        + specialize (Hacc e He). lia.
        + specialize (Hshifted e He). lia. }
    exists events, off''. split; [exact Hl|]. split; [exact Ho''|].
    split; [exact Hb|].
    assert (Hpc : map ev_prior shifted = map ev_prior p /\
                  map ev_code shifted = map ev_code p).
    { unfold shifted. rewrite !map_map. split; apply map_ext; reflexivity. }
    destruct Hpc as [Hp1 Hc1].
    simpl List.concat. rewrite Hp, Hc, <- !app_assoc, !map_app, Hp1, Hc1. auto.
Qed.

(** X24 ([_update_offset], [_concatenate_epochs]). Concatenating with
    [add_offset] never makes two events collide nor leaves the 32-bit
    range. For collections that each hold at least one event, with distinct
    sample numbers between 0 and [INT32_MAX], and a positive shift (the
    [(10 + tmax) * sfreq] samples put between two collections), the events
    array is built without error; its sample numbers are pairwise distinct
    and lie between 0 and [INT32_MAX], and the prior codes and codes are
    those of the collections in order. This holds whether the running
    offset stays below [INT32_MAX] or is reset, in which case the events
    are renumbered 1, 2, ... *)
Theorem concatenate_events_distinct (pieces : list (list Event)) (tmax sfreq : Q) :
  let shift := py_int ((inject_Z 10 + tmax) * sfreq)%Q in
  pieces <> [] ->
  0 < shift <= INT32_MAX ->
  Forall (fun p => p <> [] /\ NoDup (map ev_sample p) /\
                   Forall (fun e => 0 <= ev_sample e <= INT32_MAX) p) pieces ->
  Z.of_nat (List.length (List.concat pieces)) <= INT32_MAX ->
  exists events,
    _concatenate_epochs_events pieces tmax sfreq true = inr events /\
    NoDup (map ev_sample events) /\
    Forall (fun e => 0 <= ev_sample e <= INT32_MAX) events /\
    map ev_prior events = map ev_prior (List.concat pieces) /\
    map ev_code events = map ev_code (List.concat pieces).
Proof.
  intros shift Hne Hshift Hpieces Hcount.
  destruct pieces as [|first rest]; [contradiction|]. clear Hne.
  inversion Hpieces as [|? ? [Hfne [Hfnd Hfrange]] Hrest]; subst.
  unfold _concatenate_epochs_events. fold shift.
  destruct (_update_offset_spec None first shift Hfne Hfrange Hshift)
    as [off0 [Hu [Hoff0 [_ Hpos]]]]; [discriminate|].
  rewrite Hu. simpl exc_bind.
  destruct (concat_events_loop_spec shift rest Hshift Hrest first off0 Hoff0)
    as [events [off [Hl [Hoff [Hb [Hp Hc]]]]]].
  { intros Hnz. destruct (Hpos Hnz) as [_ Hbelow]. cbv zeta in Hbelow.
    split; [exact Hfnd|]. intros e He. rewrite Forall_forall in Hfrange.
    specialize (Hfrange e He). specialize (Hbelow e He). lia. }
  rewrite Hl. simpl exc_bind. simpl List.concat.
  assert (Hlen : List.length events = List.length (first ++ List.concat rest)).
  { rewrite <- (length_map ev_code events), Hc, length_map. reflexivity. }
  destruct (off =? 0) eqn:E.
  - eexists. split; [reflexivity|].
    destruct (renumbered_rows events 0) as [Hs [Hrp Hrc]].
    cbv zeta in Hs, Hrp, Hrc.
    split; [|split; [|split]].
    + rewrite Hs. apply NoDup_map_injective; [|apply seq_NoDup].
      intros x y Hxy. lia.
    + apply Forall_forall. intros e He.
      assert (Hin : In (ev_sample e)
                       (map (fun i => Z.of_nat i + 1) (seq 0 (List.length events)))).
      { rewrite <- Hs. apply in_map. exact He. }
      apply in_map_iff in Hin. destruct Hin as [i [<- Hi]]. apply in_seq in Hi.
      simpl List.concat in Hcount. rewrite <- Hlen in Hcount. lia.
    + rewrite Hrp. exact Hp.
    + rewrite Hrc. exact Hc.
  - apply Z.eqb_neq in E. destruct (Hb E) as [Hnd Hbelow].
    exists events. split; [reflexivity|]. split; [exact Hnd|].
    split; [|split; [exact Hp | exact Hc]].
    apply Forall_forall. intros e He. specialize (Hbelow e He). lia.
Qed.

Lemma concatenate_events_distinct_witness :
  exists events,
    _concatenate_epochs_events [[(10, 0, 1); (20, 0, 2)]; [(10, 0, 1)]]
                               (1#1)%Q (2#1)%Q true = inr events /\
    NoDup (map ev_sample events) /\
    Forall (fun e => 0 <= ev_sample e <= INT32_MAX) events /\
    map ev_prior events
    = map ev_prior (List.concat [[(10, 0, 1); (20, 0, 2)]; [(10, 0, 1)]]) /\
    map ev_code events
    = map ev_code (List.concat [[(10, 0, 1); (20, 0, 2)]; [(10, 0, 1)]]).
Proof.
  apply (concatenate_events_distinct [[(10, 0, 1); (20, 0, 2)]; [(10, 0, 1)]]
                                     (1#1)%Q (2#1)%Q).
  - discriminate.
  - vm_compute. split; [reflexivity | discriminate].
  - repeat constructor; simpl; try discriminate; intuition discriminate.
  - vm_compute. discriminate.
Defined.

(* ================================================================== *)
(** * Concatenated collections and collections from arrays *)
(* ================================================================== *)

Lemma _handle_event_repeated_error_returns ev eid sel log ev2 eid2 sel2 log2 :
  _handle_event_repeated ev eid ER_error sel log = inr (ev2, eid2, sel2, log2) ->
  ev2 = ev /\ eid2 = eid /\ sel2 = sel /\ log2 = log /\ NoDup (map ev_sample ev).
Proof.
  unfold _handle_event_repeated.
  destruct (negb _); [discriminate|].
  destruct (_ =? _)%nat eqn:E; [|discriminate].
  intros Hh. inversion Hh; subst. repeat split.
  apply np_unique_same_length_NoDup. apply Nat.eqb_eq in E.
  rewrite E, length_map. reflexivity.
Qed.

Lemma filter_all_length {A} (f : A -> bool) (l : list A) :
  (List.length l <= List.length (filter f l))%nat ->
  forall x, In x l -> f x = true.
Proof.
  induction l as [|a l IH]; simpl; intros Hlen x Hx; [contradiction|].
  pose proof (filter_length_le f l) as Hle.
  destruct (f a) eqn:Ea; simpl in Hlen; [|lia].
  destruct Hx as [->|Hx]; [exact Ea|]. apply IH; [lia | exact Hx].
Qed.

(** X25 ([_finish_concat]). A concatenated collection is consistent and
    marked as cleaned, whatever [selection] is handed over: the selection
    is recomputed from the drop log, so the concatenated selections of the
    parts (whose entries repeat) never reach the object. *)
Theorem finish_concat_consistent `{Collaborators} (info0 : Info) (sfreq : Q)
        (projector : option (list (list Q))) (data : option (list Epoch))
        (ev : list Event) (eid : dict Z) (tmin tmax : Q)
        (md : option (list string)) (bl : option (Q * Q))
        (sel : list nat) (log : DropLog) (out : Epochs) :
  _finish_concat info0 sfreq projector data ev eid tmin tmax md bl sel log = inr out ->
  Consistent out /\ _bad_dropped out = true.
Proof.
  unfold _finish_concat. cbv zeta.
  match goal with |- context [__init__ ?a] => set (args := a) end.
  destruct (__init__ args) as [e|out0] eqn:Hi; [discriminate|].
  destruct (drop_bad Existing Existing out0) as [[e|[]] out1] eqn:Hd; [discriminate|].
  intros Hout. inversion Hout; subst out1. clear Hout.
  assert (Hc0 : Consistent out0).
  { apply (__init___consistent args out0 Hi). unfold caller_tables_ok.
    unfold initial_selection. simpl. split; [apply NoDup_nonzero_from|].
    intros k. rewrite In_nonzero. split.
    - intros [x [Hx Hempty]]. apply is_empty_entry_iff in Hempty. subst x. exact Hx.
    - intros Hk. exists []. split; [exact Hk | reflexivity]. }
  split.
  - pose proof (drop_bad_consistent Existing Existing out0 Hc0) as Hc.
    rewrite Hd in Hc. exact Hc.
  - exact (drop_bad_sets_flag out0 out Existing Existing Hd).
Qed.

Lemma finish_concat_consistent_witness :
  exists out,
    _finish_concat (H := table_source []) eeg_info (1#1)%Q None
                   (Some [[[0#1; 1#1]]; [[0#1; 2#1]]]%Q)
                   [(10, 0, 1); (31, 0, 1)] [("a", 1)] (0#1)%Q (1#1)%Q None None
                   [0%nat; 0%nat] [[]; []]
    = inr out /\
    Consistent out /\ _bad_dropped out = true.
Proof.
  eexists. split; [vm_compute; reflexivity|].
  apply (finish_concat_consistent (H := table_source []) eeg_info (1#1)%Q None
           (Some [[[0#1; 1#1]]; [[0#1; 2#1]]]%Q)
           [(10, 0, 1); (31, 0, 1)] [("a", 1)] (0#1)%Q (1#1)%Q None None
           [0%nat; 0%nat] [[]; []]).
  vm_compute. reflexivity.
Defined.

(** X26 ([EpochsArray.__init__]). An array-backed collection is built only
    from events that are all known and distinct: when the constructor
    returns (default [selection]), every row of [events] has its code among
    the values of [event_id], no two rows share a sample number, and the
    object is consistent, marked as cleaned, keeps [event_id] as given and
    holds only rows of [events]. *)
Theorem epochs_array_events_known `{Collaborators} (data : list Epoch)
        (n_channels n_samples : nat) (info0 : Info) (sfreq : Q)
        (projector : option (list (list Q))) (ev : list Event) (tmin : Q)
        (eid : dict Z) (rej fl : option (dict Q)) (rtmin rtmax : option Q)
        (bl : option (Q * Q)) (pr : ProjArg) (om : OnMissing)
        (md : option (list string)) (self : Epochs) :
  EpochsArray__init__ data n_channels n_samples info0 sfreq projector ev tmin eid
                      rej fl rtmin rtmax bl pr om md None = inr self ->
  (forall e, In e ev -> In (ev_code e) (dict_values eid)) /\
  NoDup (map ev_sample ev) /\
  Consistent self /\ _bad_dropped self = true /\
  event_id self = eid /\ incl (events self) ev.
Proof.
  unfold EpochsArray__init__.
  destruct (negb _); [discriminate|].
  destruct (Qeq_bool sfreq (0 # 1)); [discriminate|]. cbv zeta.
  match goal with |- context [__init__ ?a] => set (args := a) end.
  destruct (__init__ args) as [e|self0] eqn:Hi; [discriminate|].
  set (self1 := match baseline self0 with
                | Some _ => set__do_baseline true self0
                | None => self0
                end).
  assert (Hsame1 : events self1 = events self0 /\ selection self1 = selection self0 /\
                   drop_log self1 = drop_log self0 /\ event_id self1 = event_id self0).
  { unfold self1. destruct (baseline self0); [destruct self0|]; simpl; auto. }
  destruct Hsame1 as [S1 [S2 [S3 S4]]].
  destruct (negb (List.length ev =? _)%nat) eqn:En; [discriminate|].
  set (self2 := detrend_in_place self1).
  assert (Hsame2 : events self2 = events self1 /\ selection self2 = selection self1 /\
                   drop_log self2 = drop_log self1 /\ event_id self2 = event_id self1).
  { unfold self2, detrend_in_place. destruct self1; simpl; auto. }
  destruct Hsame2 as [T1 [T2 [T3 T4]]].
  destruct (drop_bad Existing Existing self2) as [[e|[]] self3] eqn:Hd; [discriminate|].
  intros Hout. inversion Hout; subst self3. clear Hout.
  destruct (__init___frame args self0 Hi) as [ev2 [eid2 [sel2 [log2 [md2 [Ht [Hid [_ Hev]]]]]]]].
  destruct (Hev eq_refl) as [Hev2 _]. clear Hev.
  apply init_event_table_steps in Ht. simpl in Ht.
  destruct Ht as [log0 [_ [_ [Hh _]]]].
  apply _handle_event_repeated_error_returns in Hh.
  destruct Hh as [E1 [E2 [_ [_ Hnd]]]].
  apply negb_false_iff, Nat.eqb_eq in En.
  assert (Hknown : forall e, In e ev -> mem_Z (ev_code e) (dict_values eid) = true).
  { apply filter_all_length. rewrite En at 1. rewrite S1, S4, Hev2, Hid, E1, E2.
    apply filter_length_le. }
  assert (Hall : filter (fun e => mem_Z (ev_code e) (dict_values eid)) ev = ev).
  { apply forallb_filter_id. apply forallb_forall. exact Hknown. }
  rewrite Hall in *.
  assert (Hc0 : Consistent self0).
  { apply (__init___consistent args self0 Hi). unfold caller_tables_ok.
    unfold initial_selection. simpl. split; [apply NoDup_nonzero_from | exact I]. }
  assert (Hc2 : Consistent self2).
  { apply (consistent_same_tables self0); congruence. }
  pose proof (drop_bad_consistent Existing Existing self2 Hc2) as Hc3.
  pose proof (drop_bad_frame Existing Existing self2) as Hf.
  rewrite Hd in Hc3, Hf. simpl in Hc3, Hf. destruct Hf as [F1 [_ F3]].
  split; [intros e He; apply mem_Z_In, Hknown, He|].
  split; [exact Hnd|]. split; [exact Hc3|].
  split; [exact (drop_bad_sets_flag self2 self Existing Existing Hd)|].
  split; [congruence|].
  intros e He. apply F3 in He. rewrite T1, S1, Hev2, E1 in He. exact He.
Qed.

Lemma epochs_array_events_known_witness :
  exists self,
    EpochsArray__init__ (H := table_source []) [[[0#1; 1#1]]; [[0#1; 10#1]]]%Q
                        1 2 eeg_info (1#1)%Q None [(10, 0, 1); (20, 0, 2)] (0#1)%Q
                        [("a", 1); ("b", 2)] (Some [("eeg", (5#1)%Q)]) None None None
                        None ProjFalse OM_raise None None
    = inr self /\
    (forall e, In e [(10, 0, 1); (20, 0, 2)] ->
               In (ev_code e) (dict_values [("a", 1); ("b", 2)])) /\
    NoDup (map ev_sample [(10, 0, 1); (20, 0, 2)]) /\
    Consistent self /\ _bad_dropped self = true /\
    event_id self = [("a", 1); ("b", 2)] /\
    incl (events self) [(10, 0, 1); (20, 0, 2)].
Proof.
  eexists. split; [vm_compute; reflexivity|].
  apply (epochs_array_events_known (H := table_source [])
           [[[0#1; 1#1]]; [[0#1; 10#1]]]%Q
           1 2 eeg_info (1#1)%Q None [(10, 0, 1); (20, 0, 2)] (0#1)%Q
           [("a", 1); ("b", 2)] (Some [("eeg", (5#1)%Q)]) None None None
           None ProjFalse OM_raise None).
  vm_compute. reflexivity.
Defined.

(* ================================================================== *)
(** * Equalizing several collections *)
(* ================================================================== *)

Lemma length_take_idx_in_range {A} (a : list A) (idx : list nat) :
  (forall i, In i idx -> (i < List.length a)%nat) ->
  List.length (take_idx a idx) = List.length idx.
Proof.
  unfold take_idx. induction idx as [|i idx IH]; intros Hr; [reflexivity|].
  cbn [flat_map]. rewrite length_app, IH by (intros j Hj; apply Hr; now right).
  destruct (nth_error a i) eqn:E; [reflexivity|].
  apply nth_error_None in E. specialize (Hr i (or_introl eq_refl)). lia.
Qed.

Lemma length_setdiff1d_seq (n : nat) (inds : list nat) :
  NoDup inds -> (forall i, In i inds -> (i < n)%nat) ->
  (List.length (setdiff1d (seq 0 n) inds) + List.length inds = n)%nat.
Proof.
  intros Hnd Hr. rewrite <- length_app.
  transitivity (List.length (seq 0 n)); [|apply length_seq].
  apply Permutation_length, NoDup_Permutation.
  - apply NoDup_app.
    + apply NoDup_setdiff1d.
    + exact Hnd.
    + intros k Hk. apply In_setdiff1d in Hk. tauto.
  - apply seq_NoDup.
  - intros k. rewrite in_app_iff, In_setdiff1d, in_seq. split.
    + intros [[Hk _]|Hk]; [exact Hk|]. specialize (Hr k Hk). lia.
    + intros Hk. destruct (in_dec Nat.eq_dec k inds); [right | left]; tauto.
Qed.

Lemma mark_dropped_total (idxs : list nat) (reason : string) :
  forall log, (forall k, In k idxs -> (k < List.length log)%nat) ->
              exists log', mark_dropped log idxs reason = inr log'.
Proof.
  induction idxs as [|k idxs IH]; intros log Hr; simpl; [eauto|].
  destruct (update_nth_in_range log k (fun _ => [reason])) as [log1 E];
    [apply Hr; now left|].
  rewrite E. apply IH. intros j Hj.
  rewrite (update_nth_length _ _ _ _ E). apply Hr. now right.
Qed.

(** Dropping distinct positions of a consistent collection. *)
Lemma drop_positions (self : Epochs) (inds : list nat) (reason : string) :
  Consistent self -> NoDup inds ->
  (forall i, In i inds -> (i < List.length (events self))%nat) ->
  exists self',
    drop (IntIndices (map Z.of_nat inds)) reason self = (inr tt, self') /\
    (List.length (events self') + List.length inds = List.length (events self))%nat /\
    Consistent self'.
Proof.
  intros Hc Hnd Hr.
  pose proof (drop_consistent (IntIndices (map Z.of_nat inds)) reason self Hc) as Hc'.
  revert Hc'. unfold drop. cbn [index_list]. cbv zeta.
  rewrite filter_none.
  2:{ intros z Hz. apply in_map_iff in Hz. destruct Hz as [i [<- Hi]].
      specialize (Hr i Hi).
      replace (Z.of_nat i <? 0) with false by (symmetry; apply Z.ltb_ge; lia).
      apply orb_false_iff. split; [apply Z.ltb_ge | apply Z.leb_gt]; lia. }
  rewrite !map_map.
  rewrite (map_ext _ (fun i : nat => i)), map_id.
  2:{ intros i. cbv beta.
      replace (Z.of_nat i <? 0) with false by (symmetry; apply Z.ltb_ge; lia).
      apply Nat2Z.id. }
  set (keep := setdiff1d (seq 0 (List.length (events self))) inds).
  destruct Hc as [Hlen [Hsel Htab]].
  destruct (mark_dropped_total
              (setdiff1d (selection self) (take_idx (selection self) keep)) reason
              (drop_log self)) as [log' Hm].
  { intros k Hk. apply In_setdiff1d in Hk. destruct Hk as [Hk _].
    apply Htab in Hk. apply nth_error_Some. congruence. }
  destruct (_getitem keep (Some reason) true self) as [[e|[]] self'] eqn:Hg.
  { exfalso. revert Hg. unfold _getitem. rewrite Hm. discriminate. }
  intros Hc'. exists self'. split; [reflexivity|]. split; [|exact Hc'].
  apply _getitem_Some in Hg. destruct Hg as [_ [Hev _]]. rewrite Hev.
  rewrite length_take_idx_in_range.
  - apply length_setdiff1d_seq; assumption.
  - intros i Hi. unfold keep in Hi. apply In_setdiff1d in Hi.
    destruct Hi as [Hi _]. apply in_seq in Hi. lia.
Qed.

Lemma for_each_cleaned `{Collaborators} (epochs_list : list Epochs) :
  Forall (fun e => _bad_dropped e = true) epochs_list ->
  for_each (fun e => if _bad_dropped e then ret tt else drop_bad Existing Existing)
           epochs_list
  = (inr tt, epochs_list).
Proof.
  induction 1 as [|e l He _ IH]; cbn [for_each]; [reflexivity|].
  rewrite He, IH. reflexivity.
Qed.

Lemma drop_each_spec (reason : string) (n : nat) (epochs_list : list Epochs) :
  forall indices,
    Forall2 (fun e inds =>
               Consistent e /\ NoDup inds /\
               (forall i, In i inds -> (i < List.length (events e))%nat) /\
               (List.length (events e) - List.length inds = n)%nat)
            epochs_list indices ->
    exists l',
      drop_each reason epochs_list indices = (inr tt, l') /\
      List.length l' = List.length epochs_list /\
      Forall (fun e => List.length (events e) = n /\ Consistent e) l'.
Proof.
  induction epochs_list as [|e l IH]; intros indices Hall;
    inversion Hall as [|? inds ? indices' [Hc [Hnd [Hr Hn]]] Hrest]; subst;
    cbn [drop_each].
  - exists []. auto.
  - destruct (drop_positions e inds reason Hc Hnd Hr) as [e' [Hd [Hlen Hc']]].
    destruct (IH indices' Hrest) as [l' [Hl [Hlen' Hall']]].
    rewrite Hd, Hl. exists (e' :: l'). split; [reflexivity|].
    split; [simpl; congruence|]. constructor; [|exact Hall'].
    split; [lia | exact Hc'].
Qed.

Lemma Forall2_map_left {A B C} (P : B -> C -> Prop) (f : A -> B) (l : list A) :
  forall l2, Forall2 P (map f l) l2 -> Forall2 (fun x y => P (f x) y) l l2.
Proof.
  induction l as [|x l IH]; intros l2 H; inversion H; subst; constructor; auto.
Qed.

(** X27 ([equalize_epoch_counts]). Equalizing consistent collections whose
    bad epochs have been dropped succeeds and leaves each of them with the
    same number of events: the number held by the smallest collection. The
    collections stay consistent. (Under ['mintime'] collections of a single
    event are left aside, as for [_minimize_time_diff].) *)
Theorem equalize_epoch_counts_equal `{Collaborators} (epochs_list : list Epochs)
        (method : EqualizeMethod) :
  epochs_list <> [] ->
  Forall (fun e => Consistent e /\ _bad_dropped e = true) epochs_list ->
  (method = Mintime ->
   forall e, In e epochs_list -> List.length (events e) <> 1%nat) ->
  exists (l' : list Epochs) (n : nat),
    equalize_epoch_counts epochs_list method = (inr tt, l') /\
    List.length l' = List.length epochs_list /\
    (exists e, In e epochs_list /\ List.length (events e) = n) /\
    (forall e, In e epochs_list -> (n <= List.length (events e))%nat) /\
    Forall (fun e => List.length (events e) = n /\ Consistent e) l'.
Proof.
  intros Hne Hall _. unfold equalize_epoch_counts.
  rewrite for_each_cleaned
    by (eapply Forall_impl; [|exact Hall]; intros e He; apply He).
  cbv zeta.
  set (event_times := map (fun e => map (fun ev => inject_Z (ev_sample ev)) (events e))
                          epochs_list).
  destruct (_get_drop_indices event_times method) as [err|indices] eqn:Hg.
  { exfalso. revert Hg. unfold _get_drop_indices, event_times.
    destruct epochs_list; [contradiction | discriminate]. }
  destruct (_get_drop_indices_spec event_times method indices Hg)
    as [n [[t [Ht Hlen]] Hf]].
  unfold event_times in Hf. apply Forall2_map_left in Hf.
  assert (Hf' : Forall2 (fun e inds =>
                           Consistent e /\ NoDup inds /\
                           (forall i, In i inds -> (i < List.length (events e))%nat) /\
                           (List.length (events e) - List.length inds = n)%nat)
                        epochs_list indices).
  { clear -Hf Hall. induction Hf as [|e inds l l2 [H1 [H2 [_ H4]]] _ IH];
      constructor.
    - rewrite length_map in H2, H4. apply Forall_inv in Hall. tauto.
    - apply IH. eapply Forall_inv_tail. exact Hall. }
  destruct (drop_each_spec "EQUALIZED_COUNT" n epochs_list indices Hf')
    as [l' [Hd [Hlen' Hall']]].
  exists l', n. split; [exact Hd|]. split; [exact Hlen'|].
  split; [|split; [|exact Hall']].
  - unfold event_times in Ht. apply in_map_iff in Ht. destruct Ht as [e [<- He]].
    exists e. rewrite length_map in Hlen. auto.
  - intros e He. clear -Hf He. induction Hf as [|e0 inds l l2 [_ [_ [H3 _]]] _ IH].
    + contradiction.
    + destruct He as [->|He]; [rewrite length_map in H3; exact H3 | auto].
Qed.

Lemma equalize_epoch_counts_equal_witness :
  exists (l' : list Epochs) (n : nat),
    equalize_epoch_counts (H := table_source []) [cleaned_epochs; cleaned_pair] Mintime
    = (inr tt, l') /\
    List.length l' = List.length [cleaned_epochs; cleaned_pair] /\
    (exists e, In e [cleaned_epochs; cleaned_pair] /\ List.length (events e) = n) /\
    (forall e, In e [cleaned_epochs; cleaned_pair] -> (n <= List.length (events e))%nat) /\
    Forall (fun e => List.length (events e) = n /\ Consistent e) l'.
Proof.
  assert (Hc : forall a, __init__ (H := table_source []) a = inr (built (H := table_source []) a) ->
                         arg_selection a = None -> arg_drop_log a = None ->
                         Consistent (snd (drop_bad (H := table_source []) Existing Existing
                                                   (built (H := table_source []) a)))).
  { intros a Hi Hs Hl. apply drop_bad_consistent.
    apply (__init___consistent (H := table_source []) a _ Hi).
    unfold caller_tables_ok, initial_selection. rewrite Hs, Hl.
    split; [apply NoDup_nonzero_from | exact I]. }
  apply (equalize_epoch_counts_equal (H := table_source [])
           [cleaned_epochs; cleaned_pair] Mintime).
  - discriminate.
  - constructor; [|constructor; [|constructor]].
    + split; [|vm_compute; reflexivity]. unfold cleaned_epochs.
      apply (Hc four_args); [vm_compute; reflexivity | reflexivity | reflexivity].
    + split; [|vm_compute; reflexivity]. unfold cleaned_pair.
      apply (Hc pair_args); [vm_compute; reflexivity | reflexivity | reflexivity].
  - intros _ e [<-|[<-|[]]]; vm_compute; discriminate.
Defined.
